(** * Frontmatter parser of the Agent Skills scripts

    A shallow embedding of [skills/skill-crafting/scripts/frontmatter.py]
    and the properties of its header parser.

    Python [str] values are sequences of Unicode code points, so a string
    is a list of code points here; [str.strip], [str.split] and the regular
    expression class [\s] all use the same whitespace predicate, which is
    [isspace] below.  Python values ([str], [dict], [list]) are untyped, so
    the parser's results live in one recursive type [pyval].  A [dict]
    keeps insertion order and assignment to an existing key keeps its
    position, hence an association list with in-place update.

    The [while] loops of the source are iterated with a fuel argument:
    [None] means the fuel ran out, [Some r] that the code returned [r]. *)

From Stdlib Require Import String Ascii.
From Stdlib Require Import List NArith Arith Bool Lia.
From Stdlib Require DecimalString.
From Stdlib Require Import ZArith Sorting.Permutation Sorting.Sorted.
Import ListNotations.

Set Warnings "-register-all".

(** ** Python strings *)

Module Py.

Definition char := N.
Definition str := list char.

(** A literal: each character of the Rocq string is one code point. *)
Definition py (s : string) : str := map N_of_ascii (list_ascii_of_string s).
Arguments py s%_string.

Definition nl : char := 10%N.
Definition tab : char := 9%N.
Definition space : char := 32%N.
Definition dquote : char := 34%N.
Definition squote : char := 39%N.
Definition hash : char := 35%N.
Definition dash : char := 45%N.
Definition colon : char := 58%N.
Definition gt : char := 62%N.
Definition underscore : char := 95%N.
Definition pipe : char := 124%N.

Local Open Scope N_scope.

(** [str.isspace] on one code point (CPython's [_PyUnicode_IsWhitespace]). *)
Definition isspace (c : char) : bool :=
  ((9 <=? c) && (c <=? 13)) || ((28 <=? c) && (c <=? 32))
  || (c =? 133) || (c =? 160) || (c =? 5760)
  || ((8192 <=? c) && (c <=? 8202))
  || (c =? 8232) || (c =? 8233) || (c =? 8239) || (c =? 8287) || (c =? 12288).

Local Close Scope N_scope.

Fixpoint str_eqb (a b : str) : bool :=
  match a, b with
  | [], [] => true
  | x :: a', y :: b' => N.eqb x y && str_eqb a' b'
  | _, _ => false
  end.

(** Truth value of a string: [not s] is [is_empty s]. *)
Definition is_empty {A : Type} (s : list A) : bool :=
  match s with [] => true | _ :: _ => false end.

(** [s.startswith(p)] *)
Fixpoint startswith (s p : str) {struct p} : bool :=
  match p with
  | [] => true
  | a :: p' =>
      match s with
      | [] => false
      | b :: s' => N.eqb a b && startswith s' p'
      end
  end.

(** [s.endswith(p)] *)
Definition endswith (s p : str) : bool := startswith (rev s) (rev p).

Fixpoint drop_while (p : char -> bool) (s : str) : str :=
  match s with
  | [] => []
  | c :: s' => if p c then drop_while p s' else s
  end.

(** [s.lstrip()], [s.rstrip()], [s.strip()] *)
Definition lstrip (s : str) : str := drop_while isspace s.
Definition rstrip (s : str) : str := rev (drop_while isspace (rev s)).
Definition strip (s : str) : str := rstrip (lstrip s).

(** [c in s] for a one-character needle [c]. *)
Definition contains (c : char) (s : str) : bool := existsb (N.eqb c) s.

(** [s.split(sep)] for a one-character separator: never an empty list. *)
Fixpoint split (sep : char) (s : str) : list str :=
  match s with
  | [] => [[]]
  | c :: s' =>
      if N.eqb c sep then [] :: split sep s'
      else match split sep s' with
           | l :: ls => (c :: l) :: ls
           | [] => [[c]]
           end
  end.

(** [s.split()]: the maximal runs of non-whitespace characters.  [tok] is
    the run read so far. *)
Fixpoint split_ws_from (tok : str) (s : str) : list str :=
  match s with
  | [] => if is_empty tok then [] else [tok]
  | c :: s' =>
      if isspace c
      then (if is_empty tok then split_ws_from [] s'
            else tok :: split_ws_from [] s')
      else split_ws_from (tok ++ [c]) s'
  end.

Definition split_ws (s : str) : list str := split_ws_from [] s.

(** [s.partition(sep)] for a one-character separator: the text before the
    first [sep], the separator found (empty when there is none), the text
    after it. *)
Fixpoint partition (sep : char) (s : str) : str * str * str :=
  match s with
  | [] => ([], [], [])
  | c :: s' =>
      if N.eqb c sep then ([], [sep], s')
      else let '(a, m, b) := partition sep s' in (c :: a, m, b)
  end.

(** [sep.join(parts)] *)
Fixpoint join (sep : str) (parts : list str) : str :=
  match parts with
  | [] => []
  | [p] => p
  | p :: ps => p ++ sep ++ join sep ps
  end.

(** [s[1:-1]] *)
Definition slice_1_m1 (s : str) : str := firstn (length s - 2) (skipn 1 s).

(** [s[a:b]] for [0 <= a <= b] *)
Definition slice (s : str) (a b : nat) : str := firstn (b - a) (skipn a s).

(** Search of [sub] in a suffix [s] that begins at offset [pos]. *)
Fixpoint find_from (sub s : str) (pos : nat) : option nat :=
  if startswith s sub then Some pos
  else match s with
       | [] => None
       | _ :: s' => find_from sub s' (S pos)
       end.

(** [s.index(sub, start)]; [None] stands for the [ValueError]. *)
Definition index (s sub : str) (start : nat) : option nat :=
  if start <=? length s then find_from sub (skipn start s) start else None.

End Py.

Import Py.

(** ** Python values and dictionaries *)

Inductive pyval : Type :=
| PStr (s : str)
| PDict (d : list (str * pyval))
| PList (l : list pyval).

Definition dict := list (str * pyval).

(** [d[k] = v] *)
Fixpoint dict_set (k : str) (v : pyval) (d : dict) : dict :=
  match d with
  | [] => [(k, v)]
  | (k', v') :: d' =>
      if str_eqb k k' then (k, v) :: d' else (k', v') :: dict_set k v d'
  end.

(** [d.get(k)] *)
Fixpoint dict_get (k : str) (d : dict) : option pyval :=
  match d with
  | [] => None
  | (k', v') :: d' => if str_eqb k k' then Some v' else dict_get k d'
  end.

(** ** The three regular expressions *)

Module Re.

Local Open Scope N_scope.

(** [[a-zA-Z]] *)
Definition is_alpha (c : char) : bool :=
  ((65 <=? c) && (c <=? 90)) || ((97 <=? c) && (c <=? 122)).

(** [[a-zA-Z0-9_-]] *)
Definition is_key_char (c : char) : bool :=
  is_alpha c || ((48 <=? c) && (c <=? 57)) || (c =? underscore) || (c =? dash).

Local Close Scope N_scope.

(** The longest prefix of characters in a class, and what follows it. *)
Fixpoint span (p : char -> bool) (s : str) : str * str :=
  match s with
  | [] => ([], [])
  | c :: s' =>
      if p c then let (a, b) := span p s' in (c :: a, b) else ([], s)
  end.

(** The group [( .* )] and [$]: [.] is any character but a newline, [$]
    is the end of the text or the position before a final newline.
    (Patterns are quoted with blanks between their parts.) *)
Definition rest_to_end (s : str) : option str :=
  let (v, r) := span (fun c => negb (N.eqb c nl)) s in
  match r with
  | [] => Some v
  | [_] => Some v
  | _ :: _ :: _ => None
  end.

(** The group [( .+ )] and [$]. *)
Definition rest_to_end1 (s : str) : option str :=
  match rest_to_end s with
  | Some (c :: v) => Some (c :: v)
  | _ => None
  end.

(** [\s *] followed by [tail]: the greedy star takes every whitespace
    character first and gives them back one at a time while [tail] fails. *)
Fixpoint ws_then (tail : str -> option str) (s : str) : option str :=
  match s with
  | c :: s' =>
      if isspace c
      then match ws_then tail s' with
           | Some v => Some v
           | None => tail s
           end
      else tail s
  | [] => tail []
  end.

(** [re.match] of [^ ( [a-zA-Z] [a-zA-Z0-9_-]* ) \s* : \s* ( .* ) $] on
    [s], line 85: the two groups.  A shorter key or a shorter whitespace run before the colon is
    followed by a character that is not a colon, so only the longest ones
    can match. *)
Definition match_key_value (s : str) : option (str * str) :=
  match s with
  | c :: s1 =>
      if is_alpha c then
        let (k, s2) := span is_key_char s1 in
        match lstrip s2 with
        | d :: s3 =>
            if N.eqb d colon
            then option_map (pair (c :: k)) (ws_then rest_to_end s3)
            else None
        | [] => None
        end
      else None
  | [] => None
  end.

(** [re.match] of [^ \s+ ( [a-zA-Z] [a-zA-Z0-9_-]* ) \s* : \s* ( .* ) $]
    on [s], line 115. *)
Definition match_nested_key_value (s : str) : option (str * str) :=
  match s with
  | c :: _ => if isspace c then match_key_value (lstrip s) else None
  | [] => None
  end.

(** [re.match] of [^ \s* - \s* ( .+ ) $] on [s], line 124: its group. *)
Definition match_list_item (s : str) : option str :=
  match lstrip s with
  | d :: s1 => if N.eqb d dash then ws_then rest_to_end1 s1 else None
  | [] => None
  end.

End Re.

Import Re.

(** ** frontmatter.py *)

(** One pass of the loop of lines 160-164 of [parse_list_item]. *)
Definition add_part (result : dict) (part : str) : dict :=
  if contains colon part then
    let '(key, _, val) := partition colon part in
    if is_empty val then result
    else dict_set (strip key) (PStr (strip val)) result
  else result.

(** [parse_list_item], lines 152-167.  The item is a [dict] of the
    [key:value] tokens when there is one with a value, else the text. *)
Definition parse_list_item (item_text : str) : pyval :=
  let item_text := strip item_text in
  if contains colon item_text then
    let parts := split_ws item_text in
    let result := fold_left add_part parts [] in
    if is_empty result then PStr item_text else PDict result
  else PStr item_text.

(** Lines 99-102 and 131-134: a value between two double quotes or two
    single quotes loses its first and last character. *)
Definition strip_quotes (value : str) : str :=
  if startswith value [dquote] && endswith value [dquote]
  then slice_1_m1 value
  else if startswith value [squote] && endswith value [squote]
  then slice_1_m1 value
  else value.

(** [len(line) - len(line.lstrip())], lines 73 and 94. *)
Definition indent_of (line : str) : nat := length line - length (lstrip line).

(** The guard of line 114. *)
Definition still_indented (nested_line : str) : bool :=
  startswith nested_line (py "  ") || startswith nested_line [tab].

(** The loop of lines 123-127, entered with [list_items = []]. *)
Fixpoint list_loop (fuel : nat) (lines : list str) (i : nat)
    (list_items : list pyval) : option (list pyval * nat) :=
  match fuel with
  | O => None
  | S fuel' =>
      match nth_error lines i with
      | None => Some (list_items, i)          (* i >= len(lines) *)
      | Some line =>
          if startswith (strip line) [dash] then
            let list_items' :=
              match match_list_item (strip line) with
              | Some item => list_items ++ [parse_list_item item]
              | None => list_items
              end in
            list_loop fuel' lines (S i) list_items'
          else Some (list_items, i)
      end
  end.

(** How one pass through a loop body ends. *)
Inductive ctl (A : Type) : Type :=
| Break (a : A)
| Continue (a : A).
Arguments Break {A} a.
Arguments Continue {A} a.

(** The body of the loop of lines 108-138 at line [nested_line = lines[i]].
    In the list branch the [continue] of line 129 skips the [i += 1] of
    line 136. *)
Definition nested_body (fuel : nat) (lines : list str) (i : nat)
    (nested : dict) (nested_line : str) : option (ctl (dict * nat)) :=
  if is_empty (strip nested_line) then Some (Continue (nested, S i))
  else if still_indented nested_line then
    match match_nested_key_value nested_line with
    | Some (nested_key, group2) =>
        let nested_val := strip group2 in
        if startswith nested_val [dash] then
          match list_loop fuel lines i [] with
          | Some (list_items, i') =>
              Some (Continue (dict_set nested_key (PList list_items) nested, i'))
          | None => None
          end
        else
          Some (Continue
                  (dict_set nested_key (PStr (strip_quotes nested_val)) nested,
                   S i))
    | None => Some (Continue (nested, S i))
    end
  else Some (Break (nested, i)).

Fixpoint nested_loop (fuel : nat) (lines : list str) (i : nat)
    (nested : dict) : option (dict * nat) :=
  match fuel with
  | O => None
  | S fuel' =>
      match nth_error lines i with
      | None => Some (nested, i)              (* i >= len(lines) *)
      | Some nested_line =>
          match nested_body fuel' lines i nested nested_line with
          | Some (Continue (nested', i')) => nested_loop fuel' lines i' nested'
          | Some (Break r) => Some r
          | None => None
          end
      end
  end.

(** The variables of [parse_simple_yaml]. *)
Module St.
Record t : Type := mk {
  result : dict;
  i : nat;
  current_key : option str;             (* [None] or the key of a block *)
  multiline_value : list str;
  multiline_indent : nat
}.
End St.

(** [current_key and multiline_value], lines 66, 72 and 146. *)
Definition in_block (st : St.t) : bool :=
  match St.current_key st with
  | Some key => negb (is_empty key) && negb (is_empty (St.multiline_value st))
  | None => false
  end.

(** [result[current_key] = '\n'.join(multiline_value).strip()] *)
Definition close_block (st : St.t) : dict :=
  match St.current_key st with
  | Some key =>
      dict_set key (PStr (strip (join [nl] (St.multiline_value st))))
        (St.result st)
  | None => St.result st
  end.

(** The body of the loop of lines 60-143 at [line = lines[i]]. *)
Definition outer_body (fuel : nat) (lines : list str) (st : St.t)
    (line : str) : option St.t :=
  let stripped := strip line in
  if is_empty stripped || startswith stripped [hash] then
    (* lines 65-69 *)
    Some (St.mk (St.result st) (S (St.i st)) (St.current_key st)
            (if in_block st then St.multiline_value st ++ [[]]
             else St.multiline_value st)
            (St.multiline_indent st))
  else if in_block st && (St.multiline_indent st <=? indent_of line) then
    (* lines 72-77 *)
    Some (St.mk (St.result st) (S (St.i st)) (St.current_key st)
            (St.multiline_value st ++ [skipn (St.multiline_indent st) line])
            (St.multiline_indent st))
  else
    (* lines 78-82 *)
    let st :=
      if in_block st
      then St.mk (close_block st) (St.i st) None [] (St.multiline_indent st)
      else st in
    (* lines 85-143 *)
    match match_key_value stripped with
    | Some (key, group2) =>
        let value := strip group2 in
        if str_eqb value [pipe] || str_eqb value [gt] then
          Some (St.mk (St.result st) (S (St.i st)) (Some key) []
                  (indent_of line + 2))
        else
          let value := strip_quotes value in
          if is_empty value then
            match nested_loop fuel lines (S (St.i st)) [] with
            | Some (nested, i') =>
                Some (St.mk (dict_set key (PDict nested) (St.result st)) i'
                        (St.current_key st) (St.multiline_value st)
                        (St.multiline_indent st))
            | None => None
            end
          else
            Some (St.mk (dict_set key (PStr value) (St.result st))
                    (S (St.i st)) (St.current_key st) (St.multiline_value st)
                    (St.multiline_indent st))
    | None =>
        Some (St.mk (St.result st) (S (St.i st)) (St.current_key st)
                (St.multiline_value st) (St.multiline_indent st))
    end.

Fixpoint outer_loop (fuel : nat) (lines : list str) (st : St.t)
    : option St.t :=
  match fuel with
  | O => None
  | S fuel' =>
      match nth_error lines (St.i st) with
      | None => Some st                        (* i >= len(lines) *)
      | Some line =>
          match outer_body fuel' lines st line with
          | Some st' => outer_loop fuel' lines st'
          | None => None
          end
      end
  end.

(** [parse_simple_yaml], lines 36-149. *)
Definition parse_simple_yaml (fuel : nat) (yaml_text : str) : option dict :=
  let lines := split nl yaml_text in
  match outer_loop fuel lines (St.mk [] 0 None [] 0) with
  | Some st => Some (if in_block st then close_block st else St.result st)
  | None => None
  end.

(** [parse_frontmatter], lines 13-33. *)
Definition parse_frontmatter (fuel : nat) (content : str)
    : option (dict * str) :=
  if negb (startswith content (py "---")) then Some ([], content)
  else
    match index content (py "---") 3 with
    | Some end_idx =>
        let yaml_section := strip (slice content 3 end_idx) in
        let body := strip (skipn (end_idx + 3) content) in
        match parse_simple_yaml fuel yaml_section with
        | Some frontmatter => Some (frontmatter, body)
        | None => None
        end
    | None => Some ([], content)               (* except ValueError *)
    end.

(** [get_frontmatter_field], lines 170-173. *)
Definition get_frontmatter_field (fuel : nat) (content field : str)
    : option (option pyval) :=
  match parse_frontmatter fuel content with
  | Some (frontmatter, _) => Some (dict_get field frontmatter)
  | None => None
  end.

(** Documents are written line by line. *)
Definition doc (lines : list str) : str := join [nl] lines.
Definition quoted (s : str) : str := [dquote] ++ s ++ [dquote].

Definition doc_block : str :=
  doc [py "---"; py "name: x"; py "description: |"; py "  line one";
       py "  line two"; py "---"; py "body text"].
Definition doc_hooks : str :=
  doc [py "---"; py "hooks:"; py "  PreToolUse:";
       py "    - command: " ++ quoted (py "x"); py "---"; []].
Definition doc_loop : str :=
  doc [py "---"; py "k:"; py "  s: - a"; py "---"; []].

(** The documents of the examples. *)
Definition doc_empty_quoted : str :=
  doc [py "---"; py "title: " ++ quoted []; py "---"; []].

Definition doc_deep : str :=
  doc [py "---"; py "a:"; py "  b:"; py "    c:"; py "      d: e"; py "---";
       []].

(** ** Vocabulary of the properties *)

(** The identifier grammar of the key pattern: a letter, then letters,
    digits, hyphens and underscores. *)
Definition is_identifier (key : str) : bool :=
  match key with
  | c :: k => is_alpha c && forallb is_key_char k
  | [] => false
  end.

(** A token of the form [key:value] with a value: the key is what stands
    before its first colon. *)
Definition is_kv_token (tok k v : str) : Prop :=
  tok = k ++ colon :: v /\ contains colon k = false /\ v <> [].

(** The same, computed. *)
Definition kv_of (tok : str) : option (str * str) :=
  let '(k, m, v) := partition colon tok in
  if is_empty m || is_empty v then None else Some (k, v).

(** The value of the last token of [toks] with key [k]. *)
Fixpoint last_kv (k : str) (toks : list str) : option str :=
  match toks with
  | [] => None
  | tok :: rest =>
      match last_kv k rest with
      | Some v => Some v
      | None =>
          match kv_of tok with
          | Some (k', v) => if str_eqb k k' then Some v else None
          | None => None
          end
      end
  end.

Definition visible (t : str) : bool := forallb (fun c => negb (isspace c)) t.

(** Every value of a mapping satisfies [p]. *)
Definition all_values (p : pyval -> bool) (d : dict) : bool :=
  forallb (fun kv => p (snd kv)) d.

Definition is_str (v : pyval) : bool :=
  match v with PStr _ => true | _ => false end.

(** A value inside a nested mapping: a string or a list, not a mapping. *)
Definition nested_value_ok (v : pyval) : bool :=
  match v with PStr _ | PList _ => true | PDict _ => false end.

(** A top-level value: a string, or a mapping of such values. *)
Definition top_value_ok (v : pyval) : bool :=
  match v with
  | PStr _ => true
  | PDict d => all_values nested_value_ok d
  | PList _ => false
  end.

(** What the terminating runs produce: a string, or a mapping of strings. *)
Definition top_value_strict (v : pyval) : bool :=
  match v with
  | PStr _ => true
  | PDict d => all_values is_str d
  | PList _ => false
  end.

(** How deep mappings sit inside mappings. *)
Fixpoint dict_depth (v : pyval) : nat :=
  match v with
  | PStr _ => 0
  | PList l => fold_right (fun x n => Nat.max (dict_depth x) n) 0 l
  | PDict d =>
      S (fold_right (fun kv n => Nat.max (dict_depth (snd kv)) n) 0 d)
  end.

(** ** Values as the consumers use them *)

(** A call returns a value or raises. *)
Inductive exn : Type := AttributeError | KeyError.

Inductive outcome (A : Type) : Type :=
| Returned (a : A)
| Raised (e : exn).
Arguments Returned {A} a.
Arguments Raised {A} e.

(** [len(v)] *)
Definition py_len (v : pyval) : nat :=
  match v with
  | PStr s => length s
  | PDict d => length d
  | PList l => length l
  end.

(** [str(n)] for [n >= 0]: the decimal digits. *)
Definition str_of_nat (n : nat) : str :=
  py (DecimalString.NilEmpty.string_of_uint (Nat.to_uint n)).

(** [k in d] *)
Definition has_key (k : str) (d : dict) : bool :=
  match dict_get k d with Some _ => true | None => false end.

(** ** analyze-structure.py *)

Module Structure.

(** [[a-z]] and [[a-z0-9\-]] *)
Definition is_lower (c : char) : bool := ((97 <=? c) && (c <=? 122))%N.
Definition is_name_char (c : char) : bool :=
  (is_lower c || ((48 <=? c) && (c <=? 57)) || (c =? dash))%N.

(** [re.match] of [^ [a-z] [a-z0-9\-]* $] on [s], line 35.  The star is
    greedy; after a shorter run comes a character of the class, where [$]
    fails. *)
Definition match_name (s : str) : bool :=
  match s with
  | c :: r =>
      is_lower c &&
      (let (_, rest) := span is_name_char r in
       match rest with
       | [] => true
       | [x] => N.eqb x nl
       | _ :: _ :: _ => false
       end)
  | [] => false
  end.

(** [validate_name], lines 15-38.  [lower] is [str.lower]; a value that
    is not a string has no such method. *)
Definition validate_name (lower : str -> str) (name : pyval)
    : outcome (list str) :=
  if py_len name =? 0 then Returned [py "Missing required field: name"]
  else
    let issues : list str := [] in
    let issues :=
      if 64 <? py_len name
      then issues ++ [py "Name too long: " ++ str_of_nat (py_len name) ++
                      py " chars (max 64)"]
      else issues in
    match name with
    | PStr name =>
        let issues :=
          if negb (str_eqb name (lower name))
          then issues ++ [py "Name must be lowercase"] else issues in
        let issues :=
          if contains underscore name
          then issues ++ [py "Use hyphens, not underscores"] else issues in
        let issues :=
          if contains space name
          then issues ++ [py "No spaces allowed in name"] else issues in
        let issues :=
          if negb (match_name name)
          then issues ++
               [py "Name must start with letter, contain only lowercase, numbers, hyphens"]
          else issues in
        Returned issues
    | _ => Raised AttributeError
    end.

(** The dict built at lines 43-48. *)
Record report : Type := mk_report {
  valid : bool;
  issues : list str;
  warnings : list str;
  data : dict
}.

(** The set of lines 99-102. *)
Definition known_fields : list str :=
  [py "name"; py "description"; py "license"; py "compatibility";
   py "metadata"; py "allowed-tools"; py "hooks"; py "context"].

Definition is_known (field : str) : bool :=
  existsb (str_eqb field) known_fields.

(** [validate_frontmatter], lines 41-110.  [parse_simple_yaml] raises
    nothing, so the handler of lines 75-77 is never entered; [None] means
    the parse ran out of fuel. *)
Definition validate_frontmatter (lower : str -> str) (fuel : nat)
    (content : str) : option (outcome report) :=
  if negb (startswith content (py "---")) then
    Some (Returned (mk_report false
                      [py "File must start with --- (YAML frontmatter)"]
                      [] []))
  else
    match index content (py "---") 3 with
    | None =>
        Some (Returned (mk_report false
                          [py "Missing closing --- for frontmatter"] [] []))
    | Some end_idx =>
        let yaml_content := strip (slice content 3 end_idx) in
        let issues : list str :=
          if contains tab yaml_content
          then [py "YAML contains tabs (use spaces only)"] else [] in
        match parse_simple_yaml fuel yaml_content with
        | None => None
        | Some data =>
            if is_empty data then
              Some (Returned
                      (mk_report false
                         (issues ++ [py "Frontmatter must be a YAML mapping"])
                         [] []))
            else
              let issues :=
                if has_key (py "name") data then issues
                else issues ++ [py "Missing required field: name"] in
              let issues :=
                if has_key (py "description") data then issues
                else issues ++ [py "Missing required field: description"] in
              match
                match dict_get (py "name") data with
                | Some name => validate_name lower name
                | None => Returned []
                end
              with
              | Raised e => Some (Raised e)
              | Returned name_issues =>
                  let issues := issues ++ name_issues in
                  let warnings : list str := [] in
                  let '(issues, warnings) :=
                    match dict_get (py "description") data with
                    | Some desc =>
                        if 1024 <? py_len desc then
                          (issues ++
                           [py "Description too long: " ++
                            str_of_nat (py_len desc) ++
                            py " chars (max 1024)"], warnings)
                        else if 500 <? py_len desc then
                          (issues,
                           warnings ++
                           [py "Description is " ++ str_of_nat (py_len desc)
                            ++ py " chars (recommend <500)"])
                        else (issues, warnings)
                    | None => (issues, warnings)
                    end in
                  let warnings :=
                    fold_left
                      (fun warnings field =>
                         if is_known field then warnings
                         else warnings ++ [py "Unknown field: " ++ field])
                      (map fst data) warnings in   (* for field in data *)
                  Some (Returned
                          (mk_report (is_empty issues) issues warnings data))
              end
        end
    end.

(** [str.lower] on a text of ASCII characters. *)
Definition lower_ascii (s : str) : str :=
  map (fun c => if ((65 <=? c) && (c <=? 90))%N then (c + 32)%N else c) s.

(** A skill name: a lowercase letter, then lowercase letters, digits and
    hyphens. *)
Definition skill_name (s : str) : bool :=
  match s with
  | c :: r => is_lower c && forallb is_name_char r
  | [] => false
  end.

End Structure.

(** ** analyze-tokens.py *)

Module Tokens.

(** [count_words], lines 24-26: [len(text.split())]. *)
Definition count_words (text : str) : nat := length (split_ws text).

End Tokens.

(** ** check-char-budget.py *)

Module Budget.

(** The dict built at lines 32-36: a name and a description taken from
    the parsed mapping, and a path. *)
Record skill : Type := mk_skill {
  name : pyval;
  description : pyval;
  path : str
}.

(** The dict appended at lines 74-78. *)
Record entry : Type := mk_entry {
  entry_name : pyval;
  chars : nat;
  entry_path : str
}.

(** An [int] or a [float]; the floats and their operations are those of
    the language. *)
Inductive number (F : Type) : Type :=
| Int (z : Z)
| Float (f : F).
Arguments Int {F} z.
Arguments Float {F} f.

(** The dict returned at lines 80-88. *)
Record analysis (F : Type) : Type := mk_analysis {
  total : Z;
  budget : Z;
  remaining : Z;
  percent_used : number F;
  over_budget : bool;
  breakdown : list entry;
  skill_count : nat
}.
Arguments mk_analysis {F}.
Arguments total {F}.
Arguments budget {F}.
Arguments remaining {F}.
Arguments percent_used {F}.
Arguments over_budget {F}.
Arguments breakdown {F}.
Arguments skill_count {F}.

(** [sorted(l, key=key, reverse=True)]: the stable sort, largest key
    first; among equal keys the order of [l] is kept. *)
Fixpoint insert_desc {A : Type} (key : A -> nat) (x : A) (l : list A)
    : list A :=
  match l with
  | [] => [x]
  | y :: l' => if key x <? key y then y :: insert_desc key x l' else x :: l
  end.

Definition sorted_desc {A : Type} (key : A -> nat) (l : list A) : list A :=
  fold_right (insert_desc key) [] l.

(** [analyze_budget], lines 66-88.  [true_div] is [/] on two ints and
    [fmul] is [*] of a float by an int. *)
Definition analyze_budget {F : Type} (true_div : Z -> Z -> F)
    (fmul : F -> Z -> F) (skills : list skill) (budget : Z) : analysis F :=
  let '(total_chars, breakdown) :=
    fold_left
      (fun (acc : Z * list entry) (skill : skill) =>
         let '(total_chars, breakdown) := acc in
         let desc_len := py_len (description skill) in
         ((total_chars + Z.of_nat desc_len)%Z,
          breakdown ++ [mk_entry (name skill) desc_len (path skill)]))
      (sorted_desc (fun x => py_len (description x)) skills)
      (0%Z, []) in
  mk_analysis total_chars budget (budget - total_chars)%Z
    (if (0 <? budget)%Z then Float (fmul (true_div total_chars budget) 100%Z)
     else Int 0%Z)
    (budget <? total_chars)%Z
    breakdown
    (length skills).

(** The breakdown entry of a skill. *)
Definition entry_of (s : skill) : entry :=
  mk_entry (name s) (py_len (description s)) (path s).

End Budget.

(** ** analyze-compatibility.py *)

Module Compat.

(** The tables of lines 16-29. *)
Definition STANDARD_FIELDS : dict :=
  [(py "name", PStr (py "Required - skill identifier"));
   (py "description", PStr (py "Required - what it does and when to use"));
   (py "license", PStr (py "Optional - license name or file reference"));
   (py "compatibility", PStr (py "Optional - environment requirements"));
   (py "metadata", PStr (py "Optional - arbitrary key-value pairs"))].

Definition CLAUDE_CODE_FIELDS : dict :=
  [(py "allowed-tools", PStr (py "Tool pre-authorization"));
   (py "hooks",
    PStr (py "Event hooks (PreToolUse, PostToolUse, UserPromptSubmit, Stop)"));
   (py "context", PStr (py "Execution context (fork for isolated subagent)"))].

(** The dicts appended at lines 70-74 and 76-79. *)
Record standard_entry : Type := mk_standard {
  s_field : str;
  s_value : str;
  s_note : pyval
}.

Record claude_entry : Type := mk_claude {
  c_field : str;
  c_note : pyval
}.

(** The dict built at lines 59-66. *)
Record result : Type := mk_result {
  standard_fields : list standard_entry;
  claude_code_fields : list claude_entry;
  unknown_fields : list str;
  hooks_detected : list str;
  is_cross_platform : bool;
  recommendations : list str
}.

(** Line 72: [str(value)[:50] + '...' if len(str(value)) > 50 else
    str(value)], on the text [s] of [str(value)]. *)
Definition shorten (s : str) : str :=
  if 50 <? length s then firstn 50 s ++ py "..." else s.

(** One pass of the loop of lines 68-88.  [py_str] is [str]. *)
Definition classify (py_str : pyval -> str) (r : result)
    (item : str * pyval) : result :=
  let (field, value) := item in
  match dict_get field STANDARD_FIELDS with
  | Some note =>
      mk_result
        (standard_fields r ++ [mk_standard field (shorten (py_str value)) note])
        (claude_code_fields r) (unknown_fields r) (hooks_detected r)
        (is_cross_platform r) (recommendations r)
  | None =>
      match dict_get field CLAUDE_CODE_FIELDS with
      | Some note =>
          mk_result (standard_fields r)
            (claude_code_fields r ++ [mk_claude field note])
            (unknown_fields r)
            (if str_eqb field (py "hooks")
             then match value with
                  | PDict d => hooks_detected r ++ map fst d
                  | _ => hooks_detected r
                  end
             else hooks_detected r)
            false (recommendations r)
      | None =>
          mk_result (standard_fields r) (claude_code_fields r)
            (unknown_fields r ++ [field]) (hooks_detected r)
            (is_cross_platform r) (recommendations r)
      end
  end.

(** [analyze_compatibility], lines 54-102: the mapping itself when it has
    the key [error], else the result. *)
Definition analyze_compatibility (py_str : pyval -> str) (frontmatter : dict)
    : dict + result :=
  if has_key (py "error") frontmatter then inl frontmatter
  else
    let r :=
      fold_left (classify py_str) frontmatter
        (mk_result [] [] [] [] true []) in
    let recommendations := recommendations r in
    let recommendations :=
      if has_key (py "name") frontmatter then recommendations
      else recommendations ++ [py "Add required field: name"] in
    let recommendations :=
      if has_key (py "description") frontmatter then recommendations
      else recommendations ++ [py "Add required field: description"] in
    let recommendations :=
      if negb (is_empty (claude_code_fields r)) &&
         negb (has_key (py "compatibility") frontmatter)
      then recommendations ++
           [py "Add 'compatibility' field to document platform differences"]
      else recommendations in
    inr (mk_result (standard_fields r) (claude_code_fields r)
           (unknown_fields r) (hooks_detected r) (is_cross_platform r)
           recommendations).

End Compat.

(** ** analyze-all.py *)

(** [s.strip(chars)]: the characters of [chars] are removed from both
    ends. *)
Definition strip_chars (chars : str) (s : str) : str :=
  let in_chars := fun c => existsb (N.eqb c) chars in
  rev (drop_while in_chars (rev (drop_while in_chars s))).

Module AnalyzeAll.

(** One pass of the loop of lines 29-37, the parser used when the module
    [frontmatter] cannot be imported. *)
Definition inline_line (result : dict) (line : str) : dict :=
  let line := strip line in
  if is_empty line || startswith line [hash] then result
  else if contains colon line then
    let '(key, _, value) := partition colon line in
    let key := strip key in
    let value := strip_chars [dquote; squote] (strip value) in
    dict_set key (PStr value) result
  else result.

(** The inline [parse_frontmatter], lines 18-38. *)
Definition parse_frontmatter (content : str) : dict * str :=
  if negb (startswith content (py "---")) then ([], content)
  else
    match index content (py "---") 3 with
    | Some end_idx =>
        let yaml_section := strip (slice content 3 end_idx) in
        let body := strip (skipn (end_idx + 3) content) in
        (fold_left inline_line (split nl yaml_section) [], body)
    | None => ([], content)                   (* except ValueError *)
    end.

(** The sets of lines 57-58. *)
Definition STANDARD_FIELDS : list str :=
  [py "name"; py "description"; py "license"; py "compatibility";
   py "metadata"].
Definition CLAUDE_CODE_FIELDS : list str :=
  [py "allowed-tools"; py "hooks"; py "context"].

(** The dict that [load_skill] returns, lines 91-98. *)
Record skill : Type := mk_skill {
  path : str;
  content : str;
  frontmatter : dict;
  name : pyval;
  description : pyval;
  lines : nat
}.

(** The dict built at lines 179-184. *)
Record compat : Type := mk_compat {
  is_cross_platform : bool;
  standard : list str;
  claude_code : list str;
  unknown : list str
}.

(** [analyze_compatibility], lines 177-195. *)
Definition analyze_compatibility (skill : skill) : compat :=
  fold_left
    (fun results field =>
       if existsb (str_eqb field) STANDARD_FIELDS then
         mk_compat (is_cross_platform results) (standard results ++ [field])
           (claude_code results) (unknown results)
       else if existsb (str_eqb field) CLAUDE_CODE_FIELDS then
         mk_compat false (standard results) (claude_code results ++ [field])
           (unknown results)
       else
         mk_compat (is_cross_platform results) (standard results)
           (claude_code results) (unknown results ++ [field]))
    (map fst (frontmatter skill))            (* for field in frontmatter *)
    (mk_compat true [] [] []).

End AnalyzeAll.

(** ** Vocabulary of the further properties *)

(** The keys of a mapping, in insertion order. *)
Definition keys (d : dict) : list str := map fst d.

(** A line that sends the nested loop into its list branch: it passes the
    guard of line 114, matches the pattern of line 115 and its value
    begins with a dash (line 120). *)
Definition list_value_line (line : str) : bool :=
  still_indented line &&
  match match_nested_key_value line with
  | Some (_, group2) => startswith (strip group2) [dash]
  | None => false
  end.

(** What a line does when it stands at the top level and is neither a
    block indicator nor an empty-valued key: [Some None] when it is blank,
    a comment or matches no key pattern, [Some (Some (key, value))] when it
    binds [key] to the scalar [value]; [None] for the other lines. *)
Definition scalar_of_line (line : str) : option (option (str * str)) :=
  let stripped := strip line in
  if is_empty stripped || startswith stripped [hash] then Some None
  else
    match match_key_value stripped with
    | None => Some None
    | Some (key, group2) =>
        let value := strip group2 in
        if str_eqb value [pipe] || str_eqb value [gt] then None
        else
          let value := strip_quotes value in
          if is_empty value then None else Some (Some (key, value))
    end.

(** The assignments of a list of such lines, in order. *)
Definition assign_line (d : dict) (line : str) : dict :=
  match scalar_of_line line with
  | Some (Some (key, value)) => dict_set key (PStr value) d
  | _ => d
  end.

(** A value that needs no quotes: not empty, on one line, no whitespace at
    either end, not a block indicator, not held between two equal
    quotes. *)
Definition plain_value (v : str) : Prop :=
  v <> [] /\ contains nl v = false /\
  isspace (hd 0%N v) = false /\ isspace (last v 0%N) = false /\
  v <> [pipe] /\ v <> [gt] /\
  ~ (hd 0%N v = dquote /\ last v 0%N = dquote) /\
  ~ (hd 0%N v = squote /\ last v 0%N = squote).

(** The line that writes one binding of a flat mapping. *)
Definition header_line (kv : str * str) : str :=
  fst kv ++ py ": " ++ snd kv.

(** Membership in the two tables of analyze-compatibility.py, and the
    hook names that one item of the mapping contributes. *)
Definition in_standard (k : str) : bool := has_key k Compat.STANDARD_FIELDS.
Definition in_claude (k : str) : bool := has_key k Compat.CLAUDE_CODE_FIELDS.
Definition hooks_of (item : str * pyval) : list str :=
  if str_eqb (fst item) (py "hooks")
  then match snd item with PDict d => keys d | _ => [] end
  else [].

(** A character that is not a quote. *)
Definition not_quote (c : char) : bool :=
  negb (N.eqb c dquote) && negb (N.eqb c squote).

(** The line that writes one binding of a nested block, and the head line
    of the block. *)
Definition nested_line (kv : str * str) : str := py "  " ++ header_line kv.
Definition block_head (key : str) : str := key ++ [colon].

Ltac char_bools :=
  unfold is_key_char, is_alpha, isspace, underscore, dash, colon, nl, hash,
    dquote, squote, pipe, gt, tab, space in *;
  repeat match goal with
         | H : _ && _ = true |- _ => apply andb_true_iff in H; destruct H
         | H : _ || _ = true |- _ => apply orb_true_iff in H; destruct H
         | H : (_ <=? _)%N = true |- _ => apply N.leb_le in H
         | H : (_ =? _)%N = true |- _ => apply N.eqb_eq in H
         | H : _ || _ = false |- _ => apply orb_false_iff in H; destruct H
         | H : (_ =? _)%N = false |- _ => apply N.eqb_neq in H
         end.

(** ** Strings: basic facts *)

Lemma str_eqb_eq (a b : str) : str_eqb a b = true <-> a = b.
Proof.
  revert b; induction a as [|x a IH]; intros [|y b]; simpl;
    try (split; (reflexivity || discriminate)).
  rewrite andb_true_iff, N.eqb_eq, IH.
  split; [intros [-> ->]; reflexivity | intros H; injection H; auto].
Qed.

Lemma str_eqb_refl (a : str) : str_eqb a a = true.
Proof. apply str_eqb_eq; reflexivity. Qed.

Lemma str_eqb_neq (a b : str) : str_eqb a b = false <-> a <> b.
Proof.
  rewrite <- str_eqb_eq. destruct (str_eqb a b); split; intros H;
    try reflexivity; try discriminate; try (intros H'; discriminate).
  exfalso; apply H; reflexivity.
Qed.

Lemma startswith_firstn (s p : str) :
  startswith s p = true <-> firstn (length p) s = p.
Proof.
  revert s; induction p as [|a p IH]; intros s; simpl.
  - split; reflexivity.
  - destruct s as [|b s]; simpl.
    + split; discriminate.
    + rewrite andb_true_iff, N.eqb_eq, IH. split.
      * intros [-> ->]; reflexivity.
      * intros H; injection H; auto.
Qed.

Lemma startswith_false_firstn (s p : str) :
  startswith s p = false <-> firstn (length p) s <> p.
Proof.
  rewrite <- startswith_firstn. destruct (startswith s p); split; intros H;
    try reflexivity; try discriminate; try (intros H'; discriminate).
  exfalso; apply H; reflexivity.
Qed.

Lemma find_from_none (sub s : str) (pos : nat) :
  (forall k, startswith (skipn k s) sub = false) ->
  find_from sub s pos = None.
Proof.
  revert pos; induction s as [|c s IH]; intros pos H.
  - pose proof (H 0) as H0. simpl in *. rewrite H0. reflexivity.
  - pose proof (H 0) as H0. simpl in *. rewrite H0.
    apply IH. intros k. apply (H (S k)).
Qed.

Lemma find_from_some (sub s : str) (pos n : nat) :
  find_from sub s pos = Some n ->
  pos <= n /\ startswith (skipn (n - pos) s) sub = true /\
  forall k, k < n - pos -> startswith (skipn k s) sub = false.
Proof.
  revert pos; induction s as [|c s IH]; intros pos; simpl.
  - destruct (startswith [] sub) eqn:E; [|discriminate].
    intros H; injection H as <-. rewrite Nat.sub_diag. simpl.
    repeat split; auto. intros k Hk; lia.
  - destruct (startswith (c :: s) sub) eqn:E.
    + intros H; injection H as <-. rewrite Nat.sub_diag. simpl.
      repeat split; auto. intros k Hk; lia.
    + intros H. apply IH in H. destruct H as (Hle & Hat & Hmin).
      replace (n - pos) with (S (n - S pos)) by lia. simpl.
      repeat split; [lia | exact Hat |].
      intros [|k] Hk; simpl; [exact E | apply Hmin; lia].
Qed.

(** ** Fuel: a result, once reached, stays *)

Lemma list_loop_mono (f : nat) :
  forall f' lines i items r,
    list_loop f lines i items = Some r -> f <= f' ->
    list_loop f' lines i items = Some r.
Proof.
  induction f as [|f IH]; intros f' lines i items r H Hle; [discriminate|].
  destruct f' as [|f']; [lia|].
  cbn [list_loop nested_loop outer_loop] in *.
  destruct (nth_error lines i) as [line|]; [|exact H].
  destruct (startswith (strip line) [dash]); [|exact H].
  apply IH with (f' := f') in H; [exact H | lia].
Qed.

Lemma nested_body_mono (f f' : nat) lines i nested line r :
  nested_body f lines i nested line = Some r -> f <= f' ->
  nested_body f' lines i nested line = Some r.
Proof.
  unfold nested_body. intros H Hle.
  destruct (is_empty (strip line)); [exact H|].
  destruct (still_indented line); [|exact H].
  destruct (match_nested_key_value line) as [[k g]|]; [|exact H].
  destruct (startswith (strip g) [dash]); [|exact H].
  destruct (list_loop f lines i []) as [[items i']|] eqn:E; [|discriminate].
  rewrite (list_loop_mono f f' lines i [] _ E Hle). exact H.
Qed.

Lemma nested_loop_mono (f : nat) :
  forall f' lines i nested r,
    nested_loop f lines i nested = Some r -> f <= f' ->
    nested_loop f' lines i nested = Some r.
Proof.
  induction f as [|f IH]; intros f' lines i nested r H Hle; [discriminate|].
  destruct f' as [|f']; [lia|].
  cbn [list_loop nested_loop outer_loop] in *.
  destruct (nth_error lines i) as [line|]; [|exact H].
  destruct (nested_body f lines i nested line) as [c|] eqn:E; [|discriminate].
  rewrite (nested_body_mono f f' _ _ _ _ _ E) by lia.
  destruct c as [r'|[nested' i']]; [exact H|].
  apply IH with (f' := f') in H; [exact H | lia].
Qed.

Lemma outer_body_mono (f f' : nat) lines st line r :
  outer_body f lines st line = Some r -> f <= f' ->
  outer_body f' lines st line = Some r.
Proof.
  unfold outer_body. intros H Hle.
  destruct (is_empty (strip line) || startswith (strip line) [hash]);
    [exact H|].
  destruct (in_block st && (St.multiline_indent st <=? indent_of line));
    [exact H|].
  destruct (match_key_value (strip line)) as [[k g]|]; [|exact H].
  destruct (str_eqb (strip g) [pipe] || str_eqb (strip g) [gt]); [exact H|].
  destruct (is_empty (strip_quotes (strip g))); [|exact H].
  match type of H with
  | match nested_loop f ?l ?i ?n with _ => _ end = _ =>
      destruct (nested_loop f l i n) as [[nested i']|] eqn:E; [|discriminate];
      rewrite (nested_loop_mono f f' _ _ _ _ E Hle)
  end.
  exact H.
Qed.

Lemma outer_loop_mono (f : nat) :
  forall f' lines st r,
    outer_loop f lines st = Some r -> f <= f' ->
    outer_loop f' lines st = Some r.
Proof.
  induction f as [|f IH]; intros f' lines st r H Hle; [discriminate|].
  destruct f' as [|f']; [lia|].
  cbn [list_loop nested_loop outer_loop] in *.
  destruct (nth_error lines (St.i st)) as [line|]; [|exact H].
  destruct (outer_body f lines st line) as [st'|] eqn:E; [|discriminate].
  rewrite (outer_body_mono f f' _ _ _ _ E) by lia.
  apply IH with (f' := f') in H; [exact H | lia].
Qed.

Lemma parse_simple_yaml_mono (f f' : nat) (text : str) r :
  parse_simple_yaml f text = Some r -> f <= f' ->
  parse_simple_yaml f' text = Some r.
Proof.
  unfold parse_simple_yaml. intros H Hle.
  destruct (outer_loop f _ _) as [st|] eqn:E; [|discriminate].
  rewrite (outer_loop_mono f f' _ _ _ E Hle). exact H.
Qed.

Lemma parse_frontmatter_mono (f f' : nat) (content : str) r :
  parse_frontmatter f content = Some r -> f <= f' ->
  parse_frontmatter f' content = Some r.
Proof.
  unfold parse_frontmatter. intros H Hle.
  destruct (negb (startswith content (py "---"))); [exact H|].
  destruct (index content (py "---") 3) as [e|]; [|exact H].
  destruct (parse_simple_yaml f _) as [m|] eqn:E; [|discriminate].
  rewrite (parse_simple_yaml_mono f f' _ _ E Hle). exact H.
Qed.

(** ** The document splitter *)

(** C4: a text whose first three characters are not the delimiter is
    returned whole as the body, with an empty mapping, whatever the fuel. *)
Theorem parse_frontmatter_no_header (fuel : nat) (content : str) :
  firstn 3 content <> py "---" ->
  parse_frontmatter fuel content = Some ([], content).
Proof.
  intros H. unfold parse_frontmatter.
  apply (startswith_false_firstn content (py "---")) in H.
  rewrite H. reflexivity.
Qed.

Lemma parse_frontmatter_no_header_witness :
  parse_frontmatter 0 (py "# Title -- no header") =
  Some ([], py "# Title -- no header").
Proof.
  apply parse_frontmatter_no_header. vm_compute. discriminate.
Defined.

(** C5: a text that opens with the delimiter and has no other occurrence
    of it from offset 3 on is returned whole as the body, with an empty
    mapping: the [ValueError] of [index] is caught. *)
Theorem parse_frontmatter_unclosed (fuel : nat) (content : str) :
  firstn 3 content = py "---" ->
  (forall j, 3 <= j -> firstn 3 (skipn j content) <> py "---") ->
  parse_frontmatter fuel content = Some ([], content).
Proof.
  intros Hopen Hnone. unfold parse_frontmatter.
  apply (startswith_firstn content (py "---")) in Hopen. rewrite Hopen.
  simpl negb. cbv iota.
  assert (E : index content (py "---") 3 = None).
  { unfold index. destruct (3 <=? length content); [|reflexivity].
    apply find_from_none. intros k. rewrite skipn_skipn.
    apply (startswith_false_firstn _ (py "---")). apply Hnone. lia. }
  rewrite E. reflexivity.
Qed.

Lemma parse_frontmatter_unclosed_witness :
  parse_frontmatter 0 (doc [py "---"; py "name: x"]) =
  Some ([], doc [py "---"; py "name: x"]).
Proof.
  apply parse_frontmatter_unclosed.
  - reflexivity.
  - intros j Hj.
    do 3 (destruct j as [|j]; [lia|]).
    do 9 (destruct j as [|j]; [vm_compute; discriminate|]).
    destruct j; vm_compute; discriminate.
Defined.

(** ** Characters and stripping *)

Lemma alpha_not_space (c : char) : is_alpha c = true -> isspace c = false.
Proof.
  intros H. destruct (isspace c) eqn:E; [|reflexivity].
  exfalso. char_bools; lia.
Qed.

Lemma alpha_not_dash (c : char) : is_alpha c = true -> N.eqb dash c = false.
Proof.
  intros H. apply N.eqb_neq. intros E. char_bools; lia.
Qed.

Lemma alpha_not_hash (c : char) : is_alpha c = true -> N.eqb hash c = false.
Proof.
  intros H. apply N.eqb_neq. intros E. char_bools; lia.
Qed.

Lemma drop_while_app_last (p : char -> bool) (l : str) (a : char) :
  p a = false -> drop_while p (l ++ [a]) = drop_while p l ++ [a].
Proof.
  intros Ha. induction l as [|c l IH]; simpl.
  - rewrite Ha. reflexivity.
  - destruct (p c); [exact IH | reflexivity].
Qed.

Lemma lstrip_cons_nonspace (a : char) (s : str) :
  isspace a = false -> lstrip (a :: s) = a :: s.
Proof. intros H. unfold lstrip. simpl. rewrite H. reflexivity. Qed.

Lemma rstrip_cons_nonspace (a : char) (s : str) :
  isspace a = false -> rstrip (a :: s) = a :: rstrip s.
Proof.
  intros H. unfold rstrip. simpl rev.
  rewrite drop_while_app_last by exact H.
  rewrite rev_app_distr. reflexivity.
Qed.

Lemma rstrip_last_nonspace (s : str) (a : char) :
  isspace a = false -> rstrip (s ++ [a]) = s ++ [a].
Proof.
  intros H. unfold rstrip. rewrite rev_app_distr. simpl.
  rewrite H. simpl. rewrite rev_involutive. reflexivity.
Qed.

Lemma strip_of_lstrip (s t : str) (c : char) :
  lstrip s = c :: t -> isspace c = false -> strip s = c :: rstrip t.
Proof.
  intros E H. unfold strip. rewrite E. apply rstrip_cons_nonspace, H.
Qed.

Lemma match_key_value_head (s k g : str) :
  match_key_value s = Some (k, g) ->
  exists c t, s = c :: t /\ is_alpha c = true.
Proof.
  destruct s as [|c t]; simpl; [discriminate|].
  destruct (is_alpha c) eqn:E; [|discriminate].
  intros _. exists c, t. split; [reflexivity | exact E].
Qed.

(** ** The list branch of the nested block never ends *)

(** A line that matched the nested key pattern begins, once stripped, with
    a letter: the loop of lines 123-127 stops before its first pass. *)
Lemma list_loop_on_key_line (fuel : nat) lines i line k g :
  nth_error lines i = Some line ->
  match_nested_key_value line = Some (k, g) ->
  list_loop (S fuel) lines i [] = Some ([], i).
Proof.
  intros Hn Hm. cbn [list_loop]. rewrite Hn.
  unfold match_nested_key_value in Hm.
  destruct line as [|c0 rest]; [discriminate|].
  destruct (isspace c0); [|discriminate].
  destruct (match_key_value_head _ _ _ Hm) as (c & t & E & Ha).
  rewrite (strip_of_lstrip _ _ _ E (alpha_not_space _ Ha)).
  cbn [startswith]. rewrite (alpha_not_dash _ Ha). reflexivity.
Qed.

(** Lines 120-129: when the value of a nested key begins with a dash, the
    pass ends in [continue] with [i] unchanged, so every later pass reads
    the same line and takes the same branch. *)
Lemma nested_list_branch_diverges lines i line k g :
  nth_error lines i = Some line ->
  is_empty (strip line) = false ->
  still_indented line = true ->
  match_nested_key_value line = Some (k, g) ->
  startswith (strip g) [dash] = true ->
  forall fuel nested, nested_loop fuel lines i nested = None.
Proof.
  intros Hn Hne Hind Hm Hdash fuel.
  induction fuel as [|fuel IH]; intros nested; [reflexivity|].
  cbn [nested_loop]. rewrite Hn. unfold nested_body.
  rewrite Hne, Hind, Hm, Hdash.
  destruct fuel as [|fuel]; [reflexivity|].
  rewrite (list_loop_on_key_line fuel _ _ _ _ _ Hn Hm). apply IH.
Qed.

(** An empty-valued key: the body of the outer loop hands the following
    lines to the nested loop (lines 105-140). *)
Lemma outer_body_empty_value (fuel : nat) lines st line key g :
  is_empty (strip line) || startswith (strip line) [hash] = false ->
  in_block st = false ->
  match_key_value (strip line) = Some (key, g) ->
  str_eqb (strip g) [pipe] || str_eqb (strip g) [gt] = false ->
  is_empty (strip_quotes (strip g)) = true ->
  outer_body fuel lines st line =
  match nested_loop fuel lines (S (St.i st)) [] with
  | Some (nested, i') =>
      Some (St.mk (dict_set key (PDict nested) (St.result st)) i'
              (St.current_key st) (St.multiline_value st)
              (St.multiline_indent st))
  | None => None
  end.
Proof.
  intros H1 H2 H3 H4 H5. unfold outer_body.
  rewrite H1, H2. cbn [andb]. rewrite H3, H4, H5. reflexivity.
Qed.

(** C1 (the code at the failing input): under the empty-valued key [k],
    the line [  s: - a] sends the nested loop round for ever; no amount of
    fuel lets [parse_frontmatter] return. *)
Theorem parse_frontmatter_list_value_diverges (fuel : nat) :
  parse_frontmatter fuel doc_loop = None.
Proof.
  assert (E : parse_frontmatter fuel doc_loop =
              match outer_loop fuel [py "k:"; py "  s: - a"]
                      (St.mk [] 0 None [] 0) with
              | Some st =>
                  Some (if in_block st then close_block st else St.result st,
                        [])
              | None => None
              end).
  { unfold parse_frontmatter, parse_simple_yaml.
    change (startswith doc_loop (py "---")) with true.
    change (index doc_loop (py "---") 3) with (Some 16).
    cbv beta iota delta [negb].
    change (split nl (strip (slice doc_loop 3 16)))
      with [py "k:"; py "  s: - a"].
    change (strip (skipn (16 + 3) doc_loop)) with (@nil char).
    destruct (outer_loop fuel _ _); reflexivity. }
  rewrite E. clear E.
  destruct fuel as [|fuel]; [reflexivity|].
  cbn [outer_loop St.i]. change (nth_error _ 0) with (Some (py "k:")).
  cbv beta iota.
  rewrite (outer_body_empty_value fuel _ _ _ (py "k") [])
    by reflexivity.
  rewrite (nested_list_branch_diverges
             [py "k:"; py "  s: - a"] 1 (py "  s: - a") (py "s") (py "- a"))
    by reflexivity.
  reflexivity.
Qed.

(** ** Block scalars *)

(** [multiline_value] is appended to only when it is already non-empty
    (lines 66 and 72), and it starts empty: it stays empty. *)
Lemma in_block_empty (st : St.t) :
  St.multiline_value st = [] -> in_block st = false.
Proof.
  unfold in_block. intros ->. destruct (St.current_key st); [|reflexivity].
  apply andb_false_r.
Qed.

Lemma outer_body_multiline_value (fuel : nat) lines st line st' :
  St.multiline_value st = [] ->
  outer_body fuel lines st line = Some st' ->
  St.multiline_value st' = [].
Proof.
  intros Hmv. unfold outer_body. rewrite (in_block_empty st Hmv).
  cbn [andb].
  destruct (is_empty (strip line) || startswith (strip line) [hash]).
  { intros H; injection H as <-. exact Hmv. }
  destruct (match_key_value (strip line)) as [[k g]|].
  2:{ intros H; injection H as <-. exact Hmv. }
  destruct (str_eqb (strip g) [pipe] || str_eqb (strip g) [gt]).
  { intros H; injection H as <-. reflexivity. }
  destruct (is_empty (strip_quotes (strip g))).
  - destruct (nested_loop _ _ _ _) as [[n i']|]; [|discriminate].
    intros H; injection H as <-. exact Hmv.
  - intros H; injection H as <-. exact Hmv.
Qed.

Lemma outer_loop_multiline_value (fuel : nat) :
  forall lines st st',
    St.multiline_value st = [] ->
    outer_loop fuel lines st = Some st' ->
    St.multiline_value st' = [].
Proof.
  induction fuel as [|fuel IH]; intros lines st st' Hmv; [discriminate|].
  cbn [outer_loop]. destruct (nth_error lines (St.i st)) as [line|].
  - destruct (outer_body fuel lines st line) as [st1|] eqn:E; [|discriminate].
    apply IH. exact (outer_body_multiline_value _ _ _ _ _ Hmv E).
  - intros H; injection H as <-. exact Hmv.
Qed.

(** So the two places that store a block scalar (lines 80 and 147) are
    never reached: what [parse_simple_yaml] returns is the [result] of the
    last pass. *)
Lemma parse_simple_yaml_result (fuel : nat) (yaml_text : str) (r : dict) :
  parse_simple_yaml fuel yaml_text = Some r ->
  exists st,
    outer_loop fuel (split nl yaml_text) (St.mk [] 0 None [] 0) = Some st /\
    St.multiline_value st = [] /\ r = St.result st.
Proof.
  unfold parse_simple_yaml.
  destruct (outer_loop fuel _ _) as [st|] eqn:E; [|discriminate].
  pose proof (outer_loop_multiline_value fuel _ (St.mk [] 0 None [] 0) st
                eq_refl E) as Hmv.
  rewrite (in_block_empty st Hmv). intros H; injection H as <-.
  exists st. auto.
Qed.

(** A block indicator records the key and binds nothing. *)
Lemma outer_body_block_indicator (fuel : nat) lines st line key g :
  is_empty (strip line) || startswith (strip line) [hash] = false ->
  St.multiline_value st = [] ->
  match_key_value (strip line) = Some (key, g) ->
  strip g = [pipe] \/ strip g = [gt] ->
  outer_body fuel lines st line =
  Some (St.mk (St.result st) (S (St.i st)) (Some key) []
          (indent_of line + 2)).
Proof.
  intros H1 Hmv H3 H4. unfold outer_body.
  rewrite H1, (in_block_empty st Hmv). cbn [andb]. rewrite H3.
  destruct H4 as [-> | ->]; reflexivity.
Qed.

(** C3 (the code at the spec's own example): after [description: |] the
    list [multiline_value] is empty, hence false at line 72, so the two
    continuation lines are read as ordinary lines, match no key pattern
    and are skipped; [description] is bound to nothing. *)
Theorem parse_frontmatter_block_scalar_lost (fuel : nat) :
  parse_frontmatter (5 + fuel) doc_block =
    Some ([(py "name", PStr (py "x"))], py "body text") /\
  get_frontmatter_field (5 + fuel) doc_block (py "description") = Some None.
Proof.
  assert (E : parse_frontmatter (5 + fuel) doc_block =
              Some ([(py "name", PStr (py "x"))], py "body text")).
  { apply parse_frontmatter_mono with (f := 5); [vm_compute; reflexivity|lia]. }
  split; [exact E|]. unfold get_frontmatter_field. rewrite E. reflexivity.
Qed.

(** ** Quoted values *)

(** C6 (the code at the failing input): the value of [title] is two
    double quotes with nothing between them; they are stripped at lines
    99-100 before the emptiness test of line 105, so the key is taken for
    the head of a nested block and bound to an empty dict, not to the
    empty string. *)
Theorem parse_frontmatter_empty_quoted (fuel : nat) :
  parse_frontmatter (2 + fuel) doc_empty_quoted =
  Some ([(py "title", PDict [])], []).
Proof.
  apply parse_frontmatter_mono with (f := 2); [vm_compute; reflexivity|lia].
Qed.

(** ** Nested blocks *)

Lemma still_indented_spec (line : str) :
  still_indented line = true <->
  (exists t, line = space :: space :: t) \/ (exists t, line = tab :: t).
Proof.
  unfold still_indented. rewrite orb_true_iff.
  change (py "  ") with [space; space].
  split; intros [H | H]; [left | right | left | right].
  - destruct line as [|a [|b t]]; cbn [startswith] in H;
      try discriminate; [rewrite andb_false_r in H; discriminate|].
    apply andb_true_iff in H. destruct H as [Ha H].
    apply andb_true_iff in H. destruct H as [Hb _].
    apply N.eqb_eq in Ha, Hb. subst. exists t. reflexivity.
  - destruct line as [|a t]; cbn [startswith] in H; [discriminate|].
    apply andb_true_iff in H. destruct H as [Ha _].
    apply N.eqb_eq in Ha. subst. exists t. reflexivity.
  - destruct H as [t ->]. reflexivity.
  - destruct H as [t ->]. reflexivity.
Qed.

Lemma still_indented_head (line : str) :
  still_indented line = true ->
  exists c r, line = c :: r /\ isspace c = true.
Proof.
  intros H. apply still_indented_spec in H.
  destruct H as [[t ->] | [t ->]]; eexists; eexists; split; reflexivity.
Qed.

(** A follower whose first visible character is a dash matches no nested
    key pattern and is passed over (line 136). *)
Lemma nested_body_dash_line (fuel : nat) lines i nested line t :
  still_indented line = true ->
  lstrip line = dash :: t ->
  nested_body fuel lines i nested line = Some (Continue (nested, S i)).
Proof.
  intros Hind Hl. unfold nested_body.
  rewrite (strip_of_lstrip _ _ _ Hl eq_refl). cbn [is_empty]. rewrite Hind.
  destruct (still_indented_head _ Hind) as (c & r & -> & Hc).
  unfold match_nested_key_value. rewrite Hc, Hl. reflexivity.
Qed.

(** A nested key with no value is bound to the empty string (line 135);
    the block below it is not parsed as a value of that key. *)
Lemma nested_body_empty_value (fuel : nat) lines i nested line k g :
  still_indented line = true ->
  match_nested_key_value line = Some (k, g) ->
  strip g = [] ->
  nested_body fuel lines i nested line =
  Some (Continue (dict_set k (PStr []) nested, S i)).
Proof.
  intros Hind Hm Hg. unfold nested_body. rewrite Hind, Hm, Hg.
  destruct (still_indented_head _ Hind) as (c & r & -> & Hc).
  unfold match_nested_key_value in Hm. rewrite Hc in Hm.
  destruct (match_key_value_head _ _ _ Hm) as (a & t & E & Ha).
  rewrite (strip_of_lstrip _ _ _ E (alpha_not_space _ Ha)). reflexivity.
Qed.

Lemma doc_hooks_parse (fuel : nat) :
  parse_frontmatter (4 + fuel) doc_hooks =
  Some ([(py "hooks", PDict [(py "PreToolUse", PStr [])])], []).
Proof.
  apply parse_frontmatter_mono with (f := 4); [vm_compute; reflexivity|lia].
Qed.

(** C2 (as the code has it): for the hooks document the key [hooks] is
    bound to a one-level mapping in which [PreToolUse] is bound to the
    empty string.  An empty-valued top-level key is bound to the mapping
    that one run of the nested loop returns; in that loop a follower that
    begins with a dash is passed over, and an empty-valued key is bound to
    the empty string: there is no sequence and no recursion. *)
Theorem hooks_nested_block_is_flat (fuel : nat) :
  parse_frontmatter (4 + fuel) doc_hooks =
    Some ([(py "hooks", PDict [(py "PreToolUse", PStr [])])], []) /\
  (forall lines st line key g,
      is_empty (strip line) || startswith (strip line) [hash] = false ->
      in_block st = false ->
      match_key_value (strip line) = Some (key, g) ->
      strip g = [] ->
      outer_body fuel lines st line =
      match nested_loop fuel lines (S (St.i st)) [] with
      | Some (nested, i') =>
          Some (St.mk (dict_set key (PDict nested) (St.result st)) i'
                  (St.current_key st) (St.multiline_value st)
                  (St.multiline_indent st))
      | None => None
      end) /\
  (forall lines i nested line t,
      still_indented line = true ->
      lstrip line = dash :: t ->
      nested_body fuel lines i nested line = Some (Continue (nested, S i))) /\
  (forall lines i nested line k g,
      still_indented line = true ->
      match_nested_key_value line = Some (k, g) ->
      strip g = [] ->
      nested_body fuel lines i nested line =
      Some (Continue (dict_set k (PStr []) nested, S i))).
Proof.
  split; [apply doc_hooks_parse|]. split; [|split].
  - intros lines st line key g H1 H2 H3 H4.
    apply outer_body_empty_value with (g := g); auto; rewrite H4; reflexivity.
  - intros. eapply nested_body_dash_line; eassumption.
  - intros. eapply nested_body_empty_value; eassumption.
Qed.

Lemma hooks_nested_block_is_flat_witness :
  nested_body 0 [py "hooks:"; py "  PreToolUse:";
                 py "    - command: " ++ quoted (py "x")] 2
    [(py "PreToolUse", PStr [])] (py "    - command: " ++ quoted (py "x")) =
  Some (Continue ([(py "PreToolUse", PStr [])], 3)).
Proof.
  apply (proj1 (proj2 (proj2 (hooks_nested_block_is_flat 0))))
    with (t := py " command: " ++ quoted (py "x")); reflexivity.
Defined.

(** C2 as stated fails: whatever the fuel, the hooks document never
    yields a mapping in which [PreToolUse] is bound to a sequence. *)
Lemma hooks_not_a_sequence :
  ~ exists fuel m body d l,
      parse_frontmatter fuel doc_hooks = Some (m, body) /\
      dict_get (py "hooks") m = Some (PDict d) /\
      dict_get (py "PreToolUse") d = Some (PList l).
Proof.
  intros (fuel & m & body & d & l & H1 & H2 & H3).
  apply parse_frontmatter_mono with (f' := 4 + fuel) in H1; [|lia].
  rewrite doc_hooks_parse in H1. injection H1 as <- <-.
  vm_compute in H2. injection H2 as <-.
  vm_compute in H3. discriminate.
Qed.

(** ** Indentation *)

Lemma lstrip_app_nonspace (ws : str) (c : char) (t : str) :
  forallb isspace ws = true -> isspace c = false ->
  lstrip (ws ++ c :: t) = c :: t.
Proof.
  intros Hws Hc. induction ws as [|w ws IH]; simpl.
  - apply lstrip_cons_nonspace, Hc.
  - simpl in Hws. apply andb_true_iff in Hws. destruct Hws as [Hw Hws].
    unfold lstrip in *. simpl. rewrite Hw. apply IH, Hws.
Qed.

Lemma indent_of_count (ws : str) (c : char) (t : str) :
  forallb isspace ws = true -> isspace c = false ->
  indent_of (ws ++ c :: t) = length ws.
Proof.
  intros Hws Hc. unfold indent_of.
  rewrite (lstrip_app_nonspace ws c t Hws Hc), length_app. lia.
Qed.

Lemma nested_body_break (fuel : nat) lines i nested line :
  is_empty (strip line) = false ->
  (nested_body fuel lines i nested line = Some (Break (nested, i)) <->
   still_indented line = false).
Proof.
  intros Hne. unfold nested_body. rewrite Hne.
  destruct (still_indented line); split; intros H;
    try reflexivity; try discriminate.
  destruct (match_nested_key_value line) as [[k g]|]; [|discriminate].
  destruct (startswith (strip g) [dash]); [|discriminate].
  destruct (list_loop fuel lines i []) as [[items i']|]; discriminate.
Qed.

(** Whatever a line begins with, one pass of the nested loop over it
    comes to an end: no step of the body can fail. *)
Lemma nested_body_completes (fuel : nat) lines i nested line :
  nth_error lines i = Some line ->
  exists c, nested_body (S fuel) lines i nested line = Some c.
Proof.
  intros Hn. unfold nested_body.
  destruct (is_empty (strip line)); [eexists; reflexivity|].
  destruct (still_indented line); [|eexists; reflexivity].
  destruct (match_nested_key_value line) as [[k g]|] eqn:Em;
    [|eexists; reflexivity].
  destruct (startswith (strip g) [dash]); [|eexists; reflexivity].
  rewrite (list_loop_on_key_line fuel _ _ _ _ _ Hn Em).
  eexists; reflexivity.
Qed.

(** C7 (as the code has it): the leading whitespace of a line is counted
    one unit per character, tab or space, with no expansion, and that
    count sets the block threshold of line 94; a pass over a line comes to
    an end whatever mix of tabs and spaces it begins with; but whether a
    non-blank follower of an empty-valued key is still indented is decided
    by its first characters: it is when the line begins with two spaces or
    with a tab, and otherwise the nested loop stops at it. *)
Theorem nested_block_indentation (fuel : nat) lines i nested line :
  is_empty (strip line) = false ->
  (nested_body fuel lines i nested line = Some (Break (nested, i)) <->
   still_indented line = false) /\
  (still_indented line = true <->
   (exists t, line = space :: space :: t) \/ (exists t, line = tab :: t)) /\
  (forall ws c t,
      line = ws ++ c :: t -> forallb isspace ws = true -> isspace c = false ->
      indent_of line = length ws) /\
  (nth_error lines i = Some line ->
   exists c, nested_body (S fuel) lines i nested line = Some c).
Proof.
  intros Hne. split; [|split; [|split]].
  - apply nested_body_break, Hne.
  - apply still_indented_spec.
  - intros ws c t -> Hws Hc. apply indent_of_count; assumption.
  - apply nested_body_completes.
Qed.

Lemma nested_block_indentation_witness :
  nested_body 0 [py "k:"; py " sub: v"] 1 [] (py " sub: v") =
  Some (Break ([], 1)).
Proof.
  apply (proj2 (proj1 (nested_block_indentation
                         0 [py "k:"; py " sub: v"] 1 [] (py " sub: v")
                         eq_refl))).
  reflexivity.
Defined.

(** C7 as stated fails: a follower with one leading space, or with a space
    and a tab, has a positive leading-whitespace count, yet it is not
    taken into the block of the empty-valued key [k]; it ends up as a
    top-level key. *)
Lemma single_space_follower_not_nested :
  indent_of (py " sub: v") = 1 /\
  still_indented (py " sub: v") = false /\
  parse_simple_yaml 3 (doc [py "k:"; py " sub: v"]) =
    Some [(py "k", PDict []); (py "sub", PStr (py "v"))] /\
  indent_of ([space; tab] ++ py "sub: v") = 2 /\
  still_indented ([space; tab] ++ py "sub: v") = false /\
  parse_simple_yaml 3 (doc [py "k:"; [space; tab] ++ py "sub: v"]) =
    Some [(py "k", PDict []); (py "sub", PStr (py "v"))].
Proof. repeat split; vm_compute; reflexivity. Qed.

(** ** Single-line headers *)

Lemma split_no_sep (sep : char) (s : str) :
  contains sep s = false -> split sep s = [s].
Proof.
  unfold contains. induction s as [|c s IH]; cbn [existsb split];
    [reflexivity|].
  intros H. apply orb_false_iff in H. destruct H as [Hc Hs].
  rewrite N.eqb_sym, Hc, (IH Hs). reflexivity.
Qed.

Lemma span_all (p : char -> bool) (k : str) (d : char) (r : str) :
  forallb p k = true -> p d = false -> span p (k ++ d :: r) = (k, d :: r).
Proof.
  intros Hk Hd. induction k as [|c k IH]; simpl.
  - rewrite Hd. reflexivity.
  - simpl in Hk. apply andb_true_iff in Hk. destruct Hk as [Hc Hk].
    rewrite Hc, (IH Hk). reflexivity.
Qed.

Lemma span_whole (p : char -> bool) (s : str) :
  forallb p s = true -> span p s = (s, []).
Proof.
  induction s as [|c s IH]; simpl; [reflexivity|].
  intros H. apply andb_true_iff in H. destruct H as [Hc Hs].
  rewrite Hc, (IH Hs). reflexivity.
Qed.

Lemma rest_to_end_no_newline (s : str) :
  contains nl s = false -> rest_to_end s = Some s.
Proof.
  intros H. unfold rest_to_end. rewrite span_whole; [reflexivity|].
  unfold contains in H. induction s as [|c s IH]; cbn [forallb];
    [reflexivity|].
  cbn [existsb] in H. apply orb_false_iff in H. destruct H as [Hc Hs].
  rewrite N.eqb_sym, Hc. exact (IH Hs).
Qed.

Lemma strip_id (s : str) :
  s <> [] -> isspace (hd 0%N s) = false -> isspace (last s 0%N) = false ->
  strip s = s.
Proof.
  intros Hne Hh Hl. unfold strip.
  destruct s as [|c t]; [contradiction|]. simpl in Hh.
  rewrite (lstrip_cons_nonspace c t Hh).
  destruct (exists_last Hne) as (t' & l & E). rewrite E in *.
  rewrite last_last in Hl. apply rstrip_last_nonspace, Hl.
Qed.

Lemma startswith_one (s : str) (q : char) :
  startswith s [q] = true -> hd 0%N s = q.
Proof.
  destruct s as [|c t]; cbn [startswith]; [discriminate|].
  intros H. apply andb_true_iff in H. destruct H as [H _].
  apply N.eqb_eq in H. simpl. congruence.
Qed.

Lemma endswith_one (s : str) (q : char) :
  endswith s [q] = true -> last s 0%N = q.
Proof.
  unfold endswith. simpl rev. intros H. apply startswith_one in H.
  destruct s as [|c t] using rev_ind; [simpl in *; exact H|].
  rewrite last_last. rewrite rev_app_distr in H. exact H.
Qed.

(** The key pattern on [key: value]: the groups are the key and the
    value. *)
Lemma match_key_value_line (key value : str) :
  is_identifier key = true ->
  value <> [] -> contains nl value = false ->
  isspace (hd 0%N value) = false ->
  match_key_value (key ++ py ": " ++ value) = Some (key, value).
Proof.
  intros Hk Hne Hnl Hh.
  destruct key as [|c k]; [discriminate|]. simpl in Hk.
  apply andb_true_iff in Hk. destruct Hk as [Hc Hk].
  change (py ": ") with [colon; space].
  cbn [app match_key_value]. rewrite Hc.
  rewrite (span_all is_key_char k colon (space :: value) Hk eq_refl).
  rewrite lstrip_cons_nonspace by reflexivity.
  rewrite N.eqb_refl. cbn [ws_then].
  change (isspace space) with true. cbv iota.
  destruct value as [|v0 t]; [contradiction|]. simpl in Hh.
  cbn [ws_then]. rewrite Hh. rewrite (rest_to_end_no_newline _ Hnl).
  reflexivity.
Qed.

(** One pass of the outer loop over the only line of a header, when that
    line binds a scalar. *)
Lemma single_line_scalar (fuel : nat) (line key g v : str) :
  contains nl line = false ->
  is_empty (strip line) || startswith (strip line) [hash] = false ->
  match_key_value (strip line) = Some (key, g) ->
  str_eqb (strip g) [pipe] || str_eqb (strip g) [gt] = false ->
  strip_quotes (strip g) = v ->
  v <> [] ->
  parse_simple_yaml (2 + fuel) line = Some [(key, PStr v)].
Proof.
  intros Hnl H1 H2 H3 H4 H5. unfold parse_simple_yaml.
  rewrite (split_no_sep nl line Hnl).
  cbn [Nat.add outer_loop St.i nth_error].
  unfold outer_body. rewrite H1. cbn [in_block St.current_key andb].
  rewrite H2, H3, H4.
  destruct v as [|v0 t]; [contradiction|].
  cbn [is_empty St.i St.result dict_set nth_error in_block St.current_key].
  reflexivity.
Qed.

Lemma key_char_not_newline (c : char) :
  is_key_char c = true -> N.eqb nl c = false.
Proof.
  intros H. apply N.eqb_neq. intros E. char_bools; lia.
Qed.

Lemma identifier_no_newline (key : str) :
  is_identifier key = true -> contains nl key = false.
Proof.
  destruct key as [|c k]; [discriminate|]. cbn [is_identifier].
  intros H. apply andb_true_iff in H. destruct H as [Hc Hk].
  unfold contains. cbn [existsb].
  rewrite key_char_not_newline
    by (unfold is_key_char; rewrite Hc; reflexivity).
  cbn [orb]. induction k as [|d k IH]; [reflexivity|].
  cbn [forallb existsb] in *. apply andb_true_iff in Hk.
  destruct Hk as [Hd Hk]. rewrite (key_char_not_newline d Hd). exact (IH Hk).
Qed.

Lemma contains_app (c : char) (a b : str) :
  contains c (a ++ b) = contains c a || contains c b.
Proof. unfold contains. apply existsb_app. Qed.

Lemma last_app_nonempty (a b : str) (d : char) :
  b <> [] -> last (a ++ b) d = last b d.
Proof.
  intros Hb. destruct (exists_last Hb) as (t & l & ->).
  rewrite app_assoc, !last_last. reflexivity.
Qed.

(** A line that opens with an identifier and closes with a visible
    character is its own stripped form, and is not a comment. *)
Lemma strip_key_line (key rest : str) :
  is_identifier key = true -> rest <> [] ->
  isspace (last rest 0%N) = false ->
  strip (key ++ rest) = key ++ rest /\
  is_empty (key ++ rest) || startswith (key ++ rest) [hash] = false.
Proof.
  intros Hk Hr Hl. destruct key as [|c k]; [discriminate|].
  cbn [is_identifier] in Hk. apply andb_true_iff in Hk.
  destruct Hk as [Hc _]. split.
  - apply strip_id.
    + discriminate.
    + simpl. apply alpha_not_space, Hc.
    + rewrite last_app_nonempty by exact Hr. exact Hl.
  - cbn [app is_empty startswith orb].
    rewrite (alpha_not_hash c Hc). reflexivity.
Qed.

(** C8: for an identifier [key] and a non-empty [value] with no newline,
    no whitespace at either end, that is not a block indicator and is not
    held between two equal quote characters, the one-line header
    [key: value] parses to the mapping that binds [key] to [value]. *)
Theorem unquoted_scalar_round_trip (fuel : nat) (key value : str) :
  is_identifier key = true ->
  value <> [] ->
  contains nl value = false ->
  isspace (hd 0%N value) = false ->
  isspace (last value 0%N) = false ->
  value <> [pipe] -> value <> [gt] ->
  ~ (hd 0%N value = dquote /\ last value 0%N = dquote) ->
  ~ (hd 0%N value = squote /\ last value 0%N = squote) ->
  parse_simple_yaml (2 + fuel) (key ++ py ": " ++ value) =
  Some [(key, PStr value)].
Proof.
  intros Hk Hne Hnl Hh Hl Hp Hg Hdq Hsq.
  assert (Hrest : py ": " ++ value <> []) by discriminate.
  assert (Hlast : isspace (last (py ": " ++ value) 0%N) = false).
  { rewrite last_app_nonempty by exact Hne. exact Hl. }
  destruct (strip_key_line key _ Hk Hrest Hlast) as [Hs Hc].
  assert (Hv : strip value = value) by (apply strip_id; assumption).
  apply single_line_scalar with (g := value).
  - rewrite !contains_app, (identifier_no_newline key Hk), Hnl. reflexivity.
  - rewrite Hs. exact Hc.
  - rewrite Hs. apply match_key_value_line; assumption.
  - rewrite Hv. apply orb_false_iff. split; apply str_eqb_neq; assumption.
  - rewrite Hv. unfold strip_quotes.
    destruct (startswith value [dquote] && endswith value [dquote]) eqn:E1.
    { apply andb_true_iff in E1. destruct E1 as [A B]. exfalso. apply Hdq.
      split; [apply startswith_one, A | apply endswith_one, B]. }
    destruct (startswith value [squote] && endswith value [squote]) eqn:E2.
    { apply andb_true_iff in E2. destruct E2 as [A B]. exfalso. apply Hsq.
      split; [apply startswith_one, A | apply endswith_one, B]. }
    reflexivity.
  - exact Hne.
Qed.

Lemma unquoted_scalar_round_trip_witness :
  parse_simple_yaml 2 (py "allowed-tools" ++ py ": " ++ py "Bash(gh:*) Read") =
  Some [(py "allowed-tools", PStr (py "Bash(gh:*) Read"))].
Proof.
  apply (unquoted_scalar_round_trip 0);
    try reflexivity; try discriminate;
    intros [H _]; vm_compute in H; discriminate.
Defined.

(** The part of C6 that the code keeps: a non-empty text between two
    double quotes or two single quotes is bound as it stands, colons
    included. *)
Lemma quoted_scalar_bound (fuel : nat) (key inner : str) (q : char) :
  is_identifier key = true ->
  q = dquote \/ q = squote ->
  inner <> [] ->
  contains nl inner = false ->
  parse_simple_yaml (2 + fuel) (key ++ py ": " ++ [q] ++ inner ++ [q]) =
  Some [(key, PStr inner)].
Proof.
  intros Hk Hq Hne Hnl.
  assert (Hqs : isspace q = false) by (destruct Hq; subst; reflexivity).
  assert (Hqn : N.eqb nl q = false) by (destruct Hq; subst; reflexivity).
  set (value := [q] ++ inner ++ [q]).
  assert (Hvne : value <> []) by discriminate.
  assert (Hvl : last value 0%N = q).
  { unfold value. rewrite app_assoc. apply last_last. }
  assert (Hvnl : contains nl value = false).
  { unfold value. rewrite !contains_app, Hnl. unfold contains.
    cbn [existsb]. rewrite Hqn. reflexivity. }
  assert (Hrest : py ": " ++ value <> []) by discriminate.
  assert (Hlast : isspace (last (py ": " ++ value) 0%N) = false).
  { rewrite last_app_nonempty by exact Hvne. rewrite Hvl. exact Hqs. }
  destruct (strip_key_line key _ Hk Hrest Hlast) as [Hs Hc].
  assert (Hv : strip value = value).
  { apply strip_id; [exact Hvne | exact Hqs | rewrite Hvl; exact Hqs]. }
  apply single_line_scalar with (g := value).
  - rewrite !contains_app, (identifier_no_newline key Hk), Hvnl. reflexivity.
  - rewrite Hs. exact Hc.
  - rewrite Hs. apply match_key_value_line; assumption.
  - rewrite Hv. unfold value. destruct inner as [|i0 t]; [contradiction|].
    cbn [app str_eqb]. rewrite !andb_false_r. reflexivity.
  - rewrite Hv.
    assert (Hsl : slice_1_m1 value = inner).
    { unfold slice_1_m1, value. cbn [app skipn length].
      rewrite length_app. cbn [length].
      replace (S (length inner + 1) - 2) with (length inner + 0) by lia.
      rewrite firstn_app_2. cbn [firstn]. apply app_nil_r. }
    assert (Hsw : startswith value [q] = true).
    { unfold value. cbn [app startswith]. rewrite N.eqb_refl. reflexivity. }
    assert (Hew : endswith value [q] = true).
    { unfold endswith, value. rewrite app_assoc, rev_app_distr.
      cbn [rev app startswith]. rewrite N.eqb_refl. reflexivity. }
    unfold strip_quotes. destruct Hq as [-> | ->].
    + rewrite Hsw, Hew. exact Hsl.
    + replace (startswith value [dquote]) with false
        by (unfold value; reflexivity).
      cbn [andb]. rewrite Hsw, Hew. exact Hsl.
  - exact Hne.
Qed.

(** ** List items *)

Lemma partition_app (sep : char) (k v : str) :
  contains sep k = false -> partition sep (k ++ sep :: v) = (k, [sep], v).
Proof.
  unfold contains. induction k as [|c k IH]; cbn [app partition existsb].
  - rewrite N.eqb_refl. reflexivity.
  - intros H. apply orb_false_iff in H. destruct H as [Hc Hk].
    rewrite N.eqb_sym, Hc, (IH Hk). reflexivity.
Qed.

Lemma partition_found (sep : char) (s : str) :
  contains sep s = true ->
  exists k v, s = k ++ sep :: v /\ contains sep k = false.
Proof.
  unfold contains. induction s as [|c s IH]; cbn [existsb]; [discriminate|].
  destruct (N.eqb sep c) eqn:E.
  - intros _. apply N.eqb_eq in E. subst c. exists [], s. split; reflexivity.
  - cbn [orb]. intros H. destruct (IH H) as (k & v & -> & Hk).
    exists (c :: k), v. split; [reflexivity|].
    cbn [existsb]. rewrite E. exact Hk.
Qed.

Lemma partition_missing (sep : char) (s : str) :
  contains sep s = false -> partition sep s = (s, [], []).
Proof.
  unfold contains. induction s as [|c s IH]; cbn [existsb partition];
    [reflexivity|].
  intros H. apply orb_false_iff in H. destruct H as [Hc Hs].
  rewrite N.eqb_sym, Hc, (IH Hs). reflexivity.
Qed.

Lemma kv_of_spec (tok k v : str) :
  kv_of tok = Some (k, v) <-> is_kv_token tok k v.
Proof.
  unfold kv_of, is_kv_token. split.
  - destruct (contains colon tok) eqn:E.
    + destruct (partition_found colon tok E) as (k0 & v0 & -> & Hk).
      rewrite (partition_app colon k0 v0 Hk). cbn [is_empty orb].
      destruct v0 as [|c v0]; [discriminate|]. cbn [is_empty].
      intros H; injection H as <- <-. repeat split; [exact Hk|discriminate].
    + rewrite (partition_missing colon tok E). discriminate.
  - intros (-> & Hk & Hv). rewrite (partition_app colon k v Hk).
    destruct v; [contradiction | reflexivity].
Qed.

Lemma kv_of_no_colon (tok : str) : contains colon tok = false -> kv_of tok = None.
Proof.
  intros H. unfold kv_of. rewrite (partition_missing colon tok H). reflexivity.
Qed.

Lemma dict_get_set (k k' : str) (v : pyval) (d : dict) :
  dict_get k (dict_set k' v d) =
  if str_eqb k k' then Some v else dict_get k d.
Proof.
  induction d as [|[k0 v0] d IH]; cbn [dict_set dict_get].
  - reflexivity.
  - destruct (str_eqb k' k0) eqn:E; cbn [dict_get].
    + apply str_eqb_eq in E. subst k0. destruct (str_eqb k k'); reflexivity.
    + destruct (str_eqb k k0) eqn:E0.
      * apply str_eqb_eq in E0. subst k0.
        destruct (str_eqb k k') eqn:E1; [|reflexivity].
        apply str_eqb_eq in E1. subst k'. rewrite str_eqb_refl in E.
        discriminate.
      * exact IH.
Qed.

Lemma strip_visible (t : str) : visible t = true -> strip t = t.
Proof.
  intros H. destruct t as [|c t]; [reflexivity|].
  assert (Hin : forall x, In x (c :: t) -> isspace x = false).
  { intros x Hx. unfold visible in H. rewrite forallb_forall in H.
    apply negb_true_iff, H, Hx. }
  apply strip_id; [discriminate | apply Hin; left; reflexivity |].
  apply Hin. destruct (@exists_last _ (c :: t)) as (t' & l & E);
    [discriminate|].
  rewrite E, last_last. apply in_or_app. right. left. reflexivity.
Qed.

(** On a token without whitespace the two [strip]s of line 164 change
    nothing. *)
Lemma add_part_kv (d : dict) (tok : str) :
  visible tok = true ->
  add_part d tok =
  match kv_of tok with
  | Some (k, v) => dict_set k (PStr v) d
  | None => d
  end.
Proof.
  intros Hvis. unfold add_part, kv_of.
  destruct (contains colon tok) eqn:E.
  - destruct (partition_found colon tok E) as (k & v & -> & Hk).
    rewrite (partition_app colon k v Hk). cbn [is_empty orb].
    destruct v as [|c v]; [reflexivity|]. cbn [is_empty].
    unfold visible in Hvis. rewrite forallb_app in Hvis.
    apply andb_true_iff in Hvis. destruct Hvis as [Hvk Hvv].
    cbn [forallb] in Hvv. apply andb_true_iff in Hvv.
    destruct Hvv as [_ Hvv].
    rewrite (strip_visible k Hvk), (strip_visible (c :: v) Hvv). reflexivity.
  - rewrite (partition_missing colon tok E). reflexivity.
Qed.

Lemma split_ws_from_visible (s tok : str) :
  visible tok = true ->
  Forall (fun t => visible t = true) (split_ws_from tok s).
Proof.
  revert tok. induction s as [|c s IH]; intros tok Htok; cbn [split_ws_from].
  - destruct tok; cbn [is_empty]; auto.
  - destruct (isspace c) eqn:E.
    + destruct tok; cbn [is_empty]; [apply IH; reflexivity|].
      constructor; [exact Htok | apply IH; reflexivity].
    + apply IH. unfold visible in *. rewrite forallb_app, Htok.
      cbn [forallb]. rewrite E. reflexivity.
Qed.

Lemma split_ws_visible (s : str) :
  Forall (fun t => visible t = true) (split_ws s).
Proof. apply split_ws_from_visible. reflexivity. Qed.

Lemma split_ws_from_chars (s tok : str) :
  forall t c, In t (split_ws_from tok s) -> In c t -> In c tok \/ In c s.
Proof.
  revert tok. induction s as [|a s IH]; intros tok t c; cbn [split_ws_from].
  - destruct tok as [|x tok]; cbn [is_empty]; [intros []|].
    intros [<- | []] Hc. left. exact Hc.
  - destruct (isspace a).
    + destruct tok as [|x tok]; cbn [is_empty].
      * intros Ht Hc. destruct (IH [] t c Ht Hc) as [[] | H].
        right. right. exact H.
      * intros [<- | Ht] Hc; [left; exact Hc|].
        destruct (IH [] t c Ht Hc) as [[] | H]. right. right. exact H.
    + intros Ht Hc. destruct (IH (tok ++ [a]) t c Ht Hc) as [H | H].
      * apply in_app_or in H. destruct H as [H | [<- | []]];
          [left; exact H | right; left; reflexivity].
      * right. right. exact H.
Qed.

Lemma split_ws_no_colon (s : str) :
  contains colon s = false ->
  forall t, In t (split_ws s) -> contains colon t = false.
Proof.
  intros H t Ht. destruct (contains colon t) eqn:E; [|reflexivity].
  unfold contains in *. apply existsb_exists in E.
  destruct E as (c & Hc & Ec). apply N.eqb_eq in Ec. subst c.
  destruct (split_ws_from_chars s [] t colon Ht Hc) as [[] | Hin].
  assert (existsb (N.eqb colon) s = true).
  { apply existsb_exists. exists colon. split; [exact Hin|apply N.eqb_refl]. }
  congruence.
Qed.

(** [split] does not see the whitespace that [strip] removes. *)
Lemma split_ws_lstrip (s : str) : split_ws (lstrip s) = split_ws s.
Proof.
  unfold split_ws, lstrip. induction s as [|c s IH]; [reflexivity|].
  cbn [drop_while split_ws_from].
  destruct (isspace c) eqn:E; [exact IH|].
  cbn [split_ws_from]. rewrite E. reflexivity.
Qed.

Lemma split_ws_from_spaces (w tok : str) :
  forallb isspace w = true ->
  split_ws_from tok w = if is_empty tok then [] else [tok].
Proof.
  revert tok. induction w as [|c w IH]; intros tok H; [reflexivity|].
  cbn [forallb] in H. apply andb_true_iff in H. destruct H as [Hc Hw].
  cbn [split_ws_from]. rewrite Hc, (IH [] Hw).
  destruct tok; reflexivity.
Qed.

Lemma split_ws_from_app_spaces (s w tok : str) :
  forallb isspace w = true ->
  split_ws_from tok (s ++ w) = split_ws_from tok s.
Proof.
  intros Hw. revert tok. induction s as [|c s IH]; intros tok.
  - cbn [app]. rewrite (split_ws_from_spaces w tok Hw). reflexivity.
  - cbn [app split_ws_from]. rewrite !IH. reflexivity.
Qed.

Lemma drop_while_decompose (p : char -> bool) (l : str) :
  exists w, l = w ++ drop_while p l /\ forallb p w = true.
Proof.
  induction l as [|c l (w & E & Hw)]; cbn [drop_while].
  - exists []. split; reflexivity.
  - destruct (p c) eqn:Ec.
    + exists (c :: w). split; [cbn [app]; congruence|].
      cbn [forallb]. rewrite Ec. exact Hw.
    + exists []. split; reflexivity.
Qed.

Lemma rstrip_decompose (s : str) :
  exists w, s = rstrip s ++ w /\ forallb isspace w = true.
Proof.
  unfold rstrip.
  destruct (drop_while_decompose isspace (rev s)) as (w & E & Hw).
  exists (rev w). split.
  - rewrite <- rev_app_distr, <- E, rev_involutive. reflexivity.
  - rewrite forallb_forall in *. intros x Hx. apply Hw, in_rev, Hx.
Qed.

Lemma split_ws_strip (s : str) : split_ws (strip s) = split_ws s.
Proof.
  unfold strip. destruct (rstrip_decompose (lstrip s)) as (w & E & Hw).
  rewrite <- (split_ws_lstrip s). rewrite E at 2.
  unfold split_ws. rewrite (split_ws_from_app_spaces _ w [] Hw). reflexivity.
Qed.

(** The loop of lines 160-164 over tokens without whitespace: a key is
    bound to the value of its last token. *)
Lemma fold_add_part_get (toks : list str) :
  Forall (fun t => visible t = true) toks ->
  forall d k,
    dict_get k (fold_left add_part toks d) =
    match last_kv k toks with
    | Some v => Some (PStr v)
    | None => dict_get k d
    end.
Proof.
  induction 1 as [|tok toks Hv _ IH]; intros d k; [reflexivity|].
  cbn [fold_left last_kv]. rewrite IH.
  destruct (last_kv k toks); [reflexivity|].
  rewrite (add_part_kv d tok Hv).
  destruct (kv_of tok) as [[k' v]|]; [|reflexivity].
  rewrite dict_get_set. destruct (str_eqb k k'); reflexivity.
Qed.

Lemma fold_add_part_none (toks : list str) :
  (forall t, In t toks -> kv_of t = None) ->
  Forall (fun t => visible t = true) toks ->
  forall d, fold_left add_part toks d = d.
Proof.
  intros Hn Hv. induction Hv as [|tok toks Hv _ IH]; intros d; [reflexivity|].
  cbn [fold_left]. rewrite (add_part_kv d tok Hv).
  rewrite (Hn tok) by (left; reflexivity).
  apply IH. intros t Ht. apply Hn. right. exact Ht.
Qed.

Lemma fold_add_part_flat (toks : list str) :
  forall d,
    (forall k x, dict_get k d = Some x -> exists v, x = PStr v) ->
    forall k x, dict_get k (fold_left add_part toks d) = Some x ->
                exists v, x = PStr v.
Proof.
  induction toks as [|tok toks IH]; intros d Hd; [exact Hd|].
  cbn [fold_left]. apply IH. intros k x.
  unfold add_part. destruct (contains colon tok); [|apply Hd].
  destruct (partition colon tok) as [[key m] val].
  destruct (is_empty val); [apply Hd|].
  rewrite dict_get_set. destruct (str_eqb k (strip key)); [|apply Hd].
  intros H; injection H as <-. eexists; reflexivity.
Qed.

Lemma last_kv_spec (k v : str) (toks : list str) :
  last_kv k toks = Some v <->
  exists pre tok post,
    toks = pre ++ tok :: post /\ is_kv_token tok k v /\
    forall t v', In t post -> ~ is_kv_token t k v'.
Proof.
  induction toks as [|tok toks IH]; cbn [last_kv].
  - split; [discriminate|]. intros (pre & t & post & E & _).
    destruct pre; discriminate.
  - split.
    + destruct (last_kv k toks) as [v0|] eqn:E.
      * intros H; injection H as ->.
        destruct (proj1 IH eq_refl) as (pre & t & post & -> & Ht & Hp).
        exists (tok :: pre), t, post. auto.
      * destruct (kv_of tok) as [[k' v1]|] eqn:Ek; [|discriminate].
        destruct (str_eqb k k') eqn:Ekk; [|discriminate].
        apply str_eqb_eq in Ekk. subst k'. intros H; injection H as ->.
        exists [], tok, toks. split; [reflexivity|].
        split; [apply kv_of_spec, Ek|].
        intros t v' Ht Hkv.
        assert (last_kv k toks <> None); [|contradiction].
        clear IH Ek. induction toks as [|a toks IHt]; [destruct Ht|].
        cbn [last_kv]. destruct (last_kv k toks) eqn:E'; [discriminate|].
        destruct Ht as [-> | Ht].
        -- apply kv_of_spec in Hkv. rewrite Hkv, str_eqb_refl. discriminate.
        -- exfalso. apply IHt; auto.
    + intros (pre & t & post & E & Ht & Hp).
      destruct pre as [|a pre]; cbn [app] in E; injection E as -> ->.
      * assert (En : last_kv k post = None).
        { clear IH. induction post as [|a post IHp]; [reflexivity|].
          cbn [last_kv]. rewrite IHp
            by (intros; apply Hp; right; assumption).
          destruct (kv_of a) as [[k' v']|] eqn:Ea; [|reflexivity].
          destruct (str_eqb k k') eqn:Ekk; [|reflexivity].
          apply str_eqb_eq in Ekk. subst k'. apply kv_of_spec in Ea.
          exfalso. apply (Hp a v'); [left; reflexivity | exact Ea]. }
        rewrite En. apply kv_of_spec in Ht. rewrite Ht, str_eqb_refl.
        reflexivity.
      * assert (El : last_kv k (pre ++ t :: post) = Some v).
        { apply IH. exists pre, t, post. auto. }
        rewrite El. reflexivity.
Qed.

Lemma last_kv_found (k v tok : str) (toks : list str) :
  In tok toks -> is_kv_token tok k v -> last_kv k toks <> None.
Proof.
  intros Hin Hkv. apply kv_of_spec in Hkv.
  induction toks as [|a toks IH]; [destruct Hin|].
  cbn [last_kv]. destruct (last_kv k toks); [discriminate|].
  destruct Hin as [-> | Hin]; [|exfalso; apply IH; auto].
  rewrite Hkv, str_eqb_refl. discriminate.
Qed.

(** C9: when the item text has a whitespace-separated token [key:value]
    with a value, [parse_list_item] returns a flat record in which a key
    is bound to a value exactly when that value is the one of the last
    such token with that key; when it has none, the item is the stripped
    text. *)
Theorem parse_list_item_record (item_text : str) :
  ((exists tok k v, In tok (split_ws item_text) /\ is_kv_token tok k v) ->
   exists d,
     parse_list_item item_text = PDict d /\
     (forall k v,
         dict_get k d = Some (PStr v) <->
         exists pre tok post,
           split_ws item_text = pre ++ tok :: post /\ is_kv_token tok k v /\
           forall t v', In t post -> ~ is_kv_token t k v') /\
     (forall k x, dict_get k d = Some x -> exists v, x = PStr v)) /\
  ((forall tok k v, In tok (split_ws item_text) -> ~ is_kv_token tok k v) ->
   parse_list_item item_text = PStr (strip item_text)).
Proof.
  unfold parse_list_item. rewrite split_ws_strip.
  pose proof (split_ws_visible item_text) as Hvis.
  pose proof (fold_add_part_get _ Hvis []) as Hget. cbn [dict_get] in Hget.
  split.
  - intros (tok & k & v & Hin & Hkv).
    destruct (contains colon (strip item_text)) eqn:Ec.
    2:{ exfalso. rewrite <- split_ws_strip in Hin.
        pose proof (split_ws_no_colon _ Ec tok Hin) as Hn.
        apply kv_of_no_colon in Hn. apply kv_of_spec in Hkv. congruence. }
    pose proof (last_kv_found k v tok _ Hin Hkv) as Hl.
    destruct (fold_left add_part (split_ws item_text) []) as [|b d] eqn:Ef.
    { exfalso. specialize (Hget k). cbn [dict_get] in Hget.
      destruct (last_kv k (split_ws item_text)); [discriminate|].
      apply Hl. reflexivity. }
    cbn [is_empty]. exists (b :: d). split; [reflexivity|]. split.
    + intros k0 v0. rewrite Hget, <- last_kv_spec.
      destruct (last_kv k0 (split_ws item_text)) as [v1|].
      * split; intros H; injection H as ->; reflexivity.
      * split; discriminate.
    + rewrite <- Ef. apply fold_add_part_flat. intros k0 x. discriminate.
  - intros Hnone.
    destruct (contains colon (strip item_text)); [|reflexivity].
    rewrite fold_add_part_none; [reflexivity | | exact Hvis].
    intros t Ht. destruct (kv_of t) as [[k v]|] eqn:E; [|reflexivity].
    exfalso. apply (Hnone t k v Ht). apply kv_of_spec, E.
Qed.

Lemma parse_list_item_record_witness :
  exists d,
    parse_list_item (py "a:1 b:2 a:3") = PDict d /\
    dict_get (py "a") d = Some (PStr (py "3")).
Proof.
  destruct (proj1 (parse_list_item_record (py "a:1 b:2 a:3")))
    as (d & Hd & Hget & _).
  - exists (py "a:1"), (py "a"), (py "1"). split.
    + left. reflexivity.
    + apply kv_of_spec. reflexivity.
  - exists d. split; [exact Hd|]. apply Hget.
    exists [py "a:1"; py "b:2"], (py "a:3"), []. split; [reflexivity|].
    split; [apply kv_of_spec; reflexivity|]. intros t v' [].
Defined.

(** ** The shape of the result *)

Lemma all_values_set (p : pyval -> bool) (k : str) (v : pyval) (d : dict) :
  p v = true -> all_values p d = true -> all_values p (dict_set k v d) = true.
Proof.
  intros Hv. unfold all_values.
  induction d as [|[k0 v0] d IH]; cbn [dict_set forallb snd].
  - intros _. rewrite Hv. reflexivity.
  - intros H. apply andb_true_iff in H. destruct H as [H0 Hd].
    destruct (str_eqb k k0); cbn [forallb snd].
    + rewrite Hv, Hd. reflexivity.
    + rewrite H0, (IH Hd). reflexivity.
Qed.

(** A run of the nested loop that returns has bound strings only: the
    list branch never returns. *)
Lemma nested_loop_strings (fuel : nat) :
  forall lines i nested r i',
    all_values is_str nested = true ->
    nested_loop fuel lines i nested = Some (r, i') ->
    all_values is_str r = true.
Proof.
  induction fuel as [|fuel IH]; intros lines i nested r i' Hn H;
    [discriminate|].
  pose proof H as H0. cbn [nested_loop] in H.
  destruct (nth_error lines i) as [line|] eqn:El.
  2:{ injection H as <- <-. exact Hn. }
  unfold nested_body in H.
  destruct (is_empty (strip line)) eqn:Ee; [exact (IH _ _ _ _ _ Hn H)|].
  destruct (still_indented line) eqn:Ei.
  2:{ injection H as <- <-. exact Hn. }
  destruct (match_nested_key_value line) as [[k g]|] eqn:Em;
    [|exact (IH _ _ _ _ _ Hn H)].
  destruct (startswith (strip g) [dash]) eqn:Ed.
  - rewrite (nested_list_branch_diverges lines i line k g El Ee Ei Em Ed)
      in H0. discriminate.
  - refine (IH _ _ _ _ _ _ H). apply all_values_set; [reflexivity|exact Hn].
Qed.

Lemma outer_body_shape (fuel : nat) lines st line st' :
  all_values top_value_strict (St.result st) = true ->
  outer_body fuel lines st line = Some st' ->
  all_values top_value_strict (St.result st') = true.
Proof.
  intros Hr. unfold outer_body.
  destruct (is_empty (strip line) || startswith (strip line) [hash]).
  { intros H; injection H as <-. exact Hr. }
  destruct (in_block st && (St.multiline_indent st <=? indent_of line)).
  { intros H; injection H as <-. exact Hr. }
  set (st1 := if in_block st then _ else st).
  assert (Hr1 : all_values top_value_strict (St.result st1) = true).
  { unfold st1. destruct (in_block st); [|exact Hr].
    cbn [St.result]. unfold close_block.
    destruct (St.current_key st); [|exact Hr].
    apply all_values_set; [reflexivity | exact Hr]. }
  clearbody st1.
  destruct (match_key_value (strip line)) as [[k g]|].
  2:{ intros H; injection H as <-. exact Hr1. }
  destruct (str_eqb (strip g) [pipe] || str_eqb (strip g) [gt]).
  { intros H; injection H as <-. exact Hr1. }
  destruct (is_empty (strip_quotes (strip g))).
  - destruct (nested_loop fuel lines (S (St.i st1)) []) as [[n i']|] eqn:E;
      [|discriminate].
    intros H; injection H as <-. cbn [St.result].
    apply all_values_set; [|exact Hr1]. cbn [top_value_strict].
    exact (nested_loop_strings fuel _ _ [] _ _ eq_refl E).
  - intros H; injection H as <-. cbn [St.result].
    apply all_values_set; [reflexivity | exact Hr1].
Qed.

Lemma outer_loop_shape (fuel : nat) :
  forall lines st st',
    all_values top_value_strict (St.result st) = true ->
    outer_loop fuel lines st = Some st' ->
    all_values top_value_strict (St.result st') = true.
Proof.
  induction fuel as [|fuel IH]; intros lines st st' Hr; [discriminate|].
  cbn [outer_loop]. destruct (nth_error lines (St.i st)) as [line|].
  - destruct (outer_body fuel lines st line) as [st1|] eqn:E; [|discriminate].
    apply IH. exact (outer_body_shape _ _ _ _ _ Hr E).
  - intros H; injection H as <-. exact Hr.
Qed.

Lemma parse_simple_yaml_shape (fuel : nat) (yaml_text : str) (m : dict) :
  parse_simple_yaml fuel yaml_text = Some m ->
  all_values top_value_strict m = true.
Proof.
  intros H. destruct (parse_simple_yaml_result _ _ _ H) as (st & E & _ & ->).
  exact (outer_loop_shape fuel _ (St.mk [] 0 None [] 0) _ eq_refl E).
Qed.

Lemma strict_value_ok (v : pyval) :
  top_value_strict v = true -> top_value_ok v = true /\ dict_depth v <= 1.
Proof.
  destruct v as [s|d|l]; cbn [top_value_strict top_value_ok dict_depth];
    [auto | | discriminate].
  unfold all_values. induction d as [|[k x] d IH]; cbn [forallb snd fold_right].
  - auto.
  - intros H. apply andb_true_iff in H. destruct H as [Hx Hd].
    destruct (IH Hd) as [Hok Hdepth].
    destruct x; try discriminate. cbn [nested_value_ok dict_depth andb].
    split; [exact Hok | exact Hdepth].
Qed.

Lemma strict_mapping_ok (m : dict) :
  all_values top_value_strict m = true ->
  all_values top_value_ok m = true /\ dict_depth (PDict m) <= 2.
Proof.
  unfold all_values. cbn [dict_depth].
  induction m as [|[k x] m IH]; cbn [forallb snd fold_right]; [auto|].
  intros H. apply andb_true_iff in H. destruct H as [Hx Hm].
  destruct (IH Hm) as [Hok Hdepth].
  destruct (strict_value_ok x Hx) as [Hxo Hxd].
  rewrite Hxo, Hok. split; [reflexivity | lia].
Qed.

(** C10: whenever the parse returns, every top-level value of the mapping
    is a string or a mapping; every value inside such a nested mapping is
    a string or a list, never a mapping; so mappings nest at most two
    deep, however far the text is indented. *)
Theorem parse_frontmatter_shape (fuel : nat) (content : str) m body :
  parse_frontmatter fuel content = Some (m, body) ->
  all_values top_value_ok m = true /\ dict_depth (PDict m) <= 2.
Proof.
  unfold parse_frontmatter.
  destruct (negb (startswith content (py "---"))).
  { intros H; injection H as <- <-. split; [reflexivity | cbn; lia]. }
  destruct (index content (py "---") 3) as [e|].
  2:{ intros H; injection H as <- <-. split; [reflexivity | cbn; lia]. }
  destruct (parse_simple_yaml fuel _) as [fm|] eqn:E; [|discriminate].
  intros H; injection H as <- <-.
  apply strict_mapping_ok, (parse_simple_yaml_shape _ _ _ E).
Qed.

Lemma parse_frontmatter_shape_witness :
  all_values top_value_ok
    [(py "a", PDict [(py "b", PStr []); (py "c", PStr []);
                     (py "d", PStr (py "e"))])] = true /\
  dict_depth
    (PDict [(py "a", PDict [(py "b", PStr []); (py "c", PStr []);
                            (py "d", PStr (py "e"))])]) <= 2.
Proof.
  apply (parse_frontmatter_shape 5 doc_deep _ []). vm_compute. reflexivity.
Defined.

(** ** Two further properties *)

(** The example of the specification for quoted values: the header line
    [title: "a: b"] binds [title] to the text [a: b]. *)
Lemma quoted_scalar_bound_witness :
  parse_simple_yaml 2 (py "title" ++ py ": " ++ [dquote] ++ py "a: b" ++ [dquote]) =
  Some [(py "title", PStr (py "a: b"))].
Proof.
  apply (quoted_scalar_bound 0 (py "title") (py "a: b") dquote);
    try reflexivity; [left; reflexivity | discriminate].
Defined.

(** Under an empty-valued key, an indented line [key: - item] is one the
    parser never gets past: with any fuel, from any line list and any
    mapping built so far, the nested loop positioned on it returns
    nothing. *)
Theorem list_value_line_never_returns lines i line k g :
  nth_error lines i = Some line ->
  is_empty (strip line) = false ->
  still_indented line = true ->
  match_nested_key_value line = Some (k, g) ->
  startswith (strip g) [dash] = true ->
  forall fuel nested, nested_loop fuel lines i nested = None.
Proof. exact (nested_list_branch_diverges lines i line k g). Qed.

Lemma list_value_line_never_returns_witness :
  nested_loop 1000 [py "k:"; py "  s: - a"] 1 [] = None.
Proof.
  apply (list_value_line_never_returns
           [py "k:"; py "  s: - a"] 1 (py "  s: - a") (py "s") (py "- a"));
    reflexivity.
Defined.

(** ** Progress of the loops *)

Lemma list_loop_advances (fuel : nat) :
  forall lines i items r i',
    list_loop fuel lines i items = Some (r, i') -> i <= i'.
Proof.
  induction fuel as [|fuel IH]; intros lines i items r i'; [discriminate|].
  cbn [list_loop]. destruct (nth_error lines i) as [line|].
  - destruct (startswith (strip line) [dash]).
    + intros H. apply IH in H. lia.
    + intros H; injection H as _ <-. lia.
  - intros H; injection H as _ <-. lia.
Qed.

Lemma nested_loop_advances (fuel : nat) :
  forall lines i nested r i',
    nested_loop fuel lines i nested = Some (r, i') -> i <= i'.
Proof.
  induction fuel as [|fuel IH]; intros lines i nested r i'; [discriminate|].
  cbn [nested_loop]. destruct (nth_error lines i) as [line|].
  2:{ intros H; injection H as _ <-. lia. }
  unfold nested_body.
  destruct (is_empty (strip line)); [intros H; apply IH in H; lia|].
  destruct (still_indented line).
  2:{ intros H; injection H as _ <-. lia. }
  destruct (match_nested_key_value line) as [[k g]|];
    [|intros H; apply IH in H; lia].
  destruct (startswith (strip g) [dash]); [|intros H; apply IH in H; lia].
  destruct (list_loop fuel lines i []) as [[items j]|] eqn:E; [|discriminate].
  apply list_loop_advances in E. intros H. apply IH in H. lia.
Qed.

(** Every pass of the outer loop moves the cursor forward. *)
Lemma outer_body_advances (fuel : nat) lines st line st' :
  outer_body fuel lines st line = Some st' -> St.i st < St.i st'.
Proof.
  unfold outer_body.
  destruct (is_empty (strip line) || startswith (strip line) [hash]).
  { intros H; injection H as <-. cbn. lia. }
  destruct (in_block st && (St.multiline_indent st <=? indent_of line)).
  { intros H; injection H as <-. cbn. lia. }
  set (st1 := if in_block st then _ else st).
  assert (E1 : St.i st1 = St.i st) by (unfold st1; destruct (in_block st); reflexivity).
  clearbody st1.
  destruct (match_key_value (strip line)) as [[k g]|].
  2:{ intros H; injection H as <-. cbn. lia. }
  destruct (str_eqb (strip g) [pipe] || str_eqb (strip g) [gt]).
  { intros H; injection H as <-. cbn. lia. }
  destruct (is_empty (strip_quotes (strip g))).
  - destruct (nested_loop fuel lines (S (St.i st1)) []) as [[n j]|] eqn:E;
      [|discriminate].
    apply nested_loop_advances in E.
    intros H; injection H as <-. cbn. lia.
  - intros H; injection H as <-. cbn. lia.
Qed.

Lemma list_value_line_false (line k g : str) :
  list_value_line line = false ->
  still_indented line = true ->
  match_nested_key_value line = Some (k, g) ->
  startswith (strip g) [dash] = false.
Proof.
  unfold list_value_line. intros H Hi Hm. rewrite Hi, Hm in H. exact H.
Qed.

(** Without list-valued lines the nested loop returns, within one pass per
    remaining line and one more. *)
Lemma nested_loop_returns (fuel : nat) :
  forall lines i nested,
    (forall l, In l lines -> list_value_line l = false) ->
    length lines - i < fuel ->
    exists r i', nested_loop fuel lines i nested = Some (r, i').
Proof.
  induction fuel as [|fuel IH]; intros lines i nested Hl Hf; [lia|].
  cbn [nested_loop]. destruct (nth_error lines i) as [line|] eqn:En.
  2:{ eexists; eexists; reflexivity. }
  assert (Hi : i < length lines) by (apply nth_error_Some; congruence).
  assert (Hnext : length lines - S i < fuel) by lia.
  unfold nested_body.
  destruct (is_empty (strip line)); [apply IH; assumption|].
  destruct (still_indented line) eqn:Ei.
  2:{ eexists; eexists; reflexivity. }
  destruct (match_nested_key_value line) as [[k g]|] eqn:Em;
    [|apply IH; assumption].
  rewrite (list_value_line_false line k g
             (Hl line (nth_error_In _ _ En)) Ei Em).
  apply IH; assumption.
Qed.

Lemma outer_loop_returns (fuel : nat) :
  forall lines st,
    (forall l, In l lines -> list_value_line l = false) ->
    length lines - St.i st < fuel ->
    exists st', outer_loop fuel lines st = Some st'.
Proof.
  induction fuel as [|fuel IH]; intros lines st Hl Hf; [lia|].
  cbn [outer_loop]. destruct (nth_error lines (St.i st)) as [line|] eqn:En.
  2:{ eexists; reflexivity. }
  assert (Hi : St.i st < length lines) by (apply nth_error_Some; congruence).
  assert (Hb : exists st1, outer_body fuel lines st line = Some st1).
  { unfold outer_body.
    destruct (is_empty (strip line) || startswith (strip line) [hash]);
      [eexists; reflexivity|].
    destruct (in_block st && (St.multiline_indent st <=? indent_of line));
      [eexists; reflexivity|].
    set (st1 := if in_block st then _ else st).
    assert (E1 : St.i st1 = St.i st)
      by (unfold st1; destruct (in_block st); reflexivity).
    clearbody st1.
    destruct (match_key_value (strip line)) as [[k g]|];
      [|eexists; reflexivity].
    destruct (str_eqb (strip g) [pipe] || str_eqb (strip g) [gt]);
      [eexists; reflexivity|].
    destruct (is_empty (strip_quotes (strip g))); [|eexists; reflexivity].
    destruct (nested_loop_returns fuel lines (S (St.i st1)) [] Hl)
      as (r & j & E); [lia|].
    rewrite E. eexists; reflexivity. }
  destruct Hb as (st1 & E). rewrite E.
  apply IH; [exact Hl|]. apply outer_body_advances in E. lia.
Qed.

(** When no line of the header is list-valued, [parse_simple_yaml] returns
    as soon as the fuel exceeds the number of lines. *)
Theorem parse_simple_yaml_returns (fuel : nat) (yaml_text : str) :
  (forall l, In l (split nl yaml_text) -> list_value_line l = false) ->
  length (split nl yaml_text) < fuel ->
  exists m, parse_simple_yaml fuel yaml_text = Some m.
Proof.
  intros Hl Hf. unfold parse_simple_yaml.
  destruct (outer_loop_returns fuel (split nl yaml_text)
              (St.mk [] 0 None [] 0) Hl) as (st & E).
  { cbn [St.i]. lia. }
  rewrite E. eexists; reflexivity.
Qed.

Lemma parse_simple_yaml_returns_witness :
  exists m,
    parse_simple_yaml 4
      (doc [py "name: x"; py "hooks:"; py "  Stop: run - later"]) =
    Some m.
Proof.
  apply parse_simple_yaml_returns.
  - intros l Hl. vm_compute in Hl.
    destruct Hl as [<- | [<- | [<- | []]]]; vm_compute; reflexivity.
  - vm_compute. lia.
Defined.

(** ** Invariants of the mappings under construction *)

Section LoopInvariant.

Variable lines : list str.
Variables Inested Itop : dict -> Prop.

Hypothesis Inested_set :
  forall line k g nested,
    In line lines -> still_indented line = true ->
    match_nested_key_value line = Some (k, g) ->
    Inested nested ->
    Inested (dict_set k (PStr (strip_quotes (strip g))) nested).

Hypothesis Itop_scalar :
  forall line k g d,
    In line lines -> match_key_value (strip line) = Some (k, g) ->
    strip_quotes (strip g) <> [] -> Itop d ->
    Itop (dict_set k (PStr (strip_quotes (strip g))) d).

Hypothesis Itop_nested :
  forall line k g d nested,
    In line lines -> match_key_value (strip line) = Some (k, g) ->
    Inested nested -> Itop d ->
    Itop (dict_set k (PDict nested) d).

Lemma nested_loop_invariant (fuel : nat) :
  forall i nested r i',
    Inested nested ->
    nested_loop fuel lines i nested = Some (r, i') ->
    Inested r.
Proof.
  induction fuel as [|fuel IH]; intros i nested r i' Hn H; [discriminate|].
  pose proof H as H0. cbn [nested_loop] in H.
  destruct (nth_error lines i) as [line|] eqn:El.
  2:{ injection H as <- <-. exact Hn. }
  unfold nested_body in H.
  destruct (is_empty (strip line)) eqn:Ee; [exact (IH _ _ _ _ Hn H)|].
  destruct (still_indented line) eqn:Ei.
  2:{ injection H as <- <-. exact Hn. }
  destruct (match_nested_key_value line) as [[k g]|] eqn:Em;
    [|exact (IH _ _ _ _ Hn H)].
  destruct (startswith (strip g) [dash]) eqn:Ed.
  - rewrite (nested_list_branch_diverges lines i line k g El Ee Ei Em Ed)
      in H0. discriminate.
  - refine (IH _ _ _ _ _ H).
    apply (Inested_set line); auto. apply (nth_error_In _ _ El).
Qed.

Hypothesis Inested_nil : Inested [].

Lemma outer_body_invariant (fuel : nat) st line st' :
  In line lines ->
  St.multiline_value st = [] ->
  Itop (St.result st) ->
  outer_body fuel lines st line = Some st' ->
  Itop (St.result st').
Proof.
  intros Hin Hmv Hr. unfold outer_body.
  rewrite (in_block_empty st Hmv). cbn [andb].
  destruct (is_empty (strip line) || startswith (strip line) [hash]).
  { intros H; injection H as <-. exact Hr. }
  destruct (match_key_value (strip line)) as [[k g]|] eqn:Em.
  2:{ intros H; injection H as <-. exact Hr. }
  destruct (str_eqb (strip g) [pipe] || str_eqb (strip g) [gt]).
  { intros H; injection H as <-. exact Hr. }
  destruct (is_empty (strip_quotes (strip g))) eqn:Ev.
  - destruct (nested_loop fuel lines (S (St.i st)) []) as [[n i']|] eqn:E;
      [|discriminate].
    intros H; injection H as <-. cbn [St.result].
    apply (Itop_nested line k g); auto.
    exact (nested_loop_invariant fuel _ [] _ _ Inested_nil E).
  - intros H; injection H as <-. cbn [St.result].
    apply (Itop_scalar line); auto.
    intros E. rewrite E in Ev. discriminate.
Qed.

Lemma outer_loop_invariant (fuel : nat) :
  forall st st',
    St.multiline_value st = [] ->
    Itop (St.result st) ->
    outer_loop fuel lines st = Some st' ->
    Itop (St.result st').
Proof.
  induction fuel as [|fuel IH]; intros st st' Hmv Hr; [discriminate|].
  cbn [outer_loop]. destruct (nth_error lines (St.i st)) as [line|] eqn:El.
  - destruct (outer_body fuel lines st line) as [st1|] eqn:E;
      [|discriminate].
    apply IH.
    + exact (outer_body_multiline_value _ _ _ _ _ Hmv E).
    + exact (outer_body_invariant fuel st line st1
               (nth_error_In _ _ El) Hmv Hr E).
  - intros H; injection H as <-. exact Hr.
Qed.

End LoopInvariant.

(** What holds of the empty mapping and is kept by the three assignments
    [nested[nested_key] = nested_val], [result[key] = value] and
    [result[key] = nested] holds of the mapping returned. *)
Lemma parse_simple_yaml_invariant (Inested Itop : dict -> Prop)
    (fuel : nat) (yaml_text : str) (m : dict) :
  (forall line k g nested,
      In line (split nl yaml_text) -> still_indented line = true ->
      match_nested_key_value line = Some (k, g) -> Inested nested ->
      Inested (dict_set k (PStr (strip_quotes (strip g))) nested)) ->
  (forall line k g d,
      In line (split nl yaml_text) ->
      match_key_value (strip line) = Some (k, g) ->
      strip_quotes (strip g) <> [] -> Itop d ->
      Itop (dict_set k (PStr (strip_quotes (strip g))) d)) ->
  (forall line k g d nested,
      In line (split nl yaml_text) ->
      match_key_value (strip line) = Some (k, g) ->
      Inested nested -> Itop d -> Itop (dict_set k (PDict nested) d)) ->
  Inested [] -> Itop [] ->
  parse_simple_yaml fuel yaml_text = Some m -> Itop m.
Proof.
  intros H1 H2 H3 Hn Ht H.
  destruct (parse_simple_yaml_result _ _ _ H) as (st & E & _ & ->).
  exact (outer_loop_invariant (split nl yaml_text) Inested Itop
           H1 H2 H3 Hn fuel (St.mk [] 0 None [] 0) st eq_refl Ht E).
Qed.

(** ** Keys *)

Lemma dict_set_keys (k : str) (v : pyval) (d : dict) :
  keys (dict_set k v d) =
  if existsb (str_eqb k) (keys d) then keys d else keys d ++ [k].
Proof.
  unfold keys. induction d as [|[k0 v0] d IH]; [reflexivity|].
  cbn [dict_set map fst existsb].
  destruct (str_eqb k k0) eqn:E; cbn [orb map fst].
  - apply str_eqb_eq in E. subst k0. reflexivity.
  - rewrite IH. destruct (existsb (str_eqb k) (map fst d)); reflexivity.
Qed.

Lemma dict_set_keys_forall (P : str -> Prop) (k : str) (v : pyval) (d : dict) :
  P k -> Forall P (keys d) -> Forall P (keys (dict_set k v d)).
Proof.
  intros Hk Hd. rewrite dict_set_keys.
  destruct (existsb (str_eqb k) (keys d)); [exact Hd|].
  apply Forall_app. split; [exact Hd | constructor; [exact Hk | constructor]].
Qed.


Lemma dict_set_forall (P : str * pyval -> Prop) (k : str) (v : pyval)
    (d : dict) :
  P (k, v) -> Forall P d -> Forall P (dict_set k v d).
Proof.
  intros Hk Hd. induction Hd as [|[k0 v0] d H0 Hd IH]; cbn [dict_set].
  - repeat constructor. exact Hk.
  - destruct (str_eqb k k0); constructor; assumption.
Qed.

Lemma dict_get_in (k : str) (v : pyval) (d : dict) :
  dict_get k d = Some v -> In (k, v) d.
Proof.
  induction d as [|[k0 v0] d IH]; cbn [dict_get]; [discriminate|].
  destruct (str_eqb k k0) eqn:E.
  - apply str_eqb_eq in E. subst k0. intros H; injection H as ->.
    left. reflexivity.
  - intros H. right. exact (IH H).
Qed.

Lemma span_fst_forall (p : char -> bool) (s : str) :
  forallb p (fst (span p s)) = true.
Proof.
  induction s as [|c s IH]; cbn [span]; [reflexivity|].
  destruct (p c) eqn:E; [|reflexivity].
  destruct (span p s) as [a b]. cbn [fst forallb] in *. rewrite E. exact IH.
Qed.

(** Group 1 of the key pattern is an identifier. *)
Lemma match_key_value_identifier (s k g : str) :
  match_key_value s = Some (k, g) -> is_identifier k = true.
Proof.
  destruct s as [|c s1]; cbn [match_key_value]; [discriminate|].
  destruct (is_alpha c) eqn:Ec; [|discriminate].
  pose proof (span_fst_forall is_key_char s1) as Hs.
  destruct (span is_key_char s1) as [k0 s2]. cbn [fst] in Hs.
  destruct (lstrip s2) as [|d s3]; [discriminate|].
  destruct (N.eqb d colon); [|discriminate].
  destruct (ws_then rest_to_end s3); [|discriminate].
  cbn [option_map]. intros H; injection H as <- _.
  cbn [is_identifier]. rewrite Ec, Hs. reflexivity.
Qed.

Lemma match_nested_key_value_identifier (s k g : str) :
  match_nested_key_value s = Some (k, g) -> is_identifier k = true.
Proof.
  unfold match_nested_key_value. destruct s as [|c s]; [discriminate|].
  destruct (isspace c); [|discriminate]. apply match_key_value_identifier.
Qed.



(** Every key of the mapping returned, and of every nested mapping, is an
    identifier: a letter followed by letters, digits, hyphens and
    underscores. *)
Theorem parse_frontmatter_keys_identifiers (fuel : nat) (content : str)
    m body :
  parse_frontmatter fuel content = Some (m, body) ->
  Forall (fun k => is_identifier k = true) (keys m) /\
  forall k nested,
    dict_get k m = Some (PDict nested) ->
    Forall (fun k' => is_identifier k' = true) (keys nested).
Proof.
  set (P := fun k : str => is_identifier k = true).
  set (Inested := fun d : dict => Forall P (keys d)).
  set (Itop := fun d : dict =>
                 Forall P (keys d) /\
                 Forall (fun kv => forall n, snd kv = PDict n -> Inested n) d).
  assert (Hfin : forall d, Itop d ->
            Forall P (keys d) /\
            forall k n, dict_get k d = Some (PDict n) -> Forall P (keys n)).
  { intros d [Hd Hf]. split; [exact Hd|]. intros k n Hg.
    apply dict_get_in in Hg. rewrite Forall_forall in Hf.
    exact (Hf _ Hg n eq_refl). }
  assert (Hnil : Itop []) by (split; constructor).
  unfold parse_frontmatter.
  destruct (negb (startswith content (py "---"))).
  { intros H; injection H as <- <-. apply Hfin, Hnil. }
  destruct (index content (py "---") 3) as [e|].
  2:{ intros H; injection H as <- <-. apply Hfin, Hnil. }
  destruct (parse_simple_yaml fuel _) as [fm|] eqn:E; [|discriminate].
  intros H; injection H as <- <-. apply Hfin.
  apply (parse_simple_yaml_invariant Inested Itop fuel
           (strip (slice content 3 e)) fm); auto.
  - intros line k g nested _ _ Hm Hn.
    apply dict_set_keys_forall; [|exact Hn].
    exact (match_nested_key_value_identifier _ _ _ Hm).
  - intros line k g d _ Hm _ [Hd Hf]. split.
    + apply dict_set_keys_forall; [|exact Hd].
      exact (match_key_value_identifier _ _ _ Hm).
    + apply dict_set_forall; [|exact Hf]. intros n Hn. discriminate.
  - intros line k g d nested _ Hm Hn [Hd Hf]. split.
    + apply dict_set_keys_forall; [|exact Hd].
      exact (match_key_value_identifier _ _ _ Hm).
    + apply dict_set_forall; [|exact Hf].
      intros n Hn'. injection Hn' as <-. exact Hn.
  - constructor.
Qed.

Lemma parse_frontmatter_keys_identifiers_witness :
  Forall (fun k => is_identifier k = true)
    (keys [(py "allowed-tools", PStr (py "Read"))]) /\
  forall k nested,
    dict_get k [(py "allowed-tools", PStr (py "Read"))] =
    Some (PDict nested) ->
    Forall (fun k' => is_identifier k' = true) (keys nested).
Proof.
  apply (parse_frontmatter_keys_identifiers 4
           (doc [py "---"; py "allowed-tools: Read"; py "9lives: no";
                 py "---"]) _ []).
  vm_compute. reflexivity.
Defined.

(** ** Values *)

Lemma drop_while_incl (p : char -> bool) (s : str) : incl (drop_while p s) s.
Proof.
  induction s as [|c s IH]; cbn [drop_while]; [apply incl_refl|].
  destruct (p c); [apply incl_tl, IH | apply incl_refl].
Qed.

Lemma strip_incl (s : str) : incl (strip s) s.
Proof.
  unfold strip, rstrip, lstrip. intros c Hc.
  apply in_rev in Hc. apply drop_while_incl in Hc. apply in_rev in Hc.
  apply (drop_while_incl isspace s), Hc.
Qed.

Lemma firstn_incl (n : nat) (s : str) : incl (firstn n s) s.
Proof.
  intros c Hc. rewrite <- (firstn_skipn n s). apply in_or_app. left. exact Hc.
Qed.

Lemma skipn_incl (n : nat) (s : str) : incl (skipn n s) s.
Proof.
  intros c Hc. rewrite <- (firstn_skipn n s). apply in_or_app. right. exact Hc.
Qed.

Lemma strip_quotes_incl (v : str) : incl (strip_quotes v) v.
Proof.
  assert (H : incl (slice_1_m1 v) v).
  { unfold slice_1_m1. intros c Hc. apply firstn_incl in Hc.
    exact (skipn_incl 1 v c Hc). }
  unfold strip_quotes.
  destruct (startswith v [dquote] && endswith v [dquote]); [exact H|].
  destruct (startswith v [squote] && endswith v [squote]);
    [exact H | apply incl_refl].
Qed.

Lemma span_incl (p : char -> bool) (s : str) :
  incl (fst (span p s)) s /\ incl (snd (span p s)) s.
Proof.
  induction s as [|c s [IH1 IH2]]; cbn [span].
  - split; apply incl_refl.
  - destruct (p c); [|split; [intros x [] | apply incl_refl]].
    destruct (span p s) as [a b]. cbn [fst snd] in *. split.
    + intros x [<- | Hx]; [left; reflexivity | right; apply IH1, Hx].
    + apply incl_tl, IH2.
Qed.

Lemma rest_to_end_incl (s v : str) : rest_to_end s = Some v -> incl v s.
Proof.
  unfold rest_to_end. pose proof (proj1 (span_incl (fun c => negb (N.eqb c nl)) s)) as H.
  destruct (span _ s) as [a r]. cbn [fst] in H.
  destruct r as [|x [|y r]]; try discriminate;
    intros E; injection E as <-; exact H.
Qed.

Lemma ws_then_incl (tail : str -> option str) :
  (forall s v, tail s = Some v -> incl v s) ->
  forall s v, ws_then tail s = Some v -> incl v s.
Proof.
  intros Ht s. induction s as [|c s IH]; intros v; cbn [ws_then];
    [apply Ht|].
  destruct (isspace c); [|apply Ht].
  destruct (ws_then tail s) as [v0|] eqn:E; [|apply Ht].
  intros H; injection H as <-. apply incl_tl, IH. reflexivity.
Qed.

(** Group 2 of the key pattern is made of characters of the text. *)
Lemma match_key_value_incl (s k g : str) :
  match_key_value s = Some (k, g) -> incl g s.
Proof.
  destruct s as [|c s1]; cbn [match_key_value]; [discriminate|].
  destruct (is_alpha c); [|discriminate].
  pose proof (proj2 (span_incl is_key_char s1)) as Hs.
  destruct (span is_key_char s1) as [k0 s2]. cbn [snd] in Hs.
  pose proof (drop_while_incl isspace s2) as Hl. fold (lstrip s2) in Hl.
  destruct (lstrip s2) as [|d s3]; [discriminate|].
  destruct (N.eqb d colon); [|discriminate].
  destruct (ws_then rest_to_end s3) as [v|] eqn:E; [|discriminate].
  cbn [option_map]. intros H; injection H as _ <-.
  intros x Hx. right. apply Hs, Hl. right.
  exact (ws_then_incl rest_to_end rest_to_end_incl s3 v E x Hx).
Qed.

Lemma match_nested_key_value_incl (s k g : str) :
  match_nested_key_value s = Some (k, g) -> incl g s.
Proof.
  unfold match_nested_key_value. destruct s as [|c s]; [discriminate|].
  destruct (isspace c); [|discriminate].
  intros H x Hx. apply match_key_value_incl in H.
  exact (drop_while_incl isspace (c :: s) x (H x Hx)).
Qed.

Lemma contains_incl (c : char) (s t : str) :
  contains c s = false -> incl t s -> contains c t = false.
Proof.
  intros Hs Hi. destruct (contains c t) eqn:E; [|reflexivity].
  unfold contains in *. apply existsb_exists in E.
  destruct E as (x & Hx & Ex).
  assert (existsb (N.eqb c) s = true); [|congruence].
  apply existsb_exists. exists x. split; [apply Hi, Hx | exact Ex].
Qed.

(** The lines of a text hold no newline. *)
Lemma split_lines_no_newline (s l : str) :
  In l (split nl s) -> contains nl l = false.
Proof.
  revert l. induction s as [|c s IH]; intros l; cbn [split].
  - intros [<- | []]. reflexivity.
  - destruct (N.eqb c nl) eqn:E.
    + intros [<- | H]; [reflexivity | apply IH, H].
    + destruct (split nl s) as [|l0 ls].
      * intros [<- | []]. unfold contains. cbn [existsb].
        rewrite N.eqb_sym, E. reflexivity.
      * intros [<- | H].
        -- unfold contains. cbn [existsb]. rewrite N.eqb_sym, E.
           apply (IH l0). left. reflexivity.
        -- apply IH. right. exact H.
Qed.

(** The values of a mapping: what [parse_simple_yaml] can bind. *)
Lemma parse_simple_yaml_values (fuel : nat) (yaml_text : str) (m : dict) :
  parse_simple_yaml fuel yaml_text = Some m ->
  forall k v,
    dict_get k m = Some v ->
    match v with
    | PStr s => s <> [] /\ contains nl s = false
    | PDict nested =>
        forall k' v', dict_get k' nested = Some v' ->
                      exists s, v' = PStr s /\ contains nl s = false
    | PList _ => False
    end.
Proof.
  set (Pn := fun kv : str * pyval =>
               exists s, snd kv = PStr s /\ contains nl s = false).
  set (Inested := fun d : dict => Forall Pn d).
  set (Pt := fun kv : str * pyval =>
               match snd kv with
               | PStr s => s <> [] /\ contains nl s = false
               | PDict n => Inested n
               | PList _ => False
               end).
  set (Itop := fun d : dict => Forall Pt d).
  intros E k v Hg.
  assert (Hd : Itop m).
  { apply (parse_simple_yaml_invariant Inested Itop fuel yaml_text m);
      auto; try constructor.
    - intros line k0 g nested Hin _ Hm Hn.
      apply dict_set_forall; [|exact Hn].
      eexists. split; [reflexivity|].
      apply (contains_incl nl line);
        [exact (split_lines_no_newline _ _ Hin)|].
      intros x Hx. apply strip_quotes_incl, strip_incl in Hx.
      exact (match_nested_key_value_incl _ _ _ Hm x Hx).
    - intros line k0 g d Hin Hm Hne Hd.
      apply dict_set_forall; [|exact Hd]. split; [exact Hne|].
      apply (contains_incl nl line);
        [exact (split_lines_no_newline _ _ Hin)|].
      intros x Hx. apply strip_quotes_incl, strip_incl in Hx.
      apply strip_incl. exact (match_key_value_incl _ _ _ Hm x Hx).
    - intros line k0 g d nested _ _ Hn Hd.
      apply dict_set_forall; [exact Hn | exact Hd]. }
  apply dict_get_in in Hg.
  unfold Itop in Hd. rewrite Forall_forall in Hd.
  specialize (Hd _ Hg). unfold Pt in Hd. cbn [snd] in Hd.
  destruct v as [s|n|l]; [exact Hd | | exact Hd].
  intros k' v' Hg'. apply dict_get_in in Hg'.
  unfold Inested in Hd. rewrite Forall_forall in Hd.
  exact (Hd _ Hg').
Qed.

(** What the mapping returned can hold: under a top-level key, a
    non-empty string without a newline or a mapping; under a key of such a
    mapping, a string without a newline.  No list, no deeper mapping, no
    empty top-level string. *)
Theorem parse_frontmatter_values (fuel : nat) (content : str) m body :
  parse_frontmatter fuel content = Some (m, body) ->
  forall k v,
    dict_get k m = Some v ->
    match v with
    | PStr s => s <> [] /\ contains nl s = false
    | PDict nested =>
        forall k' v', dict_get k' nested = Some v' ->
                      exists s, v' = PStr s /\ contains nl s = false
    | PList _ => False
    end.
Proof.
  unfold parse_frontmatter.
  destruct (negb (startswith content (py "---"))).
  { intros H; injection H as <- <-. intros k v Hg. discriminate. }
  destruct (index content (py "---") 3) as [e|].
  2:{ intros H; injection H as <- <-. intros k v Hg. discriminate. }
  destruct (parse_simple_yaml fuel _) as [fm|] eqn:E; [|discriminate].
  intros H; injection H as <- <-.
  exact (parse_simple_yaml_values fuel _ fm E).
Qed.

Lemma parse_frontmatter_values_witness :
  exists s, PStr (py "Read") = PStr s /\ s <> [] /\ contains nl s = false.
Proof.
  exists (py "Read"). split; [reflexivity|].
  apply (parse_frontmatter_values 4
           (doc [py "---"; py "allowed-tools: Read"; py "hooks:"; py "---"])
           [(py "allowed-tools", PStr (py "Read")); (py "hooks", PDict [])]
           [] eq_refl (py "allowed-tools") (PStr (py "Read")) eq_refl).
Defined.

(** ** The splitter on a closed header *)

Lemma find_from_first (sub : str) (n : nat) :
  forall s pos,
    (forall j, j < n -> startswith (skipn j s) sub = false) ->
    startswith (skipn n s) sub = true ->
    find_from sub s pos = Some (pos + n).
Proof.
  induction n as [|n IH]; intros s pos Hbefore Hat.
  - cbn [skipn] in Hat. destruct s; cbn [find_from]; rewrite Hat;
      f_equal; lia.
  - destruct s as [|c s].
    + cbn [skipn] in Hat. pose proof (Hbefore 0 ltac:(lia)) as H0.
      cbn [skipn] in H0. congruence.
    + pose proof (Hbefore 0 ltac:(lia)) as H0. cbn [skipn] in H0.
      cbn [find_from]. rewrite H0.
      rewrite (IH s (S pos)); [f_equal; lia | | exact Hat].
      intros j Hj. apply (Hbefore (S j)). lia.
Qed.

Lemma closed_header_split (fuel : nat) (header rest : str) :
  (forall j, j < length header ->
             firstn 3 (skipn j (header ++ py "---" ++ rest)) <> py "---") ->
  parse_frontmatter fuel (py "---" ++ header ++ py "---" ++ rest) =
  match parse_simple_yaml fuel (strip header) with
  | Some m => Some (m, strip rest)
  | None => None
  end.
Proof.
  intros Hno. unfold parse_frontmatter.
  change (startswith (py "---" ++ header ++ py "---" ++ rest) (py "---"))
    with true.
  cbn [negb].
  assert (E : index (py "---" ++ header ++ py "---" ++ rest) (py "---") 3 =
              Some (3 + length header)).
  { unfold index.
    replace (3 <=? length (py "---" ++ header ++ py "---" ++ rest)) with true
      by (symmetry; apply Nat.leb_le; rewrite length_app; cbn; lia).
    change (skipn 3 (py "---" ++ header ++ py "---" ++ rest))
      with (header ++ py "---" ++ rest).
    apply find_from_first.
    - intros j Hj. apply (startswith_false_firstn _ (py "---")).
      apply Hno, Hj.
    - rewrite skipn_app, skipn_all, Nat.sub_diag. reflexivity. }
  rewrite E. unfold slice.
  change (skipn 3 (py "---" ++ header ++ py "---" ++ rest))
    with (header ++ py "---" ++ rest).
  replace (3 + length header - 3) with (length header + 0) by lia.
  rewrite firstn_app_2. cbn [firstn]. rewrite app_nil_r.
  replace (skipn (3 + length header + 3)
             (py "---" ++ header ++ py "---" ++ rest)) with rest.
  { reflexivity. }
  replace (3 + length header + 3) with (3 + (length header + 3)) by lia.
  change (skipn (3 + (length header + 3))
            (py "---" ++ header ++ py "---" ++ rest))
    with (skipn (length header + 3) (header ++ py "---" ++ rest)).
  rewrite skipn_app.
  replace (length header + 3 - length header) with 3 by lia.
  rewrite (skipn_all2 header) by lia. reflexivity.
Qed.

(** A document made of the delimiter, a header in which no occurrence of
    the delimiter begins, the delimiter again and any text: the mapping is
    the parse of the stripped header and the body is the stripped text,
    wherever on its line the closing delimiter stands; and
    [get_frontmatter_field] looks the field up in that mapping. *)
Theorem parse_frontmatter_closed (fuel : nat) (header rest field : str) :
  (forall j, j < length header ->
             firstn 3 (skipn j (header ++ py "---" ++ rest)) <> py "---") ->
  parse_frontmatter fuel (py "---" ++ header ++ py "---" ++ rest) =
    match parse_simple_yaml fuel (strip header) with
    | Some m => Some (m, strip rest)
    | None => None
    end /\
  get_frontmatter_field fuel (py "---" ++ header ++ py "---" ++ rest) field =
    match parse_simple_yaml fuel (strip header) with
    | Some m => Some (dict_get field m)
    | None => None
    end.
Proof.
  intros Hno. unfold get_frontmatter_field.
  rewrite (closed_header_split fuel header rest Hno).
  destruct (parse_simple_yaml fuel (strip header)); split; reflexivity.
Qed.

Lemma parse_frontmatter_closed_witness :
  parse_frontmatter 3
    (py "---" ++ ([nl] ++ py "title: a") ++ py "---" ++ (py "b" ++ [nl])) =
  match parse_simple_yaml 3 (strip ([nl] ++ py "title: a")) with
  | Some m => Some (m, strip (py "b" ++ [nl]))
  | None => None
  end.
Proof.
  apply (parse_frontmatter_closed 3 ([nl] ++ py "title: a")
           (py "b" ++ [nl]) []).
  intros j Hj.
  do 9 (destruct j as [|j]; [vm_compute; discriminate|]).
  vm_compute in Hj. lia.
Defined.

(** ** The body *)

Lemma drop_while_idempotent (p : char -> bool) (s : str) :
  drop_while p (drop_while p s) = drop_while p s.
Proof.
  induction s as [|c s IH]; [reflexivity|]. cbn [drop_while].
  destruct (p c) eqn:E; [exact IH|]. cbn [drop_while]. rewrite E. reflexivity.
Qed.

Lemma rstrip_idempotent (s : str) : rstrip (rstrip s) = rstrip s.
Proof.
  unfold rstrip. rewrite rev_involutive, drop_while_idempotent. reflexivity.
Qed.

Lemma lstrip_rstrip_lstrip (s : str) :
  lstrip (rstrip (lstrip s)) = rstrip (lstrip s).
Proof.
  assert (H : forall t, lstrip t = t -> lstrip (rstrip t) = rstrip t).
  { intros [|c t] Ht; [reflexivity|].
    unfold lstrip in Ht. cbn [drop_while] in Ht.
    destruct (isspace c) eqn:E.
    - exfalso. pose proof (drop_while_incl isspace t) as Hi.
      assert (Hlen : length (drop_while isspace t) <= length t).
      { clear. induction t as [|x t IH]; cbn [drop_while length]; [lia|].
        destruct (isspace x); cbn [length]; lia. }
      rewrite Ht in Hlen. cbn [length] in Hlen. lia.
    - rewrite (rstrip_cons_nonspace c t E).
      apply lstrip_cons_nonspace, E. }
  apply H. unfold lstrip. apply drop_while_idempotent.
Qed.

Lemma strip_idempotent (s : str) : strip (strip s) = strip s.
Proof.
  unfold strip. rewrite lstrip_rstrip_lstrip. apply rstrip_idempotent.
Qed.

(** A non-empty mapping comes with a stripped body: the body has no
    whitespace at either end. *)
Theorem parse_frontmatter_body_stripped (fuel : nat) (content : str) m body :
  parse_frontmatter fuel content = Some (m, body) ->
  m <> [] ->
  strip body = body.
Proof.
  unfold parse_frontmatter.
  destruct (negb (startswith content (py "---"))).
  { intros H; injection H as <- <-. contradiction. }
  destruct (index content (py "---") 3) as [e|].
  2:{ intros H; injection H as <- <-. contradiction. }
  destruct (parse_simple_yaml fuel _) as [fm|]; [|discriminate].
  intros H; injection H as <- <-. intros _. apply strip_idempotent.
Qed.

Lemma parse_frontmatter_body_stripped_witness :
  strip (py "body text") = py "body text".
Proof.
  apply (parse_frontmatter_body_stripped 5 doc_block
           [(py "name", PStr (py "x"))] (py "body text")).
  - vm_compute. reflexivity.
  - discriminate.
Defined.

(** ** Flat headers *)

Lemma outer_body_scalar_line (fuel : nat) lines st line e :
  St.multiline_value st = [] ->
  scalar_of_line line = Some e ->
  outer_body fuel lines st line =
  Some (St.mk
          match e with
          | Some (key, value) => dict_set key (PStr value) (St.result st)
          | None => St.result st
          end
          (S (St.i st)) (St.current_key st) (St.multiline_value st)
          (St.multiline_indent st)).
Proof.
  intros Hmv. unfold scalar_of_line, outer_body.
  rewrite (in_block_empty st Hmv). cbn [andb].
  destruct (is_empty (strip line) || startswith (strip line) [hash]).
  { intros H; injection H as <-. rewrite Hmv. reflexivity. }
  destruct (match_key_value (strip line)) as [[k g]|].
  2:{ intros H; injection H as <-. reflexivity. }
  destruct (str_eqb (strip g) [pipe] || str_eqb (strip g) [gt]);
    [discriminate|].
  destruct (is_empty (strip_quotes (strip g))); [discriminate|].
  intros H; injection H as <-. reflexivity.
Qed.

Lemma outer_loop_scalar_lines (fuel : nat) (post : list str) :
  forall pre st,
    St.i st = length pre ->
    St.multiline_value st = [] ->
    (forall l, In l post -> scalar_of_line l <> None) ->
    exists st',
      outer_loop (S (length post) + fuel) (pre ++ post) st = Some st' /\
      St.result st' = fold_left assign_line post (St.result st).
Proof.
  induction post as [|l post IH]; intros pre st Hi Hmv Hall.
  - cbn [length Nat.add outer_loop]. rewrite app_nil_r, Hi.
    rewrite (proj2 (nth_error_None pre (length pre))) by lia.
    exists st. split; reflexivity.
  - cbn [length Nat.add outer_loop]. rewrite Hi.
    rewrite nth_error_app2, Nat.sub_diag by lia. cbn [nth_error].
    destruct (scalar_of_line l) as [e|] eqn:E;
      [|exfalso; apply (Hall l); [left; reflexivity | exact E]].
    rewrite (outer_body_scalar_line _ _ st l e Hmv E).
    replace (pre ++ l :: post) with ((pre ++ [l]) ++ post)
      by (rewrite <- app_assoc; reflexivity).
    destruct (IH (pre ++ [l])
                (St.mk
                   match e with
                   | Some (key, value) =>
                       dict_set key (PStr value) (St.result st)
                   | None => St.result st
                   end
                   (S (St.i st)) (St.current_key st) (St.multiline_value st)
                   (St.multiline_indent st)))
      as (st' & Hrun & Hres).
    + cbn [St.i]. rewrite length_app, Hi. cbn [length]. lia.
    + exact Hmv.
    + intros l' Hl'. apply Hall. right. exact Hl'.
    + exists st'. split; [exact Hrun|]. rewrite Hres. cbn [St.result fold_left].
      f_equal. unfold assign_line. rewrite E.
      destruct e as [[k v]|]; reflexivity.
Qed.

Lemma flat_header_fold (fuel : nat) (yaml_text : str) :
  (forall l, In l (split nl yaml_text) -> scalar_of_line l <> None) ->
  parse_simple_yaml (S (length (split nl yaml_text)) + fuel) yaml_text =
  Some (fold_left assign_line (split nl yaml_text) []).
Proof.
  intros Hall. unfold parse_simple_yaml.
  destruct (outer_loop_scalar_lines fuel (split nl yaml_text) []
              (St.mk [] 0 None [] 0) eq_refl eq_refl Hall)
    as (st & Hrun & Hres).
  cbn [app] in Hrun. rewrite Hrun.
  assert (Hmv : St.multiline_value st = []).
  { exact (outer_loop_multiline_value _ _ (St.mk [] 0 None [] 0) st
             eq_refl Hrun). }
  rewrite (in_block_empty st Hmv), Hres. reflexivity.
Qed.

(** A header with no block indicator and no empty-valued key is parsed
    line by line: once the fuel exceeds the number of lines, the mapping
    returned is the result of the assignments of its key lines in order;
    blank lines, comments and lines that match no key pattern add
    nothing. *)
Theorem parse_simple_yaml_flat (fuel : nat) (yaml_text : str) :
  (forall l, In l (split nl yaml_text) -> scalar_of_line l <> None) ->
  length (split nl yaml_text) < fuel ->
  parse_simple_yaml fuel yaml_text =
  Some (fold_left assign_line (split nl yaml_text) []).
Proof.
  intros Hall Hf.
  replace fuel
    with (S (length (split nl yaml_text)) +
          (fuel - S (length (split nl yaml_text)))) by lia.
  apply flat_header_fold, Hall.
Qed.

Lemma parse_simple_yaml_flat_witness :
  parse_simple_yaml 5
    (doc [py "# skill"; py "name: x"; py "not a key line"; py "name: y"]) =
  Some [(py "name", PStr (py "y"))].
Proof.
  apply (parse_simple_yaml_flat 5
           (doc [py "# skill"; py "name: x"; py "not a key line";
                 py "name: y"])).
  - intros l Hl. vm_compute in Hl.
    destruct Hl as [<- | [<- | [<- | [<- | []]]]]; vm_compute; discriminate.
  - vm_compute. lia.
Defined.

Lemma fold_assign_no_key_line (ls : list str) :
  (forall l, In l ls -> scalar_of_line l = Some None) ->
  forall d, fold_left assign_line ls d = d.
Proof.
  induction ls as [|l ls IH]; intros Hall d; [reflexivity|].
  cbn [fold_left].
  replace (assign_line d l) with d
    by (unfold assign_line; rewrite (Hall l) by (left; reflexivity);
        reflexivity).
  apply IH. intros l' Hl'. apply Hall. right. exact Hl'.
Qed.

(** A header in which every line is blank, a comment, or matches no key
    pattern yields the empty mapping. *)
Theorem parse_simple_yaml_no_key_line (fuel : nat) (yaml_text : str) :
  (forall l, In l (split nl yaml_text) -> scalar_of_line l = Some None) ->
  parse_simple_yaml (S (length (split nl yaml_text)) + fuel) yaml_text =
  Some [].
Proof.
  intros Hall. rewrite flat_header_fold.
  - rewrite (fold_assign_no_key_line _ Hall). reflexivity.
  - intros l Hl. rewrite (Hall l Hl). discriminate.
Qed.

Lemma parse_simple_yaml_no_key_line_witness :
  parse_simple_yaml 4 (doc [py "# only a comment"; []; py "- item"]) =
  Some [].
Proof.
  apply (parse_simple_yaml_no_key_line 0
           (doc [py "# only a comment"; []; py "- item"])).
  intros l Hl. vm_compute in Hl.
  destruct Hl as [<- | [<- | [<- | []]]]; vm_compute; reflexivity.
Defined.

(** ** Writing a flat mapping and reading it back *)

Lemma scalar_of_header_line (k v : str) :
  is_identifier k = true -> plain_value v ->
  scalar_of_line (header_line (k, v)) = Some (Some (k, v)).
Proof.
  intros Hk (Hne & Hnl & Hh & Hl & Hp & Hg & Hdq & Hsq).
  unfold header_line, scalar_of_line. cbn [fst snd].
  assert (Hrest : py ": " ++ v <> []) by discriminate.
  assert (Hlast : isspace (last (py ": " ++ v) 0%N) = false).
  { rewrite last_app_nonempty by exact Hne. exact Hl. }
  destruct (strip_key_line k _ Hk Hrest Hlast) as [Hs Hc].
  rewrite Hs, Hc, (match_key_value_line k v Hk Hne Hnl Hh).
  rewrite (strip_id v Hne Hh Hl).
  replace (str_eqb v [pipe] || str_eqb v [gt]) with false
    by (symmetry; apply orb_false_iff; split; apply str_eqb_neq; assumption).
  assert (Hq : strip_quotes v = v).
  { unfold strip_quotes.
    destruct (startswith v [dquote] && endswith v [dquote]) eqn:E1.
    { apply andb_true_iff in E1. destruct E1 as [A B]. exfalso. apply Hdq.
      split; [apply startswith_one, A | apply endswith_one, B]. }
    destruct (startswith v [squote] && endswith v [squote]) eqn:E2.
    { apply andb_true_iff in E2. destruct E2 as [A B]. exfalso. apply Hsq.
      split; [apply startswith_one, A | apply endswith_one, B]. }
    reflexivity. }
  rewrite Hq. destruct v; [contradiction | reflexivity].
Qed.

Lemma header_line_no_newline (k v : str) :
  is_identifier k = true -> contains nl v = false ->
  contains nl (header_line (k, v)) = false.
Proof.
  intros Hk Hv. unfold header_line. cbn [fst snd].
  rewrite !contains_app, (identifier_no_newline k Hk), Hv. reflexivity.
Qed.

Lemma split_app_sep (sep : char) (p t : str) :
  contains sep p = false -> split sep (p ++ sep :: t) = p :: split sep t.
Proof.
  unfold contains. induction p as [|c p IH]; cbn [app split existsb].
  - rewrite N.eqb_refl. reflexivity.
  - intros H. apply orb_false_iff in H. destruct H as [Hc Hp].
    rewrite N.eqb_sym, Hc, (IH Hp). reflexivity.
Qed.

(** Joining lines with newlines and splitting again gives the lines. *)
Lemma split_join (ls : list str) :
  ls <> [] -> (forall l, In l ls -> contains nl l = false) ->
  split nl (join [nl] ls) = ls.
Proof.
  induction ls as [|l ls IH]; intros Hne Hall; [contradiction|].
  destruct ls as [|l' ls].
  - cbn [join]. apply split_no_sep, Hall. left. reflexivity.
  - change (join [nl] (l :: l' :: ls)) with (l ++ nl :: join [nl] (l' :: ls)).
    rewrite split_app_sep by (apply Hall; left; reflexivity).
    rewrite IH; [reflexivity | discriminate |].
    intros x Hx. apply Hall. right. exact Hx.
Qed.

Lemma dict_set_fresh (k : str) (v : pyval) (d : dict) :
  ~ In k (keys d) -> dict_set k v d = d ++ [(k, v)].
Proof.
  induction d as [|[k0 v0] d IH]; intros Hk; [reflexivity|].
  cbn [dict_set app]. destruct (str_eqb k k0) eqn:E.
  - apply str_eqb_eq in E. subst k0. exfalso. apply Hk. left. reflexivity.
  - rewrite IH; [reflexivity|]. intros H. apply Hk. right. exact H.
Qed.

Lemma fold_assign_header_lines (kvs : list (str * str)) :
  (forall kv, In kv kvs ->
              is_identifier (fst kv) = true /\ plain_value (snd kv)) ->
  forall d,
    NoDup (keys d ++ map fst kvs) ->
    fold_left assign_line (map header_line kvs) d =
    d ++ map (fun kv => (fst kv, PStr (snd kv))) kvs.
Proof.
  induction kvs as [|[k v] kvs IH]; intros Hall d Hnd.
  - cbn. rewrite app_nil_r. reflexivity.
  - cbn [map fold_left fst snd].
    destruct (Hall (k, v) (or_introl eq_refl)) as [Hk Hv]. cbn [fst snd] in *.
    replace (assign_line d (header_line (k, v))) with (d ++ [(k, PStr v)]).
    + rewrite IH.
      * rewrite <- app_assoc. reflexivity.
      * intros kv Hkv. apply Hall. right. exact Hkv.
      * unfold keys in *. rewrite map_app, <- app_assoc. exact Hnd.
    + unfold assign_line. rewrite (scalar_of_header_line k v Hk Hv).
      symmetry. apply dict_set_fresh.
      apply NoDup_remove_2 in Hnd. intros H. apply Hnd.
      apply in_or_app. left. exact H.
Qed.

Lemma flat_lines_round_trip (fuel : nat) (kvs : list (str * str)) :
  (forall kv, In kv kvs ->
              is_identifier (fst kv) = true /\ plain_value (snd kv)) ->
  NoDup (map fst kvs) ->
  parse_simple_yaml (2 + length kvs + fuel)
    (join [nl] (map header_line kvs)) =
  Some (map (fun kv => (fst kv, PStr (snd kv))) kvs).
Proof.
  intros Hall Hnd. destruct kvs as [|kv kvs].
  { apply parse_simple_yaml_mono with (f := 2); [reflexivity | lia]. }
  set (ls := map header_line (kv :: kvs)).
  assert (Hls : split nl (join [nl] ls) = ls).
  { apply split_join; [discriminate|]. intros l Hl.
    apply in_map_iff in Hl. destruct Hl as ([k v] & <- & Hin).
    destruct (Hall _ Hin) as [Hk Hv]. cbn [fst snd] in *.
    apply header_line_no_newline; [exact Hk | apply Hv]. }
  apply parse_simple_yaml_mono with (f := S (length ls) + 0).
  - rewrite <- Hls at 1. rewrite flat_header_fold.
    + rewrite Hls. unfold ls.
      rewrite (fold_assign_header_lines (kv :: kvs) Hall []); [reflexivity|].
      exact Hnd.
    + rewrite Hls. intros l Hl. apply in_map_iff in Hl.
      destruct Hl as ([k v] & <- & Hin). destruct (Hall _ Hin) as [Hk Hv].
      cbn [fst snd] in *. rewrite (scalar_of_header_line k v Hk Hv).
      discriminate.
  - unfold ls. rewrite length_map. lia.
Qed.

(** Round trip of a flat mapping: write each binding of distinct
    identifier keys to plain values as a line [key: value], join the lines
    with newlines, parse with fuel above the number of bindings plus one:
    the mapping returned is the one written, in the same order. *)
Theorem flat_mapping_round_trip (fuel : nat) (kvs : list (str * str)) :
  (forall kv, In kv kvs ->
              is_identifier (fst kv) = true /\ plain_value (snd kv)) ->
  NoDup (map fst kvs) ->
  1 + length kvs < fuel ->
  parse_simple_yaml fuel (join [nl] (map header_line kvs)) =
  Some (map (fun kv => (fst kv, PStr (snd kv))) kvs).
Proof.
  intros Hall Hnd Hf.
  replace fuel with (2 + length kvs + (fuel - (2 + length kvs))) by lia.
  apply flat_lines_round_trip; assumption.
Qed.

Lemma flat_mapping_round_trip_witness :
  parse_simple_yaml 4
    (join [nl] (map header_line
                  [(py "name", py "test-skill"); (py "license", py "MIT")])) =
  Some [(py "name", PStr (py "test-skill")); (py "license", PStr (py "MIT"))].
Proof.
  apply (flat_mapping_round_trip 4
           [(py "name", py "test-skill"); (py "license", py "MIT")]).
  - intros kv [<- | [<- | []]]; (split; [reflexivity|]);
      repeat split; try discriminate; try reflexivity;
      intros [H _]; vm_compute in H; discriminate.
  - repeat constructor; cbn; intros H;
      repeat (destruct H as [H | H]; try discriminate); exact H.
  - cbn. lia.
Defined.

(** ** Writing a document and reading a field back *)

Lemma rstrip_app_space (s : str) (c : char) :
  isspace c = true -> rstrip (s ++ [c]) = rstrip s.
Proof.
  intros H. unfold rstrip. rewrite rev_app_distr. cbn [rev app drop_while].
  rewrite H. reflexivity.
Qed.

Lemma hd_join (l : str) (ls : list str) (d : char) :
  l <> [] -> hd d (join [nl] (l :: ls)) = hd d l.
Proof.
  intros Hl. destruct l as [|c l]; [contradiction|].
  destruct ls; reflexivity.
Qed.

Lemma join_nonempty (l : str) (ls : list str) :
  l <> [] -> join [nl] (l :: ls) <> [].
Proof.
  intros Hl. destruct l as [|c l]; [contradiction|].
  destruct ls; discriminate.
Qed.

Lemma last_join (ls : list str) (d : char) :
  ls <> [] -> (forall l, In l ls -> l <> []) ->
  last (join [nl] ls) d = last (last ls []) d.
Proof.
  induction ls as [|l ls IH]; intros Hne Hall; [contradiction|].
  destruct ls as [|l' ls]; [reflexivity|].
  change (join [nl] (l :: l' :: ls)) with (l ++ nl :: join [nl] (l' :: ls)).
  change (last (l :: l' :: ls) []) with (last (l' :: ls) []).
  rewrite <- IH; [|discriminate | intros x Hx; apply Hall; right; exact Hx].
  change (l ++ nl :: join [nl] (l' :: ls))
    with (l ++ [nl] ++ join [nl] (l' :: ls)).
  rewrite app_assoc. apply last_app_nonempty.
  apply join_nonempty, Hall. right. left. reflexivity.
Qed.

Lemma header_line_ends (k v : str) :
  is_identifier k = true -> plain_value v ->
  header_line (k, v) <> [] /\
  isspace (hd 0%N (header_line (k, v))) = false /\
  isspace (last (header_line (k, v)) 0%N) = false.
Proof.
  intros Hk (Hne & _ & _ & Hl & _). unfold header_line. cbn [fst snd].
  destruct k as [|c k]; [discriminate|]. cbn [is_identifier] in Hk.
  apply andb_true_iff in Hk. destruct Hk as [Hc _].
  split; [discriminate|]. split.
  - cbn. apply alpha_not_space, Hc.
  - rewrite last_app_nonempty by discriminate.
    rewrite last_app_nonempty by exact Hne. exact Hl.
Qed.

(** The header between its two newlines is its own stripped form. *)
Lemma strip_header_lines (kvs : list (str * str)) :
  (forall kv, In kv kvs ->
              is_identifier (fst kv) = true /\ plain_value (snd kv)) ->
  strip ([nl] ++ join [nl] (map header_line kvs) ++ [nl]) =
  join [nl] (map header_line kvs).
Proof.
  intros Hall. destruct kvs as [|[k v] kvs]; [reflexivity|].
  set (j := join [nl] (map header_line ((k, v) :: kvs))).
  assert (Hends : forall kv, In kv ((k, v) :: kvs) ->
            header_line kv <> [] /\
            isspace (hd 0%N (header_line kv)) = false /\
            isspace (last (header_line kv) 0%N) = false).
  { intros [k' v'] Hin. destruct (Hall _ Hin) as [Hk Hv].
    apply header_line_ends; assumption. }
  assert (Hj : j <> []).
  { apply join_nonempty, (Hends (k, v)). left. reflexivity. }
  assert (Hh : isspace (hd 0%N j) = false).
  { unfold j. cbn [map]. rewrite hd_join; apply (Hends (k, v));
      left; reflexivity. }
  assert (Hl : isspace (last j 0%N) = false).
  { unfold j. rewrite last_join.
    - assert (Hlast : In (last (map header_line ((k, v) :: kvs)) [])
                        (map header_line ((k, v) :: kvs))).
      { destruct (@exists_last _ (map header_line ((k, v) :: kvs)))
          as (t & x & E); [discriminate|].
        rewrite E, last_last. apply in_or_app. right. left. reflexivity. }
      apply in_map_iff in Hlast. destruct Hlast as (kv & <- & Hin).
      apply (Hends kv Hin).
    - discriminate.
    - intros l Hin. apply in_map_iff in Hin.
      destruct Hin as (kv & <- & Hin). apply (Hends kv Hin). }
  unfold strip. cbn [app]. unfold lstrip. cbn [drop_while].
  change (isspace nl) with true. cbv iota.
  destruct j as [|c j'] eqn:Ej; [contradiction|].
  cbn [app drop_while]. cbn [hd] in Hh. rewrite Hh.
  change (c :: j' ++ [nl]) with ((c :: j') ++ [nl]).
  rewrite rstrip_app_space by reflexivity.
  destruct (@exists_last _ (c :: j')) as (t & x & E); [discriminate|].
  rewrite E in *. rewrite last_last in Hl. apply rstrip_last_nonspace, Hl.
Qed.

Lemma dict_get_written (kvs : list (str * str)) (k v : str) :
  NoDup (map fst kvs) -> In (k, v) kvs ->
  dict_get k (map (fun kv => (fst kv, PStr (snd kv))) kvs) = Some (PStr v).
Proof.
  induction kvs as [|[k0 v0] kvs IH]; intros Hnd Hin; [destruct Hin|].
  cbn [map fst snd dict_get]. cbn [map fst] in Hnd.
  apply NoDup_cons_iff in Hnd. destruct Hnd as [Hk0 Hnd].
  destruct Hin as [E | Hin].
  - injection E as -> ->. rewrite str_eqb_refl. reflexivity.
  - destruct (str_eqb k k0) eqn:E; [|exact (IH Hnd Hin)].
    apply str_eqb_eq in E. subst k0. exfalso. apply Hk0.
    apply in_map_iff. exists (k, v). split; [reflexivity | exact Hin].
Qed.

(** Round trip of a document: the delimiter, a newline, the lines
    [key: value] of a flat mapping with distinct identifier keys and plain
    values, a newline, the delimiter and any text.  When no occurrence of
    the delimiter begins inside the header, [parse_frontmatter] returns the
    mapping written and the stripped text, and [get_frontmatter_field]
    returns every value written. *)
Theorem document_round_trip (fuel : nat) (kvs : list (str * str))
    (rest : str) :
  (forall kv, In kv kvs ->
              is_identifier (fst kv) = true /\ plain_value (snd kv)) ->
  NoDup (map fst kvs) ->
  (forall j,
      j < length ([nl] ++ join [nl] (map header_line kvs) ++ [nl]) ->
      firstn 3
        (skipn j (([nl] ++ join [nl] (map header_line kvs) ++ [nl]) ++
                  py "---" ++ rest)) <> py "---") ->
  parse_frontmatter (2 + length kvs + fuel)
    (py "---" ++ ([nl] ++ join [nl] (map header_line kvs) ++ [nl]) ++
     py "---" ++ rest) =
    Some (map (fun kv => (fst kv, PStr (snd kv))) kvs, strip rest) /\
  forall k v,
    In (k, v) kvs ->
    get_frontmatter_field (2 + length kvs + fuel)
      (py "---" ++ ([nl] ++ join [nl] (map header_line kvs) ++ [nl]) ++
       py "---" ++ rest) k = Some (Some (PStr v)).
Proof.
  intros Hall Hnd Hno.
  assert (E : parse_frontmatter (2 + length kvs + fuel)
                (py "---" ++ ([nl] ++ join [nl] (map header_line kvs) ++ [nl])
                 ++ py "---" ++ rest) =
              Some (map (fun kv => (fst kv, PStr (snd kv))) kvs, strip rest)).
  { rewrite (closed_header_split _ _ rest Hno).
    rewrite (strip_header_lines kvs Hall).
    rewrite (flat_lines_round_trip fuel kvs Hall Hnd). reflexivity. }
  split; [exact E|]. intros k v Hin. unfold get_frontmatter_field.
  rewrite E. rewrite (dict_get_written kvs k v Hnd Hin). reflexivity.
Qed.

Lemma document_round_trip_witness :
  get_frontmatter_field 3
    (py "---" ++ ([nl] ++ join [nl] (map header_line [(py "name", py "x")])
                  ++ [nl]) ++ py "---" ++ ([nl] ++ py "Body"))
    (py "name") = Some (Some (PStr (py "x"))).
Proof.
  refine (proj2 (document_round_trip 0 [(py "name", py "x")]
                   ([nl] ++ py "Body") _ _ _) (py "name") (py "x") _).
  - intros kv [<- | []]. split; [reflexivity|].
    repeat split; try discriminate; try reflexivity;
      intros [H _]; vm_compute in H; discriminate.
  - repeat constructor. intros [].
  - intros j Hj.
    do 9 (destruct j as [|j]; [vm_compute; discriminate|]).
    vm_compute in Hj. lia.
  - left. reflexivity.
Defined.

(** ** analyze-structure.py: names *)

Import Structure.

Lemma span_app (p : char -> bool) (s : str) :
  s = fst (span p s) ++ snd (span p s).
Proof.
  induction s as [|c s IH]; cbn [span]; [reflexivity|].
  destruct (p c); [|reflexivity].
  destruct (span p s) as [a b]. cbn [fst snd app] in *. congruence.
Qed.

(** The pattern of line 35 accepts a skill name, with or without one
    newline after it, and nothing else. *)
Lemma match_name_spec (s : str) :
  match_name s = true <->
  exists body, skill_name body = true /\ (s = body \/ s = body ++ [nl]).
Proof.
  split.
  - destruct s as [|c r]; cbn [match_name]; [discriminate|].
    intros H. apply andb_true_iff in H. destruct H as [Hc H].
    pose proof (span_app is_name_char r) as Er.
    pose proof (span_fst_forall is_name_char r) as Ha.
    destruct (span is_name_char r) as [a rest]. cbn [fst snd] in *.
    exists (c :: a). split; [cbn [skill_name]; rewrite Hc, Ha; reflexivity|].
    destruct rest as [|x [|y rest]]; [| |discriminate].
    + left. rewrite app_nil_r in Er. congruence.
    + right. apply N.eqb_eq in H. subst x. cbn [app]. congruence.
  - intros (body & Hb & Hs). destruct body as [|c r]; [discriminate|].
    cbn [skill_name] in Hb. apply andb_true_iff in Hb.
    destruct Hb as [Hc Hr]. destruct Hs as [-> | ->].
    + cbn [match_name]. rewrite Hc, (span_whole is_name_char r Hr).
      reflexivity.
    + cbn [app match_name].
      rewrite Hc, (span_all is_name_char r nl [] Hr eq_refl).
      reflexivity.
Qed.

Lemma name_char_facts (c : char) :
  is_name_char c = true \/ c = nl ->
  N.eqb underscore c = false /\ N.eqb space c = false.
Proof.
  intros [H | ->]; [|split; reflexivity].
  unfold is_name_char, is_lower in H.
  split; apply N.eqb_neq; intros E; char_bools; lia.
Qed.

Lemma lower_is_name_char (c : char) : is_lower c = true -> is_name_char c = true.
Proof. intros H. unfold is_name_char. rewrite H. reflexivity. Qed.

Lemma contains_none (c : char) (s : str) :
  (forall x, In x s -> N.eqb c x = false) -> contains c s = false.
Proof.
  intros H. unfold contains. destruct (existsb (N.eqb c) s) eqn:E;
    [|reflexivity].
  apply existsb_exists in E. destruct E as (x & Hx & Ex).
  rewrite (H x Hx) in Ex. discriminate.
Qed.

(** [validate_name] finds nothing to report exactly in the names of at
    most 64 characters that are a skill name, possibly followed by one
    newline (which the [$] of the pattern lets through).  [lower] is only
    asked to leave lowercase letters, digits, hyphens and newlines as they
    are. *)
Theorem validate_name_accepts (lower : str -> str) (s : str) :
  (forall t, (forall c, In c t -> is_name_char c = true \/ c = nl) ->
             lower t = t) ->
  (validate_name lower (PStr s) = Returned [] <->
   length s <= 64 /\
   exists body, skill_name body = true /\ (s = body \/ s = body ++ [nl])).
Proof.
  intros Hlower. rewrite <- match_name_spec. unfold validate_name.
  cbn [py_len]. split.
  - destruct (length s =? 0) eqn:E0; [discriminate|].
    destruct (64 <? length s) eqn:E64;
      destruct (negb (str_eqb s (lower s)));
      destruct (contains underscore s);
      destruct (contains space s);
      destruct (match_name s); cbn; try discriminate.
    intros _. apply Nat.ltb_ge in E64. auto.
  - intros [Hlen Hm].
    assert (Hchars : forall c, In c s -> is_name_char c = true \/ c = nl).
    { apply match_name_spec in Hm. destruct Hm as (body & Hb & Hs).
      destruct body as [|c r]; [discriminate|]. cbn [skill_name] in Hb.
      apply andb_true_iff in Hb. destruct Hb as [Hc Hr].
      rewrite forallb_forall in Hr.
      assert (Hbody : forall x, In x (c :: r) -> is_name_char x = true).
      { intros x [<- | Hx]; [apply lower_is_name_char, Hc | apply Hr, Hx]. }
      destruct Hs as [-> | ->]; intros x Hx; [left; apply Hbody, Hx|].
      apply in_app_or in Hx. destruct Hx as [Hx | [<- | []]];
        [left; apply Hbody, Hx | right; reflexivity]. }
    assert (Hne : (length s =? 0) = false).
    { destruct s; [discriminate | reflexivity]. }
    rewrite Hne. replace (64 <? length s) with false
      by (symmetry; apply Nat.ltb_ge; exact Hlen).
    rewrite (Hlower s Hchars), str_eqb_refl.
    rewrite (contains_none underscore s)
      by (intros x Hx; apply (name_char_facts x (Hchars x Hx))).
    rewrite (contains_none space s)
      by (intros x Hx; apply (name_char_facts x (Hchars x Hx))).
    rewrite Hm. reflexivity.
Qed.

Lemma lower_ascii_fixes (t : str) :
  (forall c, In c t -> is_name_char c = true \/ c = nl) -> lower_ascii t = t.
Proof.
  intros H. unfold lower_ascii. induction t as [|c t IH]; [reflexivity|].
  cbn [map]. rewrite IH by (intros x Hx; apply H; right; exact Hx).
  replace ((65 <=? c)%N && (c <=? 90)%N) with false; [reflexivity|].
  symmetry. destruct (H c (or_introl eq_refl)) as [Hc | ->]; [|reflexivity].
  apply andb_false_iff. unfold is_name_char, is_lower in Hc.
  destruct (N.leb_spec 65 c); [right | left; reflexivity].
  apply N.leb_gt. char_bools; lia.
Qed.

Lemma validate_name_accepts_witness :
  validate_name lower_ascii (PStr (py "github-navigator")) = Returned [].
Proof.
  apply (validate_name_accepts lower_ascii (py "github-navigator")
           lower_ascii_fixes).
  split; [cbn; lia|]. exists (py "github-navigator").
  split; [reflexivity | left; reflexivity].
Defined.

(** ** analyze-structure.py: the header *)

Lemma app_one_not_nil (A : Type) (l : list A) (x : A) : l ++ [x] <> [].
Proof. destruct l; discriminate. Qed.

Lemma fold_unknown_warnings (ks : list str) (w : list str) :
  fold_left
    (fun warnings field =>
       if is_known field then warnings
       else warnings ++ [py "Unknown field: " ++ field]) ks w =
  w ++ map (fun k => py "Unknown field: " ++ k)
         (filter (fun k => negb (is_known k)) ks).
Proof.
  revert w. induction ks as [|k ks IH]; intros w; cbn [fold_left filter map].
  - rewrite app_nil_r. reflexivity.
  - rewrite IH. destruct (is_known k); cbn [negb map];
      [reflexivity | rewrite <- app_assoc; reflexivity].
Qed.

(** Whatever report [validate_frontmatter] returns, it is valid exactly
    when it lists no issue; its data is empty or the mapping that
    [parse_frontmatter] returns for the same text; and among its warnings
    is one for each key outside the known fields and for no other key. *)
Theorem validate_frontmatter_report (lower : str -> str) (fuel : nat)
    (content : str) (r : report) :
  validate_frontmatter lower fuel content = Some (Returned r) ->
  (valid r = true <-> issues r = []) /\
  (data r = [] \/
   exists body, parse_frontmatter fuel content = Some (data r, body)) /\
  (forall k, In (py "Unknown field: " ++ k) (warnings r) <->
             In k (keys (data r)) /\ is_known k = false).
Proof.
  assert (Hearly : forall i0 : list str,
             i0 <> [] ->
             (false = true <-> i0 = []) /\
             (@nil (str * pyval) = [] \/
              exists body,
                parse_frontmatter fuel content = Some ([], body)) /\
             (forall k, In (py "Unknown field: " ++ k) [] <->
                        In k (keys []) /\ is_known k = false)).
  { intros i0 Hi. split; [split; [discriminate | intros H; contradiction]|].
    split; [left; reflexivity|]. intros k. split; [intros [] | intros [[] _]]. }
  unfold validate_frontmatter.
  destruct (negb (startswith content (py "---"))) eqn:E1.
  { intros H; injection H as <-. cbn [valid issues data warnings].
    apply Hearly. discriminate. }
  destruct (index content (py "---") 3) as [e|] eqn:E2.
  2:{ intros H; injection H as <-. cbn [valid issues data warnings].
      apply Hearly. discriminate. }
  destruct (parse_simple_yaml fuel _) as [d|] eqn:E3; [|discriminate].
  destruct (is_empty d) eqn:Ed.
  { intros H; injection H as <-. cbn [valid issues data warnings].
    apply Hearly. apply app_one_not_nil. }
  clear Hearly.
  assert (Hpf : exists body, parse_frontmatter fuel content = Some (d, body)).
  { unfold parse_frontmatter. rewrite E1, E2, E3. eexists; reflexivity. }
  destruct (match dict_get (py "name") d with
            | Some name => validate_name lower name
            | None => Returned []
            end) as [name_issues|ex]; [|discriminate].
  set (i0 := _ ++ name_issues).
  assert (Hw : forall w0 : list str,
             (forall k, ~ In (py "Unknown field: " ++ k) w0) ->
             forall k,
               In (py "Unknown field: " ++ k)
                 (fold_left
                    (fun warnings field =>
                       if is_known field then warnings
                       else warnings ++ [py "Unknown field: " ++ field])
                    (map fst d) w0) <->
               In k (keys d) /\ is_known k = false).
  { intros w0 Hw0 k. rewrite fold_unknown_warnings, in_app_iff, in_map_iff.
    split.
    - intros [H | (k' & E & Hk')]; [exfalso; exact (Hw0 k H)|].
      apply app_inv_head in E. subst k'. apply filter_In in Hk'.
      destruct Hk' as [Hin Hk]. split; [exact Hin|].
      apply negb_true_iff, Hk.
    - intros [Hin Hk]. right. exists k. split; [reflexivity|].
      apply filter_In. split; [exact Hin | rewrite Hk; reflexivity]. }
  destruct (dict_get (py "description") d) as [desc|].
  - destruct (1024 <? py_len desc).
    + intros H; injection H as <-. cbn [valid issues data warnings].
      split; [|split; [right; exact Hpf|]].
      * destruct (i0 ++ _); cbn; split; (reflexivity || discriminate).
      * apply Hw. intros k [].
    + destruct (500 <? py_len desc).
      * intros H; injection H as <-. cbn [valid issues data warnings].
        split; [|split; [right; exact Hpf|]].
        -- destruct i0; cbn; split; (reflexivity || discriminate).
        -- apply Hw. intros k [H | []]. vm_compute in H. discriminate.
      * intros H; injection H as <-. cbn [valid issues data warnings].
        split; [|split; [right; exact Hpf|]].
        -- destruct i0; cbn; split; (reflexivity || discriminate).
        -- apply Hw. intros k [].
  - intros H; injection H as <-. cbn [valid issues data warnings].
    split; [|split; [right; exact Hpf|]].
    + destruct i0; cbn; split; (reflexivity || discriminate).
    + apply Hw. intros k [].
Qed.

Lemma validate_frontmatter_report_witness :
  (valid (mk_report true [] [py "Unknown field: extra"]
            [(py "name", PStr (py "my-skill"));
             (py "description", PStr (py "does things"));
             (py "extra", PStr (py "1"))]) = true <->
   issues (mk_report true [] [py "Unknown field: extra"]
             [(py "name", PStr (py "my-skill"));
              (py "description", PStr (py "does things"));
              (py "extra", PStr (py "1"))]) = []).
Proof.
  apply (validate_frontmatter_report lower_ascii 5
           (doc [py "---"; py "name: my-skill"; py "description: does things";
                 py "extra: 1"; py "---"; py "body"])).
  vm_compute. reflexivity.
Defined.

(** [validate_name] reports nothing only on a string of at most 64
    characters that the pattern of line 35 accepts. *)
Lemma validate_name_clean (lower : str -> str) (v : pyval) :
  validate_name lower v = Returned [] ->
  exists name, v = PStr name /\ length name <= 64 /\ match_name name = true.
Proof.
  unfold validate_name. destruct (py_len v =? 0); [discriminate|].
  destruct v as [s|d|l]; [|discriminate|discriminate]. cbn [py_len].
  destruct (64 <? length s) eqn:E64;
    destruct (negb (str_eqb s (lower s)));
    destruct (contains underscore s);
    destruct (contains space s);
    destruct (match_name s) eqn:Em; cbn; try discriminate.
  intros _. exists s. apply Nat.ltb_ge in E64. auto.
Qed.

(** A valid report stands on a closed header without tabs whose mapping
    binds [name] to a skill name of at most 64 characters and binds
    [description] to a value of length at most 1024. *)
Theorem validate_frontmatter_valid (lower : str -> str) (fuel : nat)
    (content : str) (r : report) :
  validate_frontmatter lower fuel content = Some (Returned r) ->
  valid r = true ->
  (exists e, index content (py "---") 3 = Some e /\
             contains tab (strip (slice content 3 e)) = false) /\
  (exists name, dict_get (py "name") (data r) = Some (PStr name) /\
                length name <= 64 /\ skill_name name = true) /\
  (exists desc, dict_get (py "description") (data r) = Some desc /\
                py_len desc <= 1024).
Proof.
  unfold validate_frontmatter.
  destruct (negb (startswith content (py "---"))).
  { intros H; injection H as <-. discriminate. }
  destruct (index content (py "---") 3) as [e|]; [|intros H; injection H as <-; discriminate].
  destruct (parse_simple_yaml fuel _) as [d|] eqn:Ep; [|discriminate].
  destruct (is_empty d); [intros H; injection H as <-; discriminate|].
  destruct (contains tab (strip (slice content 3 e))) eqn:Et.
  { (* a tab is an issue *)
    destruct (match dict_get (py "name") d with
              | Some name => validate_name lower name
              | None => Returned []
              end); [|discriminate].
    destruct (has_key (py "name") d), (has_key (py "description") d);
      destruct (dict_get (py "description") d) as [desc|];
      try destruct (1024 <? py_len desc); try destruct (500 <? py_len desc);
      intros H; injection H as <-; discriminate. }
  unfold has_key.
  destruct (dict_get (py "name") d) as [v|] eqn:En.
  2:{ destruct (dict_get (py "description") d) as [desc|];
        try destruct (1024 <? py_len desc); try destruct (500 <? py_len desc);
        intros H; injection H as <-; discriminate. }
  destruct (dict_get (py "description") d) as [desc|] eqn:Edesc.
  2:{ destruct (validate_name lower v); [|discriminate].
      intros H; injection H as <-; discriminate. }
  destruct (validate_name lower v) as [name_issues|] eqn:Ev; [|discriminate].
  destruct name_issues as [|x xs].
  2:{ destruct (1024 <? py_len desc); try destruct (500 <? py_len desc);
        intros H; injection H as <-; discriminate. }
  destruct (validate_name_clean lower v Ev) as (name & -> & Hlen & Hm).
  destruct (1024 <? py_len desc) eqn:E1024.
  { intros H; injection H as <-; discriminate. }
  assert (Hfinal : forall w : list str,
            (exists e0, Some e = Some e0 /\
                        contains tab (strip (slice content 3 e0)) = false) /\
            (exists name0, dict_get (py "name") d = Some (PStr name0) /\
                           length name0 <= 64 /\ skill_name name0 = true) /\
            (exists desc0, dict_get (py "description") d = Some desc0 /\
                           py_len desc0 <= 1024)).
  { intros _. split; [exists e; auto|]. split.
    - exists name. split; [exact En|]. split; [exact Hlen|].
      apply match_name_spec in Hm. destruct Hm as (b & Hb & [-> | ->]);
        [exact Hb|].
      exfalso.
      pose proof (parse_simple_yaml_values fuel _ d Ep _ _ En) as [_ Hnl].
      rewrite contains_app in Hnl. apply orb_false_iff in Hnl.
      destruct Hnl as [_ Hnl]. discriminate.
    - exists desc. split; [exact Edesc|]. apply Nat.ltb_ge, E1024. }
  destruct (500 <? py_len desc);
    intros H; injection H as <-; intros _; cbn [data];
    apply Hfinal; exact [].
Qed.

Lemma validate_frontmatter_valid_witness :
  exists name,
    dict_get (py "name")
      [(py "name", PStr (py "my-skill"));
       (py "description", PStr (py "does things"))] = Some (PStr name) /\
    length name <= 64 /\ skill_name name = true.
Proof.
  apply (validate_frontmatter_valid lower_ascii 4
           (doc [py "---"; py "name: my-skill"; py "description: does things";
                 py "---"; py "body"])
           (mk_report true [] []
              [(py "name", PStr (py "my-skill"));
               (py "description", PStr (py "does things"))])).
  - vm_compute. reflexivity.
  - reflexivity.
Defined.

(** When the header binds [name] to a nested mapping that is not empty,
    [validate_frontmatter] does not return a report: the call of [lower]
    at line 26 raises [AttributeError], which nothing catches. *)
Theorem validate_frontmatter_nested_name_raises (lower : str -> str)
    (fuel : nat) (content : str) m body entry nested :
  parse_frontmatter fuel content = Some (m, body) ->
  dict_get (py "name") m = Some (PDict (entry :: nested)) ->
  validate_frontmatter lower fuel content = Some (Raised AttributeError).
Proof.
  unfold parse_frontmatter, validate_frontmatter.
  destruct (negb (startswith content (py "---"))).
  { intros H; injection H as <- <-. discriminate. }
  destruct (index content (py "---") 3) as [e|].
  2:{ intros H; injection H as <- <-. discriminate. }
  destruct (parse_simple_yaml fuel _) as [d|]; [|discriminate].
  intros H; injection H as <- <-. intros Hn.
  destruct d as [|kv d]; [discriminate|]. cbn [is_empty].
  rewrite Hn. reflexivity.
Qed.

Lemma validate_frontmatter_nested_name_raises_witness :
  validate_frontmatter lower_ascii 4
    (doc [py "---"; py "name:"; py "  first: my-skill"; py "---"; py "body"]) =
  Some (Raised AttributeError).
Proof.
  apply (validate_frontmatter_nested_name_raises lower_ascii 4 _
           [(py "name", PDict [(py "first", PStr (py "my-skill"))])]
           (py "body") (py "first", PStr (py "my-skill")) []).
  - vm_compute. reflexivity.
  - reflexivity.
Defined.

(** ** analyze-tokens.py: words *)

Lemma split_ws_from_app_space (a b tok : str) (w : char) :
  isspace w = true ->
  split_ws_from tok (a ++ w :: b) = split_ws_from tok a ++ split_ws_from [] b.
Proof.
  intros Hw. revert tok. induction a as [|c a IH]; intros tok.
  - cbn [app split_ws_from]. rewrite Hw. destruct tok; reflexivity.
  - cbn [app split_ws_from]. destruct (isspace c); [|apply IH].
    destruct tok; cbn [is_empty]; rewrite IH; reflexivity.
Qed.

Lemma split_ws_from_word (w tok : str) :
  visible w = true ->
  split_ws_from tok w = if is_empty (tok ++ w) then [] else [tok ++ w].
Proof.
  revert tok. induction w as [|c w IH]; intros tok Hv.
  - cbn [split_ws_from]. rewrite app_nil_r. reflexivity.
  - unfold visible in Hv. cbn [forallb] in Hv. apply andb_true_iff in Hv.
    destruct Hv as [Hc Hv]. apply negb_true_iff in Hc.
    cbn [split_ws_from]. rewrite Hc, (IH (tok ++ [c]) Hv), <- app_assoc.
    reflexivity.
Qed.

(** Splitting the words joined by single spaces gives the words back. *)
Lemma split_ws_join (words : list str) :
  (forall w, In w words -> w <> [] /\ visible w = true) ->
  split_ws (join [space] words) = words.
Proof.
  induction words as [|w words IH]; intros Hall; [reflexivity|].
  destruct (Hall w (or_introl eq_refl)) as [Hne Hv].
  assert (Hw : split_ws w = [w]).
  { unfold split_ws. rewrite (split_ws_from_word w [] Hv). cbn [app].
    destruct w; [contradiction | reflexivity]. }
  destruct words as [|w' words]; [exact Hw|].
  change (join [space] (w :: w' :: words))
    with (w ++ space :: join [space] (w' :: words)).
  unfold split_ws in *. rewrite split_ws_from_app_space by reflexivity.
  rewrite Hw, IH; [reflexivity|].
  intros x Hx. apply Hall. right. exact Hx.
Qed.

(** [count_words] counts the words that were joined by spaces, when no
    word is empty or holds whitespace. *)
Theorem count_words_join (words : list str) :
  (forall w, In w words -> w <> [] /\ visible w = true) ->
  Tokens.count_words (join [space] words) = length words.
Proof.
  intros Hall. unfold Tokens.count_words. rewrite (split_ws_join words Hall).
  reflexivity.
Qed.

Lemma count_words_join_witness :
  Tokens.count_words (join [space] [py "Use"; py "when"; py "testing."]) = 3.
Proof.
  apply (count_words_join [py "Use"; py "when"; py "testing."]).
  intros w [<- | [<- | [<- | []]]]; split; (discriminate || reflexivity).
Defined.

(** [count_words] adds up over two texts put together with a whitespace
    character between them, and does not see whitespace around a text. *)
Theorem count_words_additive (a b : str) (w : char) :
  isspace w = true ->
  Tokens.count_words (a ++ w :: b) =
    Tokens.count_words a + Tokens.count_words b /\
  Tokens.count_words (strip a) = Tokens.count_words a.
Proof.
  intros Hw. unfold Tokens.count_words, split_ws. split.
  - rewrite (split_ws_from_app_space a b [] w Hw). apply length_app.
  - fold (split_ws (strip a)). rewrite split_ws_strip. reflexivity.
Qed.

Lemma count_words_additive_witness :
  Tokens.count_words (py "name: x" ++ nl :: py "body text here") =
  Tokens.count_words (py "name: x") + Tokens.count_words (py "body text here").
Proof.
  apply (count_words_additive (py "name: x") (py "body text here") nl).
  reflexivity.
Defined.

(** ** The entries of a list item record *)

Lemma visible_app (a b : str) :
  visible (a ++ b) = visible a && visible b.
Proof. unfold visible. apply forallb_app. Qed.

(** In a record that [parse_list_item] returns, every key is free of
    colons and whitespace, every value is a non-empty string free of
    whitespace, and there is at least one entry; a scalar item is the
    stripped text. *)
Theorem parse_list_item_entries (item_text : str) :
  match parse_list_item item_text with
  | PStr s => s = strip item_text
  | PDict d =>
      d <> [] /\
      forall k x, In (k, x) d ->
        contains colon k = false /\ visible k = true /\
        exists v, x = PStr v /\ v <> [] /\ visible v = true
  | PList _ => False
  end.
Proof.
  unfold parse_list_item.
  destruct (contains colon (strip item_text)); [|reflexivity].
  pose proof (split_ws_visible (strip item_text)) as Hvis.
  set (P := fun kx : str * pyval =>
              contains colon (fst kx) = false /\ visible (fst kx) = true /\
              exists v, snd kx = PStr v /\ v <> [] /\ visible v = true).
  assert (Hfold : forall toks d,
            Forall (fun t => visible t = true) toks ->
            Forall P d -> Forall P (fold_left add_part toks d)).
  { induction toks as [|tok toks IH]; intros d Ht Hd; [exact Hd|].
    cbn [fold_left]. apply Forall_cons_iff in Ht. destruct Ht as [Hv Ht].
    apply IH; [exact Ht|]. rewrite (add_part_kv d tok Hv).
    destruct (kv_of tok) as [[k v]|] eqn:E; [|exact Hd].
    apply kv_of_spec in E. destruct E as (-> & Hk & Hne).
    rewrite visible_app in Hv. apply andb_true_iff in Hv.
    destruct Hv as [Hvk Hvv].
    change (colon :: v) with ([colon] ++ v) in Hvv.
    rewrite visible_app in Hvv. apply andb_true_iff in Hvv.
    destruct Hvv as [_ Hvv].
    apply dict_set_forall; [|exact Hd].
    unfold P. cbn [fst snd]. repeat split; auto.
    exists v. auto. }
  specialize (Hfold (split_ws (strip item_text)) [] Hvis (Forall_nil _)).
  destruct (fold_left add_part (split_ws (strip item_text)) []) as [|e d];
    [reflexivity|].
  cbn [is_empty]. split; [discriminate|].
  intros k x Hin. rewrite Forall_forall in Hfold.
  exact (Hfold (k, x) Hin).
Qed.

(** ** check-char-budget.py: the budget *)

Lemma insert_desc_perm (A : Type) (key : A -> nat) (x : A) (l : list A) :
  Permutation (Budget.insert_desc key x l) (x :: l).
Proof.
  induction l as [|y l IH]; cbn [Budget.insert_desc]; [reflexivity|].
  destruct (key x <? key y); [|reflexivity].
  rewrite IH. apply perm_swap.
Qed.

Lemma sorted_desc_perm (A : Type) (key : A -> nat) (l : list A) :
  Permutation (Budget.sorted_desc key l) l.
Proof.
  unfold Budget.sorted_desc. induction l as [|x l IH]; cbn [fold_right];
    [reflexivity|].
  rewrite insert_desc_perm. apply perm_skip, IH.
Qed.

Lemma insert_desc_sorted (A : Type) (key : A -> nat) (x : A) (l : list A) :
  StronglySorted (fun a b => key b <= key a) l ->
  StronglySorted (fun a b => key b <= key a) (Budget.insert_desc key x l).
Proof.
  induction 1 as [|y l Hs IH Hy]; cbn [Budget.insert_desc].
  - constructor; constructor.
  - destruct (key x <? key y) eqn:E.
    + apply Nat.ltb_lt in E. constructor; [exact IH|].
      rewrite Forall_forall in *. intros z Hz.
      apply (Permutation_in z (insert_desc_perm A key x l)) in Hz.
      destruct Hz as [<- | Hz]; [lia | exact (Hy z Hz)].
    + apply Nat.ltb_ge in E. constructor; [constructor; assumption|].
      constructor; [exact E|].
      rewrite Forall_forall in *. intros z Hz. specialize (Hy z Hz). lia.
Qed.

Lemma sorted_desc_sorted (A : Type) (key : A -> nat) (l : list A) :
  StronglySorted (fun a b => key b <= key a) (Budget.sorted_desc key l).
Proof.
  unfold Budget.sorted_desc. induction l as [|x l IH]; cbn [fold_right].
  - constructor.
  - apply insert_desc_sorted, IH.
Qed.

Lemma insert_desc_filter (A : Type) (key : A -> nat) (n : nat) (x : A)
    (l : list A) :
  filter (fun a => key a =? n) (Budget.insert_desc key x l) =
  filter (fun a => key a =? n) (x :: l).
Proof.
  induction l as [|y l IH]; cbn [Budget.insert_desc]; [reflexivity|].
  destruct (key x <? key y) eqn:E; [|reflexivity].
  apply Nat.ltb_lt in E. cbn [filter] in *. rewrite IH.
  destruct (key x =? n) eqn:Ex; [|reflexivity].
  apply Nat.eqb_eq in Ex.
  replace (key y =? n) with false; [reflexivity|].
  symmetry. apply Nat.eqb_neq. lia.
Qed.

(** The sort keeps, among the elements of any one key, their order. *)
Lemma sorted_desc_stable (A : Type) (key : A -> nat) (n : nat) (l : list A) :
  filter (fun a => key a =? n) (Budget.sorted_desc key l) =
  filter (fun a => key a =? n) l.
Proof.
  unfold Budget.sorted_desc. induction l as [|x l IH]; cbn [fold_right];
    [reflexivity|].
  rewrite insert_desc_filter. cbn [filter]. rewrite IH. reflexivity.
Qed.

Lemma list_sum_cons (x : nat) (l : list nat) :
  list_sum (x :: l) = x + list_sum l.
Proof. reflexivity. Qed.

(** The loop of lines 71-78 from any total and breakdown. *)
Lemma budget_loop (l : list Budget.skill) (t : Z) (b : list Budget.entry) :
  fold_left
    (fun (acc : Z * list Budget.entry) (skill : Budget.skill) =>
       let '(total_chars, breakdown) := acc in
       let desc_len := py_len (Budget.description skill) in
       ((total_chars + Z.of_nat desc_len)%Z,
        breakdown ++
        [Budget.mk_entry (Budget.name skill) desc_len (Budget.path skill)]))
    l (t, b) =
  ((t + Z.of_nat (list_sum (map (fun s => py_len (Budget.description s)) l)))%Z,
   b ++ map Budget.entry_of l).
Proof.
  revert t b. induction l as [|s l IH]; intros t b; cbn [fold_left map list_sum].
  - rewrite Z.add_0_r, app_nil_r. reflexivity.
  - rewrite IH. f_equal; [rewrite list_sum_cons, Nat2Z.inj_add; lia|].
    rewrite <- app_assoc. reflexivity.
Qed.

Lemma analyze_budget_unfold (F : Type) (true_div : Z -> Z -> F)
    (fmul : F -> Z -> F) (skills : list Budget.skill) (budget : Z) :
  Budget.analyze_budget true_div fmul skills budget =
  let sorted :=
    Budget.sorted_desc (fun x => py_len (Budget.description x)) skills in
  let total_chars :=
    Z.of_nat (list_sum (map (fun s => py_len (Budget.description s)) sorted)) in
  Budget.mk_analysis total_chars budget (budget - total_chars)%Z
    (if (0 <? budget)%Z
     then Budget.Float (fmul (true_div total_chars budget) 100%Z)
     else Budget.Int 0%Z)
    (budget <? total_chars)%Z
    (map Budget.entry_of sorted)
    (length skills).
Proof.
  unfold Budget.analyze_budget. rewrite budget_loop. reflexivity.
Qed.

Lemma list_sum_perm (l l' : list nat) :
  Permutation l l' -> list_sum l = list_sum l'.
Proof.
  induction 1; rewrite ?list_sum_cons; lia.
Qed.

(** The breakdown of [analyze_budget] lists every skill once, largest
    description first, and skills with descriptions of the same length in
    the order they were given. *)
Theorem analyze_budget_breakdown (F : Type) (true_div : Z -> Z -> F)
    (fmul : F -> Z -> F) (skills : list Budget.skill) (budget : Z) :
  Permutation
    (Budget.breakdown (Budget.analyze_budget true_div fmul skills budget))
    (map Budget.entry_of skills) /\
  StronglySorted (fun a b => Budget.chars b <= Budget.chars a)
    (Budget.breakdown (Budget.analyze_budget true_div fmul skills budget)) /\
  forall n,
    filter (fun e => Budget.chars e =? n)
      (Budget.breakdown (Budget.analyze_budget true_div fmul skills budget)) =
    filter (fun e => Budget.chars e =? n) (map Budget.entry_of skills).
Proof.
  rewrite analyze_budget_unfold. cbn [Budget.breakdown].
  set (key := fun x : Budget.skill => py_len (Budget.description x)).
  split; [|split].
  - apply Permutation_map, sorted_desc_perm.
  - pose proof (sorted_desc_sorted Budget.skill key skills) as Hs.
    induction Hs as [|s l Hs IH Hf]; cbn [map]; constructor; [exact IH|].
    rewrite Forall_forall in *. intros e He. apply in_map_iff in He.
    destruct He as (s' & <- & Hs'). exact (Hf s' Hs').
  - intros n.
    assert (Hfm : forall l,
              filter (fun e => Budget.chars e =? n) (map Budget.entry_of l) =
              map Budget.entry_of (filter (fun s => key s =? n) l)).
    { induction l as [|s l IH]; [reflexivity|]. cbn [map filter].
      change (Budget.chars (Budget.entry_of s)) with (key s).
      destruct (key s =? n); cbn [map]; rewrite IH; reflexivity. }
    rewrite !Hfm, (sorted_desc_stable Budget.skill key n skills). reflexivity.
Qed.

(** The figures of [analyze_budget]: the total is the sum of the lengths
    of all descriptions, the remainder and the total make up the budget,
    [over_budget] says that the remainder is negative, the percentage is
    the int 0 exactly when the budget is not positive, and the count is
    the number of breakdown entries. *)
Theorem analyze_budget_figures (F : Type) (true_div : Z -> Z -> F)
    (fmul : F -> Z -> F) (skills : list Budget.skill) (budget : Z) :
  let a := Budget.analyze_budget true_div fmul skills budget in
  Budget.total a =
    Z.of_nat (list_sum (map (fun s => py_len (Budget.description s)) skills)) /\
  (Budget.total a + Budget.remaining a = budget)%Z /\
  (Budget.over_budget a = true <-> (Budget.remaining a < 0)%Z) /\
  (Budget.percent_used a = Budget.Int 0%Z <-> (budget <= 0)%Z) /\
  Budget.skill_count a = length (Budget.breakdown a).
Proof.
  cbv zeta. rewrite analyze_budget_unfold.
  cbn [Budget.total Budget.remaining Budget.over_budget Budget.percent_used
       Budget.skill_count Budget.breakdown].
  set (key := fun x : Budget.skill => py_len (Budget.description x)).
  assert (Hsum : list_sum (map key (Budget.sorted_desc key skills)) =
                 list_sum (map key skills)).
  { apply list_sum_perm, Permutation_map, sorted_desc_perm. }
  rewrite Hsum. split; [reflexivity|]. split; [lia|]. split; [|split].
  - rewrite Z.ltb_lt. lia.
  - destruct (0 <? budget)%Z eqn:E.
    + apply Z.ltb_lt in E. split; [discriminate | lia].
    + apply Z.ltb_ge in E. split; [intros _; exact E | reflexivity].
  - rewrite length_map. symmetry.
    apply Permutation_length, sorted_desc_perm.
Qed.

(** ** analyze-compatibility.py: the classification *)

Lemma claude_not_standard (k : str) :
  in_claude k = true -> in_standard k = false.
Proof.
  unfold in_claude, in_standard, has_key, Compat.CLAUDE_CODE_FIELDS.
  cbn [dict_get].
  destruct (str_eqb k (py "allowed-tools")) eqn:E1;
    [apply str_eqb_eq in E1; subst; reflexivity|].
  destruct (str_eqb k (py "hooks")) eqn:E2;
    [apply str_eqb_eq in E2; subst; reflexivity|].
  destruct (str_eqb k (py "context")) eqn:E3;
    [apply str_eqb_eq in E3; subst; reflexivity|].
  discriminate.
Qed.

(** The loop of lines 68-88 from any result. *)
Lemma classify_loop (py_str : pyval -> str) (items : dict) :
  forall r,
    let r' := fold_left (Compat.classify py_str) items r in
    map Compat.s_field (Compat.standard_fields r') =
      map Compat.s_field (Compat.standard_fields r) ++
      filter in_standard (keys items) /\
    map Compat.c_field (Compat.claude_code_fields r') =
      map Compat.c_field (Compat.claude_code_fields r) ++
      filter in_claude (keys items) /\
    Compat.unknown_fields r' =
      Compat.unknown_fields r ++
      filter (fun k => negb (in_standard k) && negb (in_claude k))
        (keys items) /\
    Compat.hooks_detected r' =
      Compat.hooks_detected r ++ flat_map hooks_of items /\
    Compat.is_cross_platform r' =
      Compat.is_cross_platform r &&
      is_empty (filter in_claude (keys items)) /\
    Compat.recommendations r' = Compat.recommendations r /\
    (Forall (fun e => length (Compat.s_value e) <= 53)
       (Compat.standard_fields r) ->
     Forall (fun e => length (Compat.s_value e) <= 53)
       (Compat.standard_fields r')).
Proof.
  induction items as [|[k v] items IH]; intros r; cbv zeta.
  - cbn [fold_left keys map filter flat_map]. rewrite !app_nil_r, andb_true_r.
    repeat split; auto.
  - cbn [fold_left]. specialize (IH (Compat.classify py_str r (k, v))).
    cbv zeta in IH. destruct IH as (H1 & H2 & H3 & H4 & H5 & H6 & H7).
    rewrite H1, H2, H3, H4, H5, H6. clear H1 H2 H3 H4 H5 H6.
    unfold keys. cbn [map fst filter flat_map]. fold (keys items).
    unfold Compat.classify, hooks_of at 2. cbn [fst snd].
    unfold Compat.classify in H7.
    destruct (dict_get k Compat.STANDARD_FIELDS) as [note|] eqn:Es.
    + assert (Hs : in_standard k = true)
        by (unfold in_standard, has_key; rewrite Es; reflexivity).
      assert (Hc : in_claude k = false).
      { destruct (in_claude k) eqn:E; [|reflexivity].
        apply claude_not_standard in E. congruence. }
      assert (Hh : str_eqb k (py "hooks") = false).
      { destruct (str_eqb k (py "hooks")) eqn:E; [|reflexivity].
        apply str_eqb_eq in E. subst k. discriminate. }
      rewrite Hs, Hc, Hh.
      cbn [Compat.standard_fields Compat.claude_code_fields
           Compat.unknown_fields Compat.hooks_detected
           Compat.is_cross_platform Compat.recommendations negb andb app].
      rewrite map_app, <- app_assoc. cbn [map Compat.s_field app].
      repeat split; auto.
      intros Hf. apply H7.
      apply Forall_app. split; [exact Hf|]. constructor; [|constructor].
      cbn [Compat.s_value]. unfold Compat.shorten.
      destruct (50 <? length (py_str v)) eqn:E.
      * rewrite length_app, length_firstn.
        change (length (py "...")) with 3. lia.
      * apply Nat.ltb_ge in E. lia.
    + assert (Hs : in_standard k = false)
        by (unfold in_standard, has_key; rewrite Es; reflexivity).
      rewrite Hs.
      destruct (dict_get k Compat.CLAUDE_CODE_FIELDS) as [note|] eqn:Ec.
      * assert (Hc : in_claude k = true)
          by (unfold in_claude, has_key; rewrite Ec; reflexivity).
        rewrite Hc.
        cbn [Compat.standard_fields Compat.claude_code_fields
             Compat.unknown_fields Compat.hooks_detected
             Compat.is_cross_platform Compat.recommendations negb andb
             is_empty].
        rewrite map_app, <- !app_assoc. cbn [map Compat.c_field app].
        rewrite andb_false_r.
        repeat split; auto.
        destruct (str_eqb k (py "hooks")); [|reflexivity].
        destruct v; try reflexivity. rewrite <- app_assoc. reflexivity.
      * assert (Hc : in_claude k = false)
          by (unfold in_claude, has_key; rewrite Ec; reflexivity).
        assert (Hh : str_eqb k (py "hooks") = false).
        { destruct (str_eqb k (py "hooks")) eqn:E; [|reflexivity].
          apply str_eqb_eq in E. subst k. discriminate. }
        rewrite Hc, Hh.
        cbn [Compat.standard_fields Compat.claude_code_fields
             Compat.unknown_fields Compat.hooks_detected
             Compat.is_cross_platform Compat.recommendations negb andb app].
        rewrite <- app_assoc. repeat split; auto.
Qed.

Lemma analyze_compatibility_unfold (py_str : pyval -> str) (fm : dict)
    (r : Compat.result) :
  Compat.analyze_compatibility py_str fm = inr r ->
  let r0 := fold_left (Compat.classify py_str) fm
              (Compat.mk_result [] [] [] [] true []) in
  Compat.standard_fields r = Compat.standard_fields r0 /\
  Compat.claude_code_fields r = Compat.claude_code_fields r0 /\
  Compat.unknown_fields r = Compat.unknown_fields r0 /\
  Compat.hooks_detected r = Compat.hooks_detected r0 /\
  Compat.is_cross_platform r = Compat.is_cross_platform r0.
Proof.
  unfold Compat.analyze_compatibility.
  destruct (has_key (py "error") fm); [discriminate|].
  intros H; injection H as <-. cbv zeta. repeat split; reflexivity.
Qed.

(** Every key of the mapping is filed once: the standard entries are the
    keys of the standard table, the extension entries those of the
    extension table, the unknown fields the others, each in the order of
    the mapping; the mapping is cross-platform exactly when there is no
    extension entry; and no value shown is longer than 53 characters. *)
Theorem analyze_compatibility_classification (py_str : pyval -> str)
    (fm : dict) (r : Compat.result) :
  Compat.analyze_compatibility py_str fm = inr r ->
  map Compat.s_field (Compat.standard_fields r) =
    filter in_standard (keys fm) /\
  map Compat.c_field (Compat.claude_code_fields r) =
    filter in_claude (keys fm) /\
  Compat.unknown_fields r =
    filter (fun k => negb (in_standard k) && negb (in_claude k)) (keys fm) /\
  (Compat.is_cross_platform r = true <-> Compat.claude_code_fields r = []) /\
  Forall (fun e => length (Compat.s_value e) <= 53)
    (Compat.standard_fields r).
Proof.
  intros H. apply analyze_compatibility_unfold in H. cbv zeta in H.
  destruct H as (E1 & E2 & E3 & _ & E5).
  pose proof (classify_loop py_str fm (Compat.mk_result [] [] [] [] true []))
    as L.
  cbv zeta in L. destruct L as (L1 & L2 & L3 & _ & L5 & _ & L7).
  cbn [Compat.standard_fields Compat.claude_code_fields
       Compat.unknown_fields Compat.is_cross_platform map app andb]
    in L1, L2, L3, L5, L7.
  rewrite E1, E2, E3, E5, L1, L2, L3, L5.
  repeat split; auto.
  - intros Hc.
    destruct (Compat.claude_code_fields
                (fold_left (Compat.classify py_str) fm
                   (Compat.mk_result [] [] [] [] true []))) as [|e l];
      [reflexivity|].
    cbn [map] in L2. rewrite <- L2 in Hc. discriminate.
  - intros Hc. rewrite Hc in L2. cbn [map] in L2. rewrite <- L2. reflexivity.
Qed.

Lemma analyze_compatibility_classification_witness :
  map Compat.s_field
    (Compat.standard_fields
       (Compat.mk_result
          [Compat.mk_standard (py "name") (py "x")
             (PStr (py "Required - skill identifier"))]
          [Compat.mk_claude (py "hooks")
             (PStr (py "Event hooks (PreToolUse, PostToolUse, UserPromptSubmit, Stop)"))]
          [py "extra"] [py "Stop"] false
          [py "Add required field: description";
           py "Add 'compatibility' field to document platform differences"])) =
  filter in_standard
    (keys [(py "name", PStr (py "x"));
           (py "hooks", PDict [(py "Stop", PStr (py "run"))]);
           (py "extra", PStr (py "1"))]).
Proof.
  apply (analyze_compatibility_classification
           (fun v => match v with PStr s => s | _ => [] end)
           [(py "name", PStr (py "x"));
            (py "hooks", PDict [(py "Stop", PStr (py "run"))]);
            (py "extra", PStr (py "1"))]).
  vm_compute. reflexivity.
Defined.

Lemma flat_map_hooks (items : dict) :
  NoDup (keys items) ->
  flat_map hooks_of items =
  match dict_get (py "hooks") items with
  | Some (PDict d) => keys d
  | _ => []
  end.
Proof.
  induction items as [|[k v] items IH]; intros Hnd; [reflexivity|].
  cbn [keys map fst] in Hnd. apply NoDup_cons_iff in Hnd.
  destruct Hnd as [Hk Hnd]. cbn [flat_map dict_get].
  unfold hooks_of at 1. cbn [fst snd].
  rewrite (IH Hnd).
  destruct (str_eqb k (py "hooks")) eqn:E.
  - apply str_eqb_eq in E. subst k. rewrite str_eqb_refl.
    assert (Hnone : dict_get (py "hooks") items = None).
    { destruct (dict_get (py "hooks") items) as [x|] eqn:Eg; [|reflexivity].
      exfalso. apply Hk. apply dict_get_in in Eg.
      apply in_map_iff. exists (py "hooks", x). split; [reflexivity|exact Eg]. }
    rewrite Hnone, app_nil_r. reflexivity.
  - replace (str_eqb (py "hooks") k) with false; [reflexivity|].
    symmetry. apply str_eqb_neq. intros <-. rewrite str_eqb_refl in E.
    discriminate.
Qed.

(** The hooks detected are the keys of the mapping bound to [hooks], in
    order, and there are none when [hooks] is absent or bound to something
    else than a mapping. *)
Theorem analyze_compatibility_hooks (py_str : pyval -> str) (fm : dict)
    (r : Compat.result) :
  NoDup (keys fm) ->
  Compat.analyze_compatibility py_str fm = inr r ->
  Compat.hooks_detected r =
  match dict_get (py "hooks") fm with
  | Some (PDict d) => keys d
  | _ => []
  end.
Proof.
  intros Hnd H. apply analyze_compatibility_unfold in H. cbv zeta in H.
  destruct H as (_ & _ & _ & E4 & _).
  pose proof (classify_loop py_str fm (Compat.mk_result [] [] [] [] true []))
    as L.
  cbv zeta in L. destruct L as (_ & _ & _ & L4 & _).
  cbn [Compat.hooks_detected app] in L4.
  rewrite E4, L4. apply flat_map_hooks, Hnd.
Qed.

Lemma analyze_compatibility_hooks_witness :
  Compat.hooks_detected
    (Compat.mk_result []
       [Compat.mk_claude (py "hooks")
          (PStr (py "Event hooks (PreToolUse, PostToolUse, UserPromptSubmit, Stop)"))]
       [] [py "Stop"; py "PreToolUse"] false
       [py "Add required field: name"; py "Add required field: description";
        py "Add 'compatibility' field to document platform differences"]) =
  match
    dict_get (py "hooks")
      [(py "hooks",
        PDict [(py "Stop", PStr (py "a")); (py "PreToolUse", PStr (py "b"))])]
  with
  | Some (PDict d) => keys d
  | _ => []
  end.
Proof.
  apply (analyze_compatibility_hooks
           (fun v => match v with PStr s => s | _ => [] end)
           [(py "hooks",
             PDict [(py "Stop", PStr (py "a"));
                    (py "PreToolUse", PStr (py "b"))])]).
  - repeat constructor. intros [].
  - vm_compute. reflexivity.
Defined.

(** ** analyze-all.py: the same classification *)

Lemma all_standard_table (k : str) :
  existsb (str_eqb k) AnalyzeAll.STANDARD_FIELDS = in_standard k.
Proof.
  unfold in_standard, has_key, AnalyzeAll.STANDARD_FIELDS,
    Compat.STANDARD_FIELDS.
  cbn [existsb dict_get].
  repeat match goal with
         | |- context [str_eqb k ?x] => destruct (str_eqb k x)
         end; reflexivity.
Qed.

Lemma all_claude_table (k : str) :
  existsb (str_eqb k) AnalyzeAll.CLAUDE_CODE_FIELDS = in_claude k.
Proof.
  unfold in_claude, has_key, AnalyzeAll.CLAUDE_CODE_FIELDS,
    Compat.CLAUDE_CODE_FIELDS.
  cbn [existsb dict_get].
  repeat match goal with
         | |- context [str_eqb k ?x] => destruct (str_eqb k x)
         end; reflexivity.
Qed.

(** The loop of lines 186-193 from any results. *)
Lemma all_compat_loop (ks : list str) :
  forall c,
    let c' :=
      fold_left
        (fun results field =>
           if existsb (str_eqb field) AnalyzeAll.STANDARD_FIELDS then
             AnalyzeAll.mk_compat (AnalyzeAll.is_cross_platform results)
               (AnalyzeAll.standard results ++ [field])
               (AnalyzeAll.claude_code results) (AnalyzeAll.unknown results)
           else if existsb (str_eqb field) AnalyzeAll.CLAUDE_CODE_FIELDS then
             AnalyzeAll.mk_compat false (AnalyzeAll.standard results)
               (AnalyzeAll.claude_code results ++ [field])
               (AnalyzeAll.unknown results)
           else
             AnalyzeAll.mk_compat (AnalyzeAll.is_cross_platform results)
               (AnalyzeAll.standard results) (AnalyzeAll.claude_code results)
               (AnalyzeAll.unknown results ++ [field]))
        ks c in
    AnalyzeAll.standard c' = AnalyzeAll.standard c ++ filter in_standard ks /\
    AnalyzeAll.claude_code c' =
      AnalyzeAll.claude_code c ++ filter in_claude ks /\
    AnalyzeAll.unknown c' =
      AnalyzeAll.unknown c ++
      filter (fun k => negb (in_standard k) && negb (in_claude k)) ks /\
    AnalyzeAll.is_cross_platform c' =
      AnalyzeAll.is_cross_platform c && is_empty (filter in_claude ks).
Proof.
  induction ks as [|k ks IH]; intros c; cbv zeta.
  - cbn [fold_left filter]. rewrite !app_nil_r, andb_true_r. auto.
  - cbn [fold_left filter]. rewrite all_standard_table, all_claude_table.
    destruct (in_standard k) eqn:Es.
    + assert (Hc : in_claude k = false).
      { destruct (in_claude k) eqn:E; [|reflexivity].
        apply claude_not_standard in E. congruence. }
      rewrite Hc. cbn [negb andb].
      match goal with |- context [fold_left ?f ks ?c0] =>
        specialize (IH c0) end.
      cbv zeta in IH. destruct IH as (H1 & H2 & H3 & H4).
      rewrite H1, H2, H3, H4.
      cbn [AnalyzeAll.standard AnalyzeAll.claude_code AnalyzeAll.unknown
           AnalyzeAll.is_cross_platform].
      rewrite <- app_assoc. auto.
    + destruct (in_claude k) eqn:Ec; cbn [negb andb].
      * match goal with |- context [fold_left ?f ks ?c0] =>
          specialize (IH c0) end.
        cbv zeta in IH. destruct IH as (H1 & H2 & H3 & H4).
        rewrite H1, H2, H3, H4.
        cbn [AnalyzeAll.standard AnalyzeAll.claude_code AnalyzeAll.unknown
             AnalyzeAll.is_cross_platform is_empty andb].
        rewrite <- app_assoc, andb_false_r. auto.
      * match goal with |- context [fold_left ?f ks ?c0] =>
          specialize (IH c0) end.
        cbv zeta in IH. destruct IH as (H1 & H2 & H3 & H4).
        rewrite H1, H2, H3, H4.
        cbn [AnalyzeAll.standard AnalyzeAll.claude_code AnalyzeAll.unknown
             AnalyzeAll.is_cross_platform].
        rewrite <- app_assoc. auto.
Qed.

(** The two classifiers agree: on a mapping without the key [error], the
    [analyze_compatibility] of analyze-all.py files the keys in the same
    three lists as the one of analyze-compatibility.py and gives the same
    answer for [is_cross_platform]. *)
Theorem analyze_compatibility_agree (py_str : pyval -> str)
    (sk : AnalyzeAll.skill) (r : Compat.result) :
  Compat.analyze_compatibility py_str (AnalyzeAll.frontmatter sk) = inr r ->
  AnalyzeAll.standard (AnalyzeAll.analyze_compatibility sk) =
    map Compat.s_field (Compat.standard_fields r) /\
  AnalyzeAll.claude_code (AnalyzeAll.analyze_compatibility sk) =
    map Compat.c_field (Compat.claude_code_fields r) /\
  AnalyzeAll.unknown (AnalyzeAll.analyze_compatibility sk) =
    Compat.unknown_fields r /\
  AnalyzeAll.is_cross_platform (AnalyzeAll.analyze_compatibility sk) =
    Compat.is_cross_platform r.
Proof.
  intros H. apply analyze_compatibility_unfold in H. cbv zeta in H.
  destruct H as (E1 & E2 & E3 & _ & E5).
  pose proof (classify_loop py_str (AnalyzeAll.frontmatter sk)
                (Compat.mk_result [] [] [] [] true [])) as L.
  cbv zeta in L. destruct L as (L1 & L2 & L3 & _ & L5 & _).
  cbn [Compat.standard_fields Compat.claude_code_fields
       Compat.unknown_fields Compat.is_cross_platform map app andb]
    in L1, L2, L3, L5.
  rewrite E1, E2, E3, E5, L1, L2, L3, L5.
  pose proof (all_compat_loop (map fst (AnalyzeAll.frontmatter sk))
                (AnalyzeAll.mk_compat true [] [] [])) as A.
  cbv zeta in A. destruct A as (A1 & A2 & A3 & A4).
  unfold AnalyzeAll.analyze_compatibility. rewrite A1, A2, A3, A4.
  repeat split; reflexivity.
Qed.

Lemma analyze_compatibility_agree_witness :
  AnalyzeAll.is_cross_platform
    (AnalyzeAll.analyze_compatibility
       (AnalyzeAll.mk_skill (py "skills/x") [] [(py "context", PStr (py "fork"))]
          (PStr (py "x")) (PStr []) 1)) = false.
Proof.
  apply (analyze_compatibility_agree
           (fun v => match v with PStr s => s | _ => [] end)
           (AnalyzeAll.mk_skill (py "skills/x") []
              [(py "context", PStr (py "fork"))] (PStr (py "x")) (PStr []) 1)
           (Compat.mk_result []
              [Compat.mk_claude (py "context")
                 (PStr (py "Execution context (fork for isolated subagent)"))]
              [] [] false
              [py "Add required field: name";
               py "Add required field: description";
               py "Add 'compatibility' field to document platform differences"])).
  vm_compute. reflexivity.
Defined.

(** ** analyze-all.py: the inline parser *)

Lemma closed_header_parts (header rest : str) :
  (forall j, j < length header ->
             firstn 3 (skipn j (header ++ py "---" ++ rest)) <> py "---") ->
  index (py "---" ++ header ++ py "---" ++ rest) (py "---") 3 =
    Some (3 + length header) /\
  slice (py "---" ++ header ++ py "---" ++ rest) 3 (3 + length header) =
    header /\
  skipn (3 + length header + 3) (py "---" ++ header ++ py "---" ++ rest) =
    rest.
Proof.
  intros Hno. split; [|split].
  - unfold index.
    replace (3 <=? length (py "---" ++ header ++ py "---" ++ rest)) with true
      by (symmetry; apply Nat.leb_le; rewrite length_app; cbn; lia).
    change (skipn 3 (py "---" ++ header ++ py "---" ++ rest))
      with (header ++ py "---" ++ rest).
    apply find_from_first.
    + intros j Hj. apply (startswith_false_firstn _ (py "---")).
      apply Hno, Hj.
    + rewrite skipn_app, skipn_all, Nat.sub_diag. reflexivity.
  - unfold slice.
    change (skipn 3 (py "---" ++ header ++ py "---" ++ rest))
      with (header ++ py "---" ++ rest).
    replace (3 + length header - 3) with (length header + 0) by lia.
    rewrite firstn_app_2. cbn [firstn]. apply app_nil_r.
  - replace (3 + length header + 3) with (3 + (length header + 3)) by lia.
    change (skipn (3 + (length header + 3))
              (py "---" ++ header ++ py "---" ++ rest))
      with (skipn (length header + 3) (header ++ py "---" ++ rest)).
    rewrite skipn_app.
    replace (length header + 3 - length header) with 3 by lia.
    rewrite (skipn_all2 header) by lia. reflexivity.
Qed.

Lemma key_char_visible (c : char) : is_key_char c = true -> isspace c = false.
Proof.
  intros H. destruct (isspace c) eqn:E; [|reflexivity].
  exfalso. char_bools; lia.
Qed.

Lemma key_char_not_colon (c : char) :
  is_key_char c = true -> N.eqb colon c = false.
Proof.
  intros H. apply N.eqb_neq. intros E. char_bools; lia.
Qed.

Lemma identifier_chars (k : str) :
  is_identifier k = true -> forall c, In c k -> is_key_char c = true.
Proof.
  destruct k as [|a k]; [discriminate|]. cbn [is_identifier].
  intros H. apply andb_true_iff in H. destruct H as [Ha Hk].
  rewrite forallb_forall in Hk. intros c [<- | Hc]; [|apply Hk, Hc].
  unfold is_key_char. rewrite Ha. reflexivity.
Qed.

Lemma strip_chars_id (chars s : str) :
  existsb (N.eqb (hd 0%N s)) chars = false ->
  existsb (N.eqb (last s 0%N)) chars = false ->
  s <> [] ->
  strip_chars chars s = s.
Proof.
  intros Hh Hl Hne. unfold strip_chars.
  destruct s as [|c t]; [contradiction|]. cbn [hd] in Hh.
  cbn [drop_while]. rewrite Hh.
  destruct (@exists_last _ (c :: t)) as (t' & l & E); [discriminate|].
  rewrite E in *. rewrite last_last in Hl.
  rewrite rev_app_distr. cbn [rev app drop_while]. rewrite Hl.
  cbn [rev]. rewrite rev_involutive. reflexivity.
Qed.

(** The inline parser on a line [key: value] that needs no quotes. *)
Lemma inline_header_line (d : dict) (k v : str) :
  is_identifier k = true -> plain_value v ->
  not_quote (hd 0%N v) = true -> not_quote (last v 0%N) = true ->
  AnalyzeAll.inline_line d (header_line (k, v)) = dict_set k (PStr v) d.
Proof.
  intros Hk Hv Hqh Hql.
  pose proof Hv as (Hne & Hnl & Hh & Hl & _).
  unfold AnalyzeAll.inline_line, header_line. cbn [fst snd].
  assert (Hrest : py ": " ++ v <> []) by discriminate.
  assert (Hlast : isspace (last (py ": " ++ v) 0%N) = false).
  { rewrite last_app_nonempty by exact Hne. exact Hl. }
  destruct (strip_key_line k _ Hk Hrest Hlast) as [Hs Hc].
  rewrite Hs, Hc.
  assert (Hkc : contains colon k = false).
  { apply contains_none. intros x Hx.
    apply key_char_not_colon, (identifier_chars k Hk x Hx). }
  change (py ": " ++ v) with (colon :: space :: v).
  replace (contains colon (k ++ colon :: space :: v)) with true.
  2:{ symmetry. rewrite contains_app. apply orb_true_iff. right.
      unfold contains. cbn [existsb]. rewrite N.eqb_refl. reflexivity. }
  rewrite (partition_app colon k (space :: v) Hkc).
  assert (Hsk : strip k = k).
  { apply strip_visible. unfold visible. apply forallb_forall.
    intros x Hx. apply negb_true_iff, key_char_visible,
      (identifier_chars k Hk x Hx). }
  assert (Hsv : strip (space :: v) = v).
  { unfold strip, lstrip. cbn [drop_while].
    change (isspace space) with true. cbv iota.
    fold (lstrip v). fold (strip v). apply strip_id; assumption. }
  rewrite Hsk, Hsv.
  rewrite strip_chars_id; [reflexivity | | | exact Hne].
  - unfold not_quote in Hqh. apply andb_true_iff in Hqh.
    destruct Hqh as [A B]. apply negb_true_iff in A, B.
    cbn [existsb]. rewrite A, B. reflexivity.
  - unfold not_quote in Hql. apply andb_true_iff in Hql.
    destruct Hql as [A B]. apply negb_true_iff in A, B.
    cbn [existsb]. rewrite A, B. reflexivity.
Qed.

Lemma fold_inline_header_lines (kvs : list (str * str)) :
  (forall kv, In kv kvs ->
              is_identifier (fst kv) = true /\ plain_value (snd kv) /\
              not_quote (hd 0%N (snd kv)) = true /\
              not_quote (last (snd kv) 0%N) = true) ->
  forall d,
    NoDup (keys d ++ map fst kvs) ->
    fold_left AnalyzeAll.inline_line (map header_line kvs) d =
    d ++ map (fun kv => (fst kv, PStr (snd kv))) kvs.
Proof.
  induction kvs as [|[k v] kvs IH]; intros Hall d Hnd.
  - cbn. rewrite app_nil_r. reflexivity.
  - cbn [map fold_left fst snd].
    destruct (Hall (k, v) (or_introl eq_refl)) as (Hk & Hv & Hqh & Hql).
    cbn [fst snd] in *.
    rewrite (inline_header_line d k v Hk Hv Hqh Hql).
    rewrite dict_set_fresh.
    + rewrite IH.
      * rewrite <- app_assoc. reflexivity.
      * intros kv Hkv. apply Hall. right. exact Hkv.
      * unfold keys in *. rewrite map_app, <- app_assoc. exact Hnd.
    + apply NoDup_remove_2 in Hnd. intros H. apply Hnd.
      apply in_or_app. left. exact H.
Qed.

(** The two parsers agree on a written document: for the delimiter, a
    newline, the lines [key: value] of a flat mapping with distinct
    identifier keys and plain values that have no quote at either end, a
    newline, the delimiter and any text, with no occurrence of the
    delimiter beginning inside the header, the inline parser of
    analyze-all.py returns the mapping written and the stripped text, and
    so does [parse_frontmatter] of frontmatter.py. *)
Theorem inline_parser_agrees (fuel : nat) (kvs : list (str * str))
    (rest : str) :
  (forall kv, In kv kvs ->
              is_identifier (fst kv) = true /\ plain_value (snd kv) /\
              not_quote (hd 0%N (snd kv)) = true /\
              not_quote (last (snd kv) 0%N) = true) ->
  NoDup (map fst kvs) ->
  (forall j,
      j < length ([nl] ++ join [nl] (map header_line kvs) ++ [nl]) ->
      firstn 3
        (skipn j (([nl] ++ join [nl] (map header_line kvs) ++ [nl]) ++
                  py "---" ++ rest)) <> py "---") ->
  AnalyzeAll.parse_frontmatter
    (py "---" ++ ([nl] ++ join [nl] (map header_line kvs) ++ [nl]) ++
     py "---" ++ rest) =
    (map (fun kv => (fst kv, PStr (snd kv))) kvs, strip rest) /\
  parse_frontmatter (2 + length kvs + fuel)
    (py "---" ++ ([nl] ++ join [nl] (map header_line kvs) ++ [nl]) ++
     py "---" ++ rest) =
    Some (AnalyzeAll.parse_frontmatter
            (py "---" ++ ([nl] ++ join [nl] (map header_line kvs) ++ [nl]) ++
             py "---" ++ rest)).
Proof.
  intros Hall Hnd Hno.
  assert (Hall' : forall kv, In kv kvs ->
            is_identifier (fst kv) = true /\ plain_value (snd kv)).
  { intros kv Hin. destruct (Hall kv Hin) as (A & B & _). auto. }
  assert (E : AnalyzeAll.parse_frontmatter
                (py "---" ++ ([nl] ++ join [nl] (map header_line kvs) ++ [nl])
                 ++ py "---" ++ rest) =
              (map (fun kv => (fst kv, PStr (snd kv))) kvs, strip rest)).
  { unfold AnalyzeAll.parse_frontmatter.
    change (startswith
              (py "---" ++ ([nl] ++ join [nl] (map header_line kvs) ++ [nl])
               ++ py "---" ++ rest) (py "---")) with true.
    cbn [negb].
    destruct (closed_header_parts _ rest Hno) as (Ei & Es & Ek).
    rewrite Ei, Es, Ek, (strip_header_lines kvs Hall').
    f_equal. destruct kvs as [|kv kvs]; [reflexivity|].
    rewrite split_join.
    - apply (fold_inline_header_lines (kv :: kvs) Hall []). exact Hnd.
    - discriminate.
    - intros l Hl. apply in_map_iff in Hl. destruct Hl as ([k v] & <- & Hin).
      destruct (Hall' _ Hin) as [Hk Hv]. cbn [fst snd] in *.
      apply header_line_no_newline; [exact Hk | apply Hv]. }
  split; [exact E|]. rewrite E.
  rewrite (closed_header_split _ _ rest Hno).
  rewrite (strip_header_lines kvs Hall').
  rewrite (flat_lines_round_trip fuel kvs Hall' Hnd). reflexivity.
Qed.

Lemma inline_parser_agrees_witness :
  AnalyzeAll.parse_frontmatter
    (py "---" ++ ([nl] ++ join [nl] (map header_line [(py "name", py "x")])
                  ++ [nl]) ++ py "---" ++ ([nl] ++ py "Body")) =
  (map (fun kv => (fst kv, PStr (snd kv))) [(py "name", py "x")],
   strip ([nl] ++ py "Body")).
Proof.
  refine (proj1 (inline_parser_agrees 0 [(py "name", py "x")]
                   ([nl] ++ py "Body") _ _ _)).
  - intros kv [<- | []]. split; [reflexivity|]. split; [|split; reflexivity].
    repeat split; try discriminate; try reflexivity;
      intros [H _]; vm_compute in H; discriminate.
  - repeat constructor. intros [].
  - intros j Hj.
    do 9 (destruct j as [|j]; [vm_compute; discriminate|]).
    vm_compute in Hj. lia.
Defined.

(** ** Writing a nested block and reading it back *)

Lemma match_key_value_head_line (key : str) :
  is_identifier key = true ->
  match_key_value (block_head key) = Some (key, []).
Proof.
  intros Hk. unfold block_head.
  destruct key as [|c k]; [discriminate|]. cbn [is_identifier] in Hk.
  apply andb_true_iff in Hk. destruct Hk as [Hc Hk].
  cbn [app match_key_value]. rewrite Hc.
  rewrite (span_all is_key_char k colon [] Hk eq_refl).
  rewrite lstrip_cons_nonspace by reflexivity.
  rewrite N.eqb_refl. reflexivity.
Qed.

Lemma nested_body_plain_line (fuel : nat) lines i nested (k v : str) :
  is_identifier k = true -> plain_value v ->
  N.eqb dash (hd 0%N v) = false ->
  nested_body fuel lines i nested (nested_line (k, v)) =
  Some (Continue (dict_set k (PStr v) nested, S i)).
Proof.
  intros Hk Hv Hd. pose proof Hv as (Hne & Hnl & Hh & Hl & _).
  assert (Hka : exists c r, k = c :: r /\ is_alpha c = true).
  { destruct k as [|c r]; [discriminate|]. cbn [is_identifier] in Hk.
    apply andb_true_iff in Hk. destruct Hk as [Hc _]. eauto. }
  destruct Hka as (c & r & -> & Hc).
  assert (Hls : lstrip (nested_line (@pair str str (c :: r) v)) = header_line (@pair str str (c :: r) v)).
  { unfold nested_line. change (py "  ") with [space; space].
    unfold lstrip. cbn [app drop_while]. change (isspace space) with true.
    cbv iota. unfold header_line. cbn [fst snd].
    cbn [app drop_while]. rewrite (alpha_not_space c Hc). reflexivity. }
  assert (Hm : match_nested_key_value (nested_line (@pair str str (c :: r) v)) =
               Some (c :: r, v)).
  { unfold match_nested_key_value.
    change (nested_line (@pair str str (c :: r) v))
      with (space :: space :: header_line (@pair str str (c :: r) v)) at 1.
    change (isspace space) with true. cbv iota.
    rewrite Hls. apply match_key_value_line; assumption. }
  unfold nested_body.
  assert (Hstrip : is_empty (strip (nested_line (@pair str str (c :: r) v))) = false).
  { pose proof Hls as Hls'. unfold header_line in Hls'.
    cbn [fst snd app] in Hls'.
    rewrite (strip_of_lstrip _ _ _ Hls' (alpha_not_space c Hc)).
    reflexivity. }
  rewrite Hstrip.
  change (still_indented (nested_line (@pair str str (c :: r) v))) with true.
  cbv iota. rewrite Hm, (strip_id v Hne Hh Hl).
  replace (startswith v [dash]) with false.
  2:{ destruct v as [|x t]; [contradiction|]. cbn [hd] in Hd.
      cbn [startswith]. rewrite Hd. reflexivity. }
  assert (Hq : strip_quotes v = v).
  { destruct Hv as (_ & _ & _ & _ & _ & _ & Hdq & Hsq).
    unfold strip_quotes.
    destruct (startswith v [dquote] && endswith v [dquote]) eqn:E1.
    { apply andb_true_iff in E1. destruct E1 as [A B]. exfalso. apply Hdq.
      split; [apply startswith_one, A | apply endswith_one, B]. }
    destruct (startswith v [squote] && endswith v [squote]) eqn:E2.
    { apply andb_true_iff in E2. destruct E2 as [A B]. exfalso. apply Hsq.
      split; [apply startswith_one, A | apply endswith_one, B]. }
    reflexivity. }
  rewrite Hq. reflexivity.
Qed.

Lemma nested_line_no_newline (k v : str) :
  is_identifier k = true -> contains nl v = false ->
  contains nl (nested_line (k, v)) = false.
Proof.
  intros Hk Hv. unfold nested_line. rewrite contains_app.
  rewrite (header_line_no_newline k v Hk Hv). reflexivity.
Qed.

(** The loop of lines 108-138 over a run of lines [  key: value] that
    reaches the end of the header: one assignment per line, in order. *)
Lemma nested_loop_plain_lines (fuel : nat) (kvs : list (str * str)) :
  (forall kv, In kv kvs ->
              is_identifier (fst kv) = true /\ plain_value (snd kv) /\
              N.eqb dash (hd 0%N (snd kv)) = false) ->
  forall pre nested,
    nested_loop (S (length kvs) + fuel) (pre ++ map nested_line kvs)
      (length pre) nested =
    Some (fold_left (fun d kv => dict_set (fst kv) (PStr (snd kv)) d)
            kvs nested,
          length pre + length kvs).
Proof.
  induction kvs as [|[k v] kvs IH]; intros Hall pre nested.
  - cbn [length Nat.add nested_loop map fold_left]. rewrite app_nil_r.
    rewrite (proj2 (nth_error_None pre (length pre))) by lia.
    rewrite Nat.add_0_r. reflexivity.
  - change (S (length ((k, v) :: kvs)) + fuel)
      with (S (S (length kvs) + fuel)).
    cbn [length nested_loop map fold_left fst snd].
    rewrite nth_error_app2, Nat.sub_diag by lia. cbn [nth_error].
    destruct (Hall (k, v) (or_introl eq_refl)) as (Hk & Hv & Hd).
    cbn [fst snd] in Hk, Hv, Hd.
    rewrite (nested_body_plain_line _ _ _ _ k v Hk Hv Hd).
    replace (pre ++ nested_line (k, v) :: map nested_line kvs)
      with ((pre ++ [nested_line (k, v)]) ++ map nested_line kvs)
      by (rewrite <- app_assoc; reflexivity).
    replace (S (length pre)) with (length (pre ++ [nested_line (k, v)]))
      by (rewrite length_app; cbn [length]; lia).
    rewrite IH.
    + rewrite length_app. cbn [length]. f_equal. f_equal. lia.
    + intros kv Hkv. apply Hall. right. exact Hkv.
Qed.

Lemma fold_dict_set_fresh (kvs : list (str * str)) :
  forall d,
    NoDup (keys d ++ map fst kvs) ->
    fold_left (fun d kv => dict_set (fst kv) (PStr (snd kv)) d) kvs d =
    d ++ map (fun kv => (fst kv, PStr (snd kv))) kvs.
Proof.
  induction kvs as [|[k v] kvs IH]; intros d Hnd.
  - cbn. rewrite app_nil_r. reflexivity.
  - cbn [map fold_left fst snd]. rewrite dict_set_fresh.
    + rewrite IH.
      * rewrite <- app_assoc. reflexivity.
      * unfold keys in *. rewrite map_app, <- app_assoc. exact Hnd.
    + cbn [map fst] in Hnd. apply NoDup_remove_2 in Hnd. intros H.
      apply Hnd. apply in_or_app. left. exact H.
Qed.

Lemma nested_lines_round_trip (fuel : nat) (key : str)
    (kvs : list (str * str)) :
  is_identifier key = true ->
  (forall kv, In kv kvs ->
              is_identifier (fst kv) = true /\ plain_value (snd kv) /\
              N.eqb dash (hd 0%N (snd kv)) = false) ->
  NoDup (map fst kvs) ->
  parse_simple_yaml (3 + length kvs + fuel)
    (join [nl] (block_head key :: map nested_line kvs)) =
  Some [(key, PDict (map (fun kv => (fst kv, PStr (snd kv))) kvs))].
Proof.
  intros Hkey Hall Hnd.
  set (ls := block_head key :: map nested_line kvs).
  assert (Hls : split nl (join [nl] ls) = ls).
  { apply split_join; [discriminate|]. intros l [<- | Hl].
    - unfold block_head. rewrite contains_app.
      rewrite (identifier_no_newline key Hkey). reflexivity.
    - apply in_map_iff in Hl. destruct Hl as ([k v] & <- & Hin).
      destruct (Hall _ Hin) as (Hk & Hv & _). cbn [fst snd] in *.
      apply nested_line_no_newline; [exact Hk | apply Hv]. }
  unfold parse_simple_yaml. rewrite Hls.
  destruct (strip_key_line key [colon] Hkey) as [Hs Hc];
    [discriminate | reflexivity |].
  fold (block_head key) in Hs, Hc.
  cbn [Nat.add outer_loop St.i]. unfold ls at 1. cbn [nth_error].
  rewrite (outer_body_empty_value _ ls _ (block_head key) key []).
  - cbn [St.i]. unfold ls at 1.
    pose proof (nested_loop_plain_lines (S fuel) kvs Hall
                  [block_head key] []) as Hn.
    cbn [length app] in Hn.
    replace (S (S (length kvs + fuel))) with (S (length kvs) + S fuel)
      by lia.
    rewrite Hn. cbn [outer_loop St.i].
    replace (nth_error ls (1 + length kvs)) with (@None str).
    + cbn [in_block St.current_key St.result dict_set].
      rewrite (fold_dict_set_fresh kvs []); [reflexivity | exact Hnd].
    + symmetry. apply nth_error_None. unfold ls. cbn [length].
      rewrite length_map. lia.
  - rewrite Hs. exact Hc.
  - reflexivity.
  - rewrite Hs. apply match_key_value_head_line, Hkey.
  - reflexivity.
  - reflexivity.
Qed.

(** Round trip of one nested mapping: write an identifier key followed by
    a colon, then each binding of distinct identifier keys to plain values
    that do not open with a hyphen as a line of two spaces and
    [key: value], join the lines with newlines, and parse with fuel above
    the number of bindings plus two: the result binds the key to the
    mapping written, in the same order, and nothing else. *)
Theorem nested_mapping_round_trip (fuel : nat) (key : str)
    (kvs : list (str * str)) :
  is_identifier key = true ->
  (forall kv, In kv kvs ->
              is_identifier (fst kv) = true /\ plain_value (snd kv) /\
              N.eqb dash (hd 0%N (snd kv)) = false) ->
  NoDup (map fst kvs) ->
  2 + length kvs < fuel ->
  parse_simple_yaml fuel
    (join [nl] (block_head key :: map nested_line kvs)) =
  Some [(key, PDict (map (fun kv => (fst kv, PStr (snd kv))) kvs))].
Proof.
  intros Hkey Hall Hnd Hf.
  replace fuel with (3 + length kvs + (fuel - (3 + length kvs))) by lia.
  apply nested_lines_round_trip; assumption.
Qed.

Lemma nested_mapping_round_trip_witness :
  parse_simple_yaml 5
    (join [nl] (block_head (py "metadata") ::
                map nested_line
                  [(py "author", py "example-org"); (py "version", py "1.0")])) =
  Some [(py "metadata",
         PDict [(py "author", PStr (py "example-org"));
                (py "version", PStr (py "1.0"))])].
Proof.
  apply (nested_mapping_round_trip 5 (py "metadata")
           [(py "author", py "example-org"); (py "version", py "1.0")]).
  - reflexivity.
  - intros kv [<- | [<- | []]]; (split; [reflexivity|]);
      (split; [|reflexivity]);
      repeat split; try discriminate; try reflexivity;
      intros [H _]; vm_compute in H; discriminate.
  - repeat constructor; cbn; intros H;
      repeat (destruct H as [H | H]; try discriminate); exact H.
  - cbn. lia.
Defined.
